(** * DataLens profiling engine: column profiler and PBL rule generators

    A shallow embedding of [src/profiler.py] and [src/pbl_generator.py],
    of the column detection and the column statistics of
    [src/chat_agent.py], and of the choice of a reader, the XML reader and
    the default of the column mapping of [src/app.py].

    Modelling conventions.
    - A Python [str] is a Rocq [string]; a character stands for one code
      point below 256.  On that range [\d] is exactly [0-9] and [\s] is the
      set listed in [is_space].
    - A Python [int] is a [Z].  A [float] is a binary64 number of the
      module [Float64]: not a number, an infinity, or the rational it
      denotes, and every operation on floats is rounded to nearest, ties
      to even.  The sign of a zero is not modelled.  The quotient of two
      ints is kept as the exact rational and rounded where it is printed;
      the comparisons with the thresholds are made on the exact quotient.
    - The Pearson correlation is defined over the reals (exact sums, the
      square root in [R]); [DataFrame.corr] computes it in binary64.
    - A pandas Series is a dtype tag together with the list of its cells.
    - The global random state used by [Series.sample] is an explicit
      stream of draws that is threaded through the calls.
    - Library functions whose text is not part of the repository
      (the float printer, the numeric parser of [pd.to_numeric], the
      quantile, mean, median and standard deviation of a Series, the
      isolation forest) are the fields of the class [Runtime]; every
      general theorem holds for every instance of it.
    - The dtypes are the three the data model of the specification
      names: [int64] and [float64] for numeric columns, [object] for
      text. *)

From Stdlib Require Import ZArith QArith Qabs Qround Qreals Qpower Lqa.
From Stdlib Require Import Reals Lra Lia String Ascii DecimalString.
From stdpp Require Import gmap strings list sorting.

Open Scope string_scope.

(** ** Text *)

Module Text.

Definition code (c : ascii) : N := N_of_ascii c.

(** [\d] *)
Definition is_digit (c : ascii) : bool :=
  (48 <=? code c)%N && (code c <=? 57)%N.

(** [[A-Za-z ]] *)
Definition is_alpha_space (c : ascii) : bool :=
  ((65 <=? code c)%N && (code c <=? 90)%N)
  || ((97 <=? code c)%N && (code c <=? 122)%N)
  || (code c =? 32)%N.

(** [\s] on code points below 256 *)
Definition is_space (c : ascii) : bool :=
  ((9 <=? code c)%N && (code c <=? 13)%N)
  || ((28 <=? code c)%N && (code c <=? 32)%N)
  || (code c =? 133)%N || (code c =? 160)%N.

Definition is_char (a c : ascii) : bool := Ascii.eqb a c.

(** [sep.join(l)] *)
Fixpoint join (sep : string) (l : list string) : string :=
  match l with
  | [] => ""
  | [x] => x
  | x :: l' => x +:+ sep +:+ join sep l'
  end.

(** [str(n)] for a Python int *)
Definition str_of_Z (z : Z) : string := NilZero.string_of_int (Z.to_int z).
Definition str_of_nat (n : nat) : string := NilZero.string_of_uint (Nat.to_uint n).

(** Round to the nearest integer, ties to even. *)
Definition round_half_even (x : Q) : Z :=
  let f := Qfloor x in
  let d := (x - inject_Z f)%Q in
  match (d ?= 1 # 2)%Q with
  | Lt => f
  | Gt => (f + 1)%Z
  | Eq => if Z.even f then f else (f + 1)%Z
  end.

Definition two_digits (z : Z) : string :=
  if (z <? 10)%Z then "0" +:+ str_of_Z z else str_of_Z z.

(** [s[0]], when there is one *)
Definition first_char (s : string) : option ascii :=
  match s with
  | EmptyString => None
  | String c _ => Some c
  end.

End Text.

(** ** Binary64 floats

    The floats of Python, numpy and pandas.  Every operation returns the
    float nearest to the exact result, ties going to the even
    significand. *)

Module Float64.

(** A float: not a number, an infinity, or a finite number, which is the
    rational it denotes, in lowest terms.  The sign of a zero is not
    modelled. *)
Inductive t : Type :=
| Nan
| Inf (negative : bool)
| Fin (q : Q).

Definition pow2 (e : Z) : Q := (2 ^ e)%Q.

(** The exponent of the leading bit of a number other than 0: the [k]
    with [2^k <= |q| < 2^(k+1)]. *)
Definition ilog2 (q : Q) : Z :=
  let k := (Z.log2 (Z.abs (Qnum q)) - Z.log2 (Zpos (Qden q)))%Z in
  if Qle_bool (pow2 k) (Qabs q) then k else (k - 1)%Z.

(** The exponent of the last place: 53 significant bits, and no exponent
    below that of the subnormal numbers. *)
Definition ulp_exponent (q : Q) : Z := Z.max (ilog2 q - 52) (-1074).

(** The nearest multiple of the last place, ties to even, before the
    test for overflow. *)
Definition nearest (q : Q) : Q :=
  if Qeq_bool q 0 then 0%Q
  else
    let e := ulp_exponent q in
    (inject_Z (Text.round_half_even (q / pow2 e)) * pow2 e)%Q.

(** Rounding to nearest, ties to even: the float of an exact number. *)
Definition of_Q (q : Q) : t :=
  let v := nearest q in
  if Qle_bool (pow2 1024) (Qabs v) then Inf (negb (Qle_bool 0 q))
  else Fin (Qred v).

Definition of_Z (z : Z) : t := of_Q (inject_Z z).

(** [float(x)] on a number that may be kept exactly, a Python int among
    them *)
Definition normalize (x : t) : t :=
  match x with
  | Fin q => of_Q q
  | _ => x
  end.

Definition opp (x : t) : t :=
  match x with
  | Nan => Nan
  | Inf s => Inf (negb s)
  | Fin q => Fin (- q)
  end.

Definition add (x y : t) : t :=
  match x, y with
  | Nan, _ | _, Nan => Nan
  | Inf s, Inf s' => if Bool.eqb s s' then Inf s else Nan
  | Inf s, Fin _ | Fin _, Inf s => Inf s
  | Fin a, Fin b => of_Q (a + b)
  end.

Definition sub (x y : t) : t := add x (opp y).

Definition mul (x y : t) : t :=
  match x, y with
  | Nan, _ | _, Nan => Nan
  | Inf s, Inf s' => Inf (xorb s s')
  | Inf s, Fin a | Fin a, Inf s =>
      if Qeq_bool a 0 then Nan else Inf (xorb s (negb (Qle_bool 0 a)))
  | Fin a, Fin b => of_Q (a * b)
  end.

Definition div (x y : t) : t :=
  match x, y with
  | Nan, _ | _, Nan => Nan
  | Inf _, Inf _ => Nan
  | Inf s, Fin b => Inf (xorb s (negb (Qle_bool 0 b)))
  | Fin _, Inf _ => Fin 0
  | Fin a, Fin b =>
      if Qeq_bool b 0 then
        if Qeq_bool a 0 then Nan else Inf (negb (Qle_bool 0 a))
      else of_Q (a / b)
  end.

(** The square root, correctly rounded: the integer root of the number
    scaled by a power of 4 has more than 60 bits, and a half stands for
    the digits that are cut. *)
Definition sqrt (x : t) : t :=
  match x with
  | Nan => Nan
  | Inf s => if s then Nan else x
  | Fin q =>
      if Qeq_bool q 0 then Fin 0
      else if negb (Qle_bool 0 q) then Nan
      else
        let k := (64 - ilog2 q / 2)%Z in
        let scaled := (q * pow2 (2 * k))%Q in
        let r := Z.sqrt (Qfloor scaled) in
        let exact := Qeq_bool (inject_Z (r * r)) scaled in
        of_Q ((inject_Z r + (if exact then 0 else 1 # 2)) / pow2 k)
  end.

(** [x < y] and [x <= y]: false when a side is not a number *)
Definition ltb (x y : t) : bool :=
  match x, y with
  | Nan, _ | _, Nan => false
  | Inf s, Inf s' => s && negb s'
  | Inf s, Fin _ => s
  | Fin _, Inf s => negb s
  | Fin a, Fin b => negb (Qle_bool b a)
  end.

Definition leb (x y : t) : bool :=
  match x, y with
  | Nan, _ | _, Nan => false
  | Inf s, Inf s' => s || negb s'
  | Inf s, Fin _ => s
  | Fin _, Inf s => negb s
  | Fin a, Fin b => Qle_bool a b
  end.

(** [min] and [max] of the numbers of an array; NaN when there is none *)
Definition minimum (xs : list t) : t :=
  match xs with
  | [] => Nan
  | x :: xs' => fold_left (λ a b, if ltb b a then b else a) xs' x
  end.

Definition maximum (xs : list t) : t :=
  match xs with
  | [] => Nan
  | x :: xs' => fold_left (λ a b, if ltb a b then b else a) xs' x
  end.

(** [f"{x:.2f}"]: the decimal with two places that is nearest to the
    float, ties to even *)
Definition format_2f (x : t) : string :=
  match x with
  | Nan => "nan"
  | Inf s => if s then "-inf" else "inf"
  | Fin q =>
      let n := Z.abs (Text.round_half_even (q * 100)) in
      (if Qle_bool 0 q then "" else "-")
        +:+ Text.str_of_Z (n / 100) +:+ "." +:+ Text.two_digits (n mod 100)
  end.

(** *** Quantiles with linear interpolation

    The reading of "linear-interpolated quartiles": the quantile of level
    [p] of [n] numbers lies at position [(n - 1) * p] of the sorted
    numbers, between the two entries around that position. *)

(** [sorted(xs)] *)
Definition sort (xs : list t) : list t :=
  merge_sort (λ x y, Is_true (leb x y)) xs.

(** The point at the fraction [g] of the way from [a] to [b], computed
    from the nearer end as numpy's [_lerp] does. *)
Definition lerp (a b : t) (g : Q) : t :=
  let diff := sub b a in
  if Qle_bool (1 # 2) g
  then sub (normalize b) (mul diff (of_Q (1 - g)))
  else add (normalize a) (mul diff (of_Q g)).

Definition linear_quantile (xs : list t) (p : Q) : t :=
  match sort xs with
  | [] => Nan
  | (x0 :: _) as sorted =>
      let h := (inject_Z (Z.of_nat (length xs) - 1) * p)%Q in
      let i := Qfloor h in
      let lo := nth (Z.to_nat i) sorted x0 in
      let hi := nth (Z.to_nat (i + 1)) sorted lo in
      lerp lo hi (h - inject_Z i)
  end.

End Float64.

(** ** Regular expressions

    The patterns of the source are written as terms of [re] and matched
    with Brzozowski derivatives. *)

Module Regex.

Inductive re : Type :=
| Void
| Eps
| Class (p : ascii → bool)
| Cat (r1 r2 : re)
| Alt (r1 r2 : re)
| Star (r : re).

Fixpoint nullable (r : re) : bool :=
  match r with
  | Void => false
  | Eps => true
  | Class _ => false
  | Cat r1 r2 => nullable r1 && nullable r2
  | Alt r1 r2 => nullable r1 || nullable r2
  | Star _ => true
  end.

Fixpoint deriv (c : ascii) (r : re) : re :=
  match r with
  | Void => Void
  | Eps => Void
  | Class p => if p c then Eps else Void
  | Cat r1 r2 =>
      if nullable r1
      then Alt (Cat (deriv c r1) r2) (deriv c r2)
      else Cat (deriv c r1) r2
  | Alt r1 r2 => Alt (deriv c r1) (deriv c r2)
  | Star r1 => Cat (deriv c r1) (Star r1)
  end.

(** Matching a word, one derivative per character. *)
Fixpoint matchl (r : re) (w : list ascii) : bool :=
  match w with
  | [] => nullable r
  | c :: w' => matchl (deriv c r) w'
  end.

(** The characters of a string, in order. *)
Definition chars (s : string) : list ascii := list_ascii_of_string s.

(** [re.fullmatch(r, s) is not None] *)
Definition fullmatch (r : re) (s : string) : bool := matchl r (chars s).

Definition any : re := Class (λ _, true).

(** [re.search(r, s) is not None]: some substring of [s] matches [r]. *)
Definition search (r : re) (s : string) : bool :=
  fullmatch (Cat (Star any) (Cat r (Star any))) s.

(** The words a pattern denotes. *)
Inductive matches : re → list ascii → Prop :=
| M_eps : matches Eps []
| M_class p c : p c = true → matches (Class p) [c]
| M_cat r1 r2 w1 w2 :
    matches r1 w1 → matches r2 w2 → matches (Cat r1 r2) (w1 ++ w2)
| M_alt_l r1 r2 w : matches r1 w → matches (Alt r1 r2) w
| M_alt_r r1 r2 w : matches r2 w → matches (Alt r1 r2) w
| M_star_nil r : matches (Star r) []
| M_star_app r w1 w2 :
    matches r w1 → matches (Star r) w2 → matches (Star r) (w1 ++ w2).

(** The characters a pattern can consume. *)
Fixpoint alphabet (r : re) (c : ascii) : bool :=
  match r with
  | Void | Eps => false
  | Class p => p c
  | Cat r1 r2 | Alt r1 r2 => alphabet r1 c || alphabet r2 c
  | Star r1 => alphabet r1 c
  end.

(** [r+], [r?], [r{n}], [r{m,n}] and [r{m,}] *)
Definition plus (r : re) : re := Cat r (Star r).
Definition opt (r : re) : re := Alt Eps r.
Fixpoint rep (n : nat) (r : re) : re :=
  match n with
  | O => Eps
  | S n' => Cat r (rep n' r)
  end.
Fixpoint rep_opt (n : nat) (r : re) : re :=
  match n with
  | O => Eps
  | S n' => opt (Cat r (rep_opt n' r))
  end.
Definition rep_range (m n : nat) (r : re) : re :=
  Cat (rep m r) (rep_opt (n - m) r).
Definition rep_min (m : nat) (r : re) : re := Cat (rep m r) (Star r).

(** The five patterns of the source. *)

(** [\d+] *)
Definition re_digits : re := plus (Class Text.is_digit).
(** [[A-Za-z ]+] *)
Definition re_alpha : re := plus (Class Text.is_alpha_space).
(** [@] *)
Definition re_at : re := Class (Text.is_char "@").
(** [\d{2,4}[-/]\d{1,2}[-/]\d{1,2}] *)
Definition re_sep : re :=
  Class (λ c, Text.is_char "-" c || Text.is_char "/" c).
Definition re_date : re :=
  Cat (rep_range 2 4 (Class Text.is_digit))
    (Cat re_sep
       (Cat (rep_range 1 2 (Class Text.is_digit))
          (Cat re_sep (rep_range 1 2 (Class Text.is_digit))))).
(** [\+?\d[\d\-\s]{6,}] *)
Definition re_phone : re :=
  Cat (opt (Class (Text.is_char "+")))
    (Cat (Class Text.is_digit)
       (rep_min 6
          (Class (λ c, Text.is_digit c || Text.is_char "-" c
                       || Text.is_space c)))).

End Regex.


(** ** Exceptions

    A computation that can raise returns a [result]. *)

Inductive exn : Type :=
| ZeroDivisionError
| ValueError.

Inductive result (A : Type) : Type :=
| Ok (a : A)
| Raise (e : exn).

Arguments Ok {A} a.
Arguments Raise {A} e.

#[global] Instance result_ret : MRet result := λ A a, Ok a.
#[global] Instance result_bind : MBind result :=
  λ A B f m, match m with Ok a => f a | Raise e => Raise e end.

(** ** The part of pandas the programs use *)

(** Library functions the repository calls but does not define. *)
Class Runtime : Type := {
  (** [str(x)] for a float [x] *)
  float_repr : Q → string;
  (** the parser of [pd.to_numeric(..., errors='coerce')] on one string;
      a failed parse is coerced to NaN *)
  parse_numeric : string → Float64.t;
  (** [s.quantile(p)], [s.mean()], [s.median()] and [s.std()] on the
      numbers of a Series, missing cells left out.  An int is given
      exactly, the library being free to convert it where it wants. *)
  quantile : list Float64.t → Q → Float64.t;
  mean : list Float64.t → Float64.t;
  median : list Float64.t → Float64.t;
  std : list Float64.t → Float64.t;
  (** [IsolationForest(n_estimators, contamination=0.01, random_state=42)]
      fitted on the rows of a table, then its [decision_function]; the
      library raises on tables it rejects, a table without rows among
      them *)
  decision_function : nat → list (list Float64.t) → result (list Q)
}.

(** A runtime for the worked examples.  It reads plain decimal numerals
    (an optional sign, digits, an optional fraction) and [inf], and
    prints a float with its decimal expansion, cut after 17 fractional
    digits.  Its quantile interpolates linearly; its mean adds the floats
    from left to right; its standard deviation takes the squared
    deviations from that mean.  The general theorems hold for every
    runtime. *)
Module Demo.

Definition digit_val (c : ascii) : Z := Z.of_N (Text.code c) - 48.

Fixpoint digits_val (acc : Z) (s : string) : option Z :=
  match s with
  | EmptyString => Some acc
  | String c s' =>
      if Text.is_digit c then digits_val (10 * acc + digit_val c) s' else None
  end.

Fixpoint split_dot (s : string) : string * option string :=
  match s with
  | EmptyString => (EmptyString, None)
  | String c s' =>
      if Text.is_char "." c then (EmptyString, Some s')
      else let '(a, b) := split_dot s' in (String c a, b)
  end.

Definition parse_unsigned (s : string) : option Q :=
  let '(ip, fp) := split_dot s in
  match ip with
  | EmptyString => None
  | _ =>
      i ← digits_val 0 ip;
      match fp with
      | None => Some (inject_Z i)
      | Some f =>
          n ← digits_val 0 f;
          Some (inject_Z i + inject_Z n / inject_Z (10 ^ Z.of_nat (String.length f)))%Q
      end
  end.

Definition parse (s : string) : option Q :=
  match s with
  | String "-" s' => Qopp <$> parse_unsigned s'
  | String "+" s' => parse_unsigned s'
  | _ => parse_unsigned s
  end.

Fixpoint strip_zeros (ds : list Z) : list Z :=
  match ds with
  | [] => []
  | d :: ds' =>
      match strip_zeros ds' with
      | [] => if (d =? 0)%Z then [] else [d]
      | r => d :: r
      end
  end.

Fixpoint frac_digits (n : nat) (x : Q) : list Z :=
  match n with
  | O => []
  | S n' =>
      let y := (x * 10)%Q in
      Qfloor y :: frac_digits n' (y - inject_Z (Qfloor y))
  end.

Definition repr (q : Q) : string :=
  let a := Qabs q in
  let ds := strip_zeros (frac_digits 17 (a - inject_Z (Qfloor a))) in
  (if Qle_bool 0 q then "" else "-")
    +:+ Text.str_of_Z (Qfloor a) +:+ "."
    +:+ match ds with
        | [] => "0"
        | _ => foldr (λ d acc, Text.str_of_Z d +:+ acc) "" ds
        end.

Definition parse_float (s : string) : Float64.t :=
  if String.eqb s "inf" then Float64.Inf false
  else if String.eqb s "-inf" then Float64.Inf true
  else match parse s with
       | Some q => Float64.Fin q
       | None => Float64.Nan
       end.

Definition sum_floats (xs : list Float64.t) : Float64.t :=
  fold_left Float64.add xs (Float64.Fin 0).

Definition mean_floats (xs : list Float64.t) : Float64.t :=
  Float64.div (sum_floats (map Float64.normalize xs))
              (Float64.of_Z (Z.of_nat (length xs))).

Definition std_floats (xs : list Float64.t) : Float64.t :=
  let avg := mean_floats xs in
  let sq x :=
    let d := Float64.sub (Float64.normalize x) avg in Float64.mul d d in
  if (length xs <=? 1)%nat then Float64.Nan
  else
    Float64.sqrt
      (Float64.div (sum_floats (map sq xs))
                   (Float64.of_Z (Z.of_nat (length xs) - 1))).

Definition runtime : Runtime :=
  {| float_repr := repr;
     parse_numeric := parse_float;
     quantile := Float64.linear_quantile;
     mean := mean_floats;
     median := λ xs, Float64.linear_quantile xs (1 # 2);
     std := std_floats;
     decision_function := λ _ rows,
       match rows with
       | [] => Raise ValueError
       | _ => Ok (map (λ _, 0%Q) rows)
       end |}.

End Demo.


Module Pandas.

Inductive dtype : Type := int64 | float64 | object.

(** A cell: the two missing markers, a Python int, a float that is a
    number, a str, a float that is an infinity.  The float [Float q] is
    written with the number it is read from, as a literal is, and stands
    for the binary64 number nearest to it. *)
Inductive cell : Type :=
| PyNone
| NaN
| Int (z : Z)
| Float (q : Q)
| Str (s : string)
| Infinity (negative : bool).

Record Series : Type := mkSeries { dtype_of : dtype; values : list cell }.

(** [len(s)] *)
Definition len (s : Series) : Z := Z.of_nat (length (values s)).

(** [s.empty] *)
Definition empty (s : Series) : bool :=
  match values s with [] => true | _ => false end.

(** [pd.api.types.is_numeric_dtype(s)] *)
Definition is_numeric_dtype (s : Series) : bool :=
  match dtype_of s with
  | int64 | float64 => true
  | object => false
  end.

Definition isna_cell (c : cell) : bool :=
  match c with
  | PyNone | NaN => true
  | _ => false
  end.

Definition notna_cell (c : cell) : bool := negb (isna_cell c).

(** [s.isna().sum()] *)
Definition isna_sum (s : Series) : Z :=
  Z.of_nat (length (List.filter isna_cell (values s))).

(** [s.dropna()] *)
Definition dropna (s : Series) : Series :=
  mkSeries (dtype_of s) (List.filter notna_cell (values s)).

(** [s.count()]: the number of non-missing cells *)
Definition count (s : Series) : Z :=
  Z.of_nat (length (List.filter notna_cell (values s))).

(** [s.head(n)] *)
Definition head (n : nat) (s : Series) : Series :=
  mkSeries (dtype_of s) (take n (values s)).

(** The finite number a numeric cell is written with. *)
Definition num_of_cell (c : cell) : option Q :=
  match c with
  | Int z => Some (inject_Z z)
  | Float q => Some q
  | _ => None
  end.

(** The number a numeric cell holds: an int exactly, a float as
    binary64. *)
Definition value_of_cell (c : cell) : option Float64.t :=
  match c with
  | Int z => Some (Float64.Fin (inject_Z z))
  | Float q => Some (Float64.of_Q q)
  | Infinity s => Some (Float64.Inf s)
  | _ => None
  end.

(** Python's [==] on cells, as the hash table behind [unique] uses it. *)
Definition cell_eqb (a b : cell) : bool :=
  match a, b with
  | Str s1, Str s2 => String.eqb s1 s2
  | Str _, _ | _, Str _ => false
  | Infinity s1, Infinity s2 => Bool.eqb s1 s2
  | _, _ =>
      match num_of_cell a, num_of_cell b with
      | Some x, Some y => Qeq_bool x y
      | _, _ => false
      end
  end.

(** The distinct elements of a list, in order of first appearance. *)
Fixpoint distinct (l : list cell) : list cell :=
  match l with
  | [] => []
  | x :: l' => x :: List.filter (λ y, negb (cell_eqb x y)) (distinct l')
  end.

(** [s.unique()] on a series without missing cells *)
Definition unique (s : Series) : list cell := distinct (values s).

(** [s.nunique(dropna=True)] *)
Definition nunique (s : Series) : Z :=
  Z.of_nat (length (distinct (values (dropna s)))).

(** *** Random sampling

    The random state is the list of draws still to come; a draw that is
    missing counts as [0]. *)
Definition rng : Type := list nat.

Definition draw (bound : nat) (g : rng) : nat * rng :=
  match g with
  | [] => (0, [])
  | c :: g' => (c mod bound, g')
  end.

(** [k] draws without replacement, in the order drawn *)
Fixpoint choose {A : Type} (k : nat) (l : list A) (g : rng) : list A * rng :=
  match k with
  | O => ([], g)
  | S k' =>
      let '(i, g1) := draw (length l) g in
      match l !! i with
      | None => ([], g)
      | Some x =>
          let '(xs, g2) := choose k' (delete i l) g1 in
          (x :: xs, g2)
      end
  end.

(** [s.sample(n)] *)
Definition sample (n : nat) (s : Series) (g : rng) : Series * rng :=
  let '(xs, g') := choose n (values s) g in
  (mkSeries (dtype_of s) xs, g').

(** *** Numbers *)

Definition sum_num (xs : list Q) : Q := fold_right Qplus 0%Q xs.

(** The mean of exact numbers; [None] is the NaN of an empty input. *)
Definition mean_num (xs : list Q) : option Q :=
  match xs with
  | [] => None
  | _ => Some (sum_num xs / inject_Z (Z.of_nat (length xs)))%Q
  end.

(** The finite numbers of a series, as they are written. *)
Definition numbers (s : Series) : list Q :=
  omap num_of_cell (values s).

(** The numbers of a series, missing cells left out, as the library
    functions receive them. *)
Definition array (s : Series) : list Float64.t :=
  omap value_of_cell (values s).

(** The same numbers as floats: an int column compared with a float is
    converted first. *)
Definition floats (s : Series) : list Float64.t :=
  map Float64.normalize (array s).

Section with_runtime.
Context `{RT : Runtime}.

(** [str(c)] *)
Definition str_of_cell (c : cell) : string :=
  match c with
  | PyNone => "None"
  | NaN => "nan"
  | Int z => Text.str_of_Z z
  | Float q => float_repr q
  | Str s => s
  | Infinity negative => if negative then "-inf" else "inf"
  end.

(** [s.astype(str)]: the result has the object dtype *)
Definition astype_str (s : Series) : Series :=
  mkSeries object (map (λ c, Str (str_of_cell c)) (values s)).

(** The Python strings held by a series, [list(s.astype(str))]. *)
Definition tolist_str (s : Series) : list string :=
  map str_of_cell (values s).

Definition to_numeric_cell (c : cell) : cell :=
  match c with
  | Str s =>
      match parse_numeric s with
      | Float64.Fin q => Float q
      | Float64.Inf negative => Infinity negative
      | Float64.Nan => NaN
      end
  | PyNone => NaN
  | _ => c
  end.

(** [pd.to_numeric(s, errors='coerce')] *)
Definition to_numeric (s : Series) : Series :=
  mkSeries (match dtype_of s with object => float64 | d => d end)
           (map to_numeric_cell (values s)).

End with_runtime.

End Pandas.


(** ** Python arithmetic that can raise *)

(** [a / b] on Python ints *)
Definition truediv (a b : Z) : result Q :=
  if (b =? 0)%Z then Raise ZeroDivisionError
  else Ok (inject_Z a / inject_Z b)%Q.

(** [x < y] on exact quotients *)
Definition Qlt_bool (x y : Q) : bool := negb (Qle_bool y x).

(** [x >= y] for a fraction that is NaN when there is nothing to count:
    false on NaN. *)
Definition ge_nan (x : option Q) (y : Q) : bool :=
  match x with Some a => Qle_bool y a | None => false end.

(** ** profiler.py *)

Module Profiler.
Import Pandas.

Section with_runtime.
Context `{RT : Runtime}.

Definition add_if (b : bool) (label : string) (patterns : gset string) : gset string :=
  if b then patterns ∪ {[ label ]} else patterns.

(** The body of the loop of [detect_pattern]: the four tests on one value. *)
Definition classify (patterns : gset string) (v : string) : gset string :=
  let patterns := add_if (Regex.fullmatch Regex.re_digits v) "numeric" patterns in
  let patterns := add_if (Regex.fullmatch Regex.re_alpha v) "alpha" patterns in
  let patterns := add_if (Regex.search Regex.re_at v) "email-like" patterns in
  let patterns := add_if (Regex.search Regex.re_date v) "date-like" patterns in
  patterns.

(** [sorted(patterns)] *)
Definition sorted_str (l : list string) : list string := merge_sort String.le l.

Definition detect_pattern (series : Series) (sample_n : nat) (g : rng)
  : string * rng :=
  let s := astype_str (dropna series) in
  if empty s then ("empty", g)
  else
    let '(smp, g') := sample (Nat.min (length (values s)) sample_n) s g in
    let sample := astype_str smp in
    let patterns := fold_left classify (tolist_str sample) ∅ in
    (if decide (patterns = ∅) then "mixed"
     else Text.join ", " (sorted_str (elements patterns)), g').

(** The label of a sample as the specification words it: the categories
    some sampled value falls in, in lexicographic order, joined by a comma
    and a space, or "mixed" when there is none. *)
Definition categories : list (string * (string → bool)) :=
  [("alpha", Regex.fullmatch Regex.re_alpha);
   ("date-like", Regex.search Regex.re_date);
   ("email-like", Regex.search Regex.re_at);
   ("numeric", Regex.fullmatch Regex.re_digits)].

Definition matched_categories (sample : list string) : list string :=
  map fst (List.filter (λ c, existsb (snd c) sample) categories).

Definition spec_label (sample : list string) : string :=
  match matched_categories sample with
  | [] => "mixed"
  | cats => Text.join ", " cats
  end.

(** Membership in the list of matched categories, one case per category. *)
Definition in_category (x : string) (vs : list string) : Prop :=
  (x = "numeric" ∧ existsb (Regex.fullmatch Regex.re_digits) vs = true)
  ∨ (x = "alpha" ∧ existsb (Regex.fullmatch Regex.re_alpha) vs = true)
  ∨ (x = "email-like" ∧ existsb (Regex.search Regex.re_at) vs = true)
  ∨ (x = "date-like" ∧ existsb (Regex.search Regex.re_date) vs = true).

(** The dict returned by [compute_outliers]; the bounds are absent for
    the method "none". *)
Record OutlierSummary : Type := mkOutliers {
  method : string;
  out_count : Z;
  lower : option Float64.t;
  upper : option Float64.t
}.

Definition compute_outliers (series : Series) : OutlierSummary :=
  let s := dropna (to_numeric series) in
  if empty s then mkOutliers "none" 0 None None
  else
    let q1 := Float64.normalize (quantile (array s) (1 # 4)) in
    let q3 := Float64.normalize (quantile (array s) (3 # 4)) in
    let iqr := Float64.sub q3 q1 in
    let lower := Float64.sub q1 (Float64.mul (Float64.Fin (3 # 2)) iqr) in
    let upper := Float64.add q3 (Float64.mul (Float64.Fin (3 # 2)) iqr) in
    let out :=
      List.filter (λ x, Float64.ltb x lower || Float64.ltb upper x)
                  (floats s) in
    mkOutliers "IQR" (Z.of_nat (length out)) (Some lower) (Some upper).

(** A table: its columns in order, each with its name.  Column names are
    taken to be distinct, as [df[col]] needs. *)
Definition DataFrame : Type := list (string * Series).

(** [df.select_dtypes(include=[np.number])] *)
Definition select_numeric (df : DataFrame) : DataFrame :=
  List.filter (λ c, is_numeric_dtype (snd c)) df.

(** The rows of a table of numeric columns, missing cells filled with 0. *)
Definition rows_fillna0 (df : DataFrame) : list (list Float64.t) :=
  match df with
  | [] => []
  | (_, s0) :: _ =>
      map (λ i, map (λ c, default (Float64.Fin 0)
                            (values (snd c) !! i ≫= value_of_cell)) df)
          (seq 0 (length (values s0)))
  end.

Definition isolation_anomaly_scores (df : DataFrame) (n_estimators : nat)
  : result (option (list Q)) :=
  let numeric := select_numeric df in
  match numeric with
  | [] => Ok None
  | _ =>
      scores ← decision_function n_estimators (rows_fillna0 numeric);
      Ok (Some scores)
  end.

(** *** Pearson correlation

    The correlation [DataFrame.corr] approximates in binary64, defined
    over the reals. *)

(** The rows on which both columns hold a finite number. *)
Definition complete_pairs (a b : Series) : list (Q * Q) :=
  omap (λ p, x ← num_of_cell (fst p); y ← num_of_cell (snd p); Some (x, y))
       (zip (values a) (values b)).

(** The sums of squared deviations of both sides and the sum of their
    products; [None] when there is no complete row. *)
Definition co_moments (ps : list (Q * Q)) : option (Q * Q * Q) :=
  let xs := map fst ps in
  let ys := map snd ps in
  match mean_num xs, mean_num ys with
  | Some mx, Some my =>
      Some (sum_num (map (λ x, (x - mx) * (x - mx))%Q xs),
            sum_num (map (λ y, (y - my) * (y - my))%Q ys),
            sum_num (map (λ p, (fst p - mx) * (snd p - my))%Q ps))
  | _, _ => None
  end.

(** [None] is NaN: no complete row, or a column without variation. *)
Definition pearson (a b : Series) : option R :=
  match co_moments (complete_pairs a b) with
  | Some (sxx, syy, sxy) =>
      if Qeq_bool (sxx * syy) 0 then None
      else Some (Q2R sxy / sqrt (Q2R (sxx * syy)))%R
  | None => None
  end.

(** Nearest integer, ties to even. *)
Definition rint (x : R) : Z :=
  let f := Zfloor x in
  if Rlt_dec (x - IZR f) (1 / 2) then f
  else if Rlt_dec (1 / 2) (x - IZR f) then (f + 1)%Z
  else if Z.even f then f else (f + 1)%Z.

(** [round(3)] on one entry *)
Definition round3 (x : R) : R := (IZR (rint (x * 1000)) / 1000)%R.

Definition CorrMatrix : Type := list (string * list (string * option R)).

(** [numeric_df.corr().round(3)] *)
Definition corr_round3 (numeric_df : DataFrame) : CorrMatrix :=
  map (λ a, (fst a,
             map (λ b, (fst b, round3 <$> pearson (snd a) (snd b))) numeric_df))
      numeric_df.

(** Lines 81 to 84 of [profile_dataframe]. *)
Definition correlations_of (df : DataFrame) : option CorrMatrix :=
  let numeric_df := select_numeric df in
  if (1 <? length numeric_df)%nat then Some (corr_round3 numeric_df) else None.

(** The entry of a correlation matrix at a row and a column label. *)
Definition corr_entry (m : CorrMatrix) (a b : string) : option R :=
  row ← (list_find (λ r, fst r = a) m);
  e ← (list_find (λ r, fst r = b) (snd (snd row)));
  snd (snd e).

(** *** The dataset profiler *)

(** The numeric keys of a column's dict. *)
Record NumericStats : Type := mkNumericStats {
  st_min : option Float64.t;
  st_max : option Float64.t;
  st_mean : option Float64.t;
  st_median : option Float64.t;
  st_std : option Float64.t;
  st_outliers : OutlierSummary
}.

(** The dict [col_stats]; the numeric keys are present for a column of a
    numeric dtype only. *)
Record ColStats : Type := mkColStats {
  st_dtype : string;
  st_count : Z;
  st_nulls : Z;
  st_distinct : Z;
  st_sample_values : list string;
  st_pattern : string;
  st_numeric : option NumericStats
}.

(** [str(s.dtype)] *)
Definition dtype_name (d : dtype) : string :=
  match d with
  | int64 => "int64"
  | float64 => "float64"
  | object => "object"
  end.

(** [d[k] = v] on a dict that keeps insertion order *)
Fixpoint dict_set {V : Type} (d : list (string * V)) (k : string) (v : V)
  : list (string * V) :=
  match d with
  | [] => [(k, v)]
  | (k', v') :: d' =>
      if String.eqb k' k then (k, v) :: d' else (k', v') :: dict_set d' k v
  end.

(** [d.get(k)] *)
Fixpoint dict_get {V : Type} (d : list (string * V)) (k : string) : option V :=
  match d with
  | [] => None
  | (k', v') :: d' => if String.eqb k' k then Some v' else dict_get d' k
  end.

Definition outlier_insight (col : string) (n : Z) : string :=
  "Column '" +:+ col +:+ "' has " +:+ Text.str_of_Z n
    +:+ " potential outliers (IQR).".

Definition nulls_insight (col : string) (n : Z) : string :=
  "Column '" +:+ col +:+ "' has " +:+ Text.str_of_Z n +:+ " nulls.".

Definition low_cardinality_insight (col : string) (n : Z) : string :=
  "Column '" +:+ col +:+ "' appears low-cardinality (" +:+ Text.str_of_Z n
    +:+ " unique). may be categorical.".

(** One turn of the loop over [df.columns]: the dict of the column and the
    insights it adds. *)
Definition profile_column (col : string) (s : Series) (g : rng)
  : result (ColStats * list string * rng) :=
  let dtype := dtype_name (dtype_of s) in
  let cnt := len s in
  let nulls := isna_sum s in
  let distinct := nunique s in
  let sample_nonnull := tolist_str (astype_str (head 5 (dropna s))) in
  let '(patterns, g') := detect_pattern s 500 g in
  let col_stats := mkColStats dtype cnt nulls distinct sample_nonnull patterns in
  if is_numeric_dtype s then
    let s_num := to_numeric s in
    let guarded (v : Float64.t) :=
      if (0 <? count s_num)%Z then Some (Float64.normalize v) else None in
    let outliers := compute_outliers s in
    let numeric :=
      mkNumericStats
        (guarded (Float64.minimum (array s_num)))
        (guarded (Float64.maximum (array s_num)))
        (guarded (mean (array s_num)))
        (guarded (median (array s_num)))
        (guarded (std (array s_num)))
        outliers in
    Ok (col_stats (Some numeric),
          if (0 <? out_count outliers)%Z
          then [outlier_insight col (out_count outliers)] else [],
          g')
  else
    ratio ← truediv distinct (Z.max 1 cnt);
    Ok (col_stats None,
          ((if (0 <? nulls)%Z then [nulls_insight col nulls] else [])
             ++ (if Qlt_bool ratio (2 # 100)
                 then [low_cardinality_insight col distinct] else []))%list,
          g').

(** What one turn of the loop records about its column. *)
Definition records (st : ColStats) (s : Series) : Prop :=
  st_count st = len s ∧ st_nulls st = isna_sum s ∧ st_distinct st = nunique s.

(** The dict [profile_dataframe] returns. *)
Record Profile : Type := mkProfile {
  columns_overview : list (string * ColStats);
  correlations : option CorrMatrix;
  anomaly_scores : option (list Q);
  top_insights : list string
}.

(** The loop over the columns: [overview] and [top_insights] grow, the
    random state moves on. *)
Fixpoint profile_columns (cols : DataFrame)
    (overview : list (string * ColStats)) (top_insights : list string) (g : rng)
  : result (list (string * ColStats) * list string * rng) :=
  match cols with
  | [] => Ok (overview, top_insights, g)
  | (col, s) :: cols' =>
      '(col_stats, insights, g') ← profile_column col s g;
      profile_columns cols' (dict_set overview col col_stats)
                      (top_insights ++ insights)%list g'
  end.

Definition profile_dataframe (df : DataFrame) (g : rng) : result (Profile * rng) :=
  '(overview, top_insights, g') ← profile_columns df [] [] g;
  let correlations := correlations_of df in
  anomalies ← isolation_anomaly_scores df 100;
  Ok (mkProfile overview correlations anomalies top_insights, g').

End with_runtime.
End Profiler.

(** ** pbl_generator.py *)

Module PblGenerator.
Import Pandas.

Section with_runtime.
Context `{RT : Runtime}.

(** The dict returned by [infer_length_rules]. *)
Record LengthRules : Type := mkLengthRules {
  min_l : Z;
  max_l : Z;
  typical : option Z
}.

(** [lengths.mode()]: the most frequent values, in increasing order *)
Definition mode (l : list nat) : list nat :=
  let occ x := length (List.filter (Nat.eqb x) l) in
  let top := max_list (map occ l) in
  merge_sort le (remove_dups (List.filter (λ x, occ x =? top)%nat l)).

Definition infer_length_rules (series : Series) : option LengthRules :=
  let s := astype_str (dropna series) in
  if empty s then None
  else
    let lengths := map String.length (tolist_str s) in
    let min_l := Z.of_nat (foldr Nat.min (hd 0%nat lengths) lengths) in
    let max_l := Z.of_nat (max_list lengths) in
    let typical := Z.of_nat <$> hd_error (mode lengths) in
    Some (mkLengthRules min_l max_l typical).

(** The mean of a boolean column: the fraction of [True]. *)
Definition mean_bool (l : list bool) : option Q :=
  mean_num (map (λ b : bool, if b then 1%Q else 0%Q) l).

Definition is_numeric_only (series : Series) (threshold : Q) : bool :=
  let s := astype_str (dropna series) in
  if empty s then false
  else
    let frac := mean_bool (map (Regex.fullmatch Regex.re_digits) (tolist_str s)) in
    ge_nan frac threshold.

Definition is_alpha_only (series : Series) (threshold : Q) : bool :=
  let s := astype_str (dropna series) in
  if empty s then false
  else
    let frac := mean_bool (map (Regex.fullmatch Regex.re_alpha) (tolist_str s)) in
    ge_nan frac threshold.

Definition length_rule (prefix : string) (lengths : LengthRules) : string :=
  prefix +:+ Text.str_of_Z (min_l lengths) +:+ " and "
    +:+ Text.str_of_Z (max_l lengths) +:+ ".".

Definition low_cardinality_rule : string :=
  "Low cardinality — likely categorical; map to lookup table or enumerations.".

Definition candidate_key_rule : string :=
  "Values are unique — consider as candidate key.".

(** Lines 35 to 53: the character-class rules. *)
Definition class_rules (series : Series) : list string :=
  if is_numeric_only series (98 # 100) then
    (["Only numeric characters allowed."]
       ++ match infer_length_rules series with
          | Some lengths => [length_rule "Character length between " lengths]
          | None => []
          end
       ++ ["No special characters or alphabets allowed."])%list
  else if is_alpha_only series (98 # 100) then
    ["Alphabetic characters allowed only."]
  else
    let s := astype_str (dropna series) in
    let sample := tolist_str (head 50 s) in
    ((if existsb (Regex.search Regex.re_at) sample
      then ["Email format expected (contains '@')."] else [])
       ++ (if existsb (Regex.fullmatch Regex.re_phone) sample
           then ["Phone number like pattern detected."] else [])
       ++ match infer_length_rules series with
          | Some lengths =>
              [length_rule "Recommended character length between " lengths]
          | None => []
          end
       ++ ["Avoid special characters unless required (/, -, : etc)."])%list.

(** Lines 55 to 60: uniqueness and cardinality. *)
Definition uniqueness_rules (series : Series) : result (list string) :=
  if (nunique series =? len (dropna series))%Z then Ok [candidate_key_rule]
  else
    distinct_ratio ← truediv (nunique series) (Z.max 1 (len series));
    Ok (if Qlt_bool distinct_ratio (2 # 100) then [low_cardinality_rule] else []).

Definition generate_pbl_for_column (series : Series) : result (list string) :=
  let null_allowed := (0 <? isna_sum series)%Z in
  let rules :=
    if negb null_allowed then ["Nulls are NOT allowed."]
    else ["Nulls are allowed."] in
  let rules := (rules ++ class_rules series)%list in
  last_rules ← uniqueness_rules series;
  Ok (rules ++ last_rules)%list.

(** *** Rules derived from a reference column *)

Definition min_len (l : list nat) : nat := foldr Nat.min (hd 0%nat l) l.

(** [_suggest_regex_from_sample(sample_values, max_samples=100)] *)
Definition _suggest_regex_from_sample (sample_values : list cell)
    (max_samples : nat) : option string :=
  let sample :=
    map str_of_cell (List.filter notna_cell (take max_samples sample_values)) in
  let nonempty := List.filter (λ s, negb (String.eqb s "")) sample in
  match sample with
  | [] => None
  | _ =>
      if forallb (Regex.fullmatch Regex.re_digits) sample then Some "^\d+$"
      else if forallb (Regex.search Regex.re_at) nonempty
      then Some "^[\w\.-]+@[\w\.-]+\.\w{2,}$"
      else if forallb (Regex.search Regex.re_date) nonempty
      then Some "^\d{2,4}[-/]\d{1,2}[-/]\d{1,2}$"
      else
        let lengths := map String.length sample in
        match lengths with
        | [] => None
        | _ =>
            Some ("^.{" +:+ Text.str_of_nat (min_len lengths) +:+ ","
                    +:+ Text.str_of_nat (max_list lengths) +:+ "}$")
        end
  end.

(** Lines 114 to 121: the null rule. *)
Definition null_rules (t r : Series) : list string :=
  if (isna_sum r =? 0)%Z then
    if (isna_sum t =? 0)%Z
    then ["Nulls are NOT allowed (reference has no nulls)."]
    else ["Nulls are present in this dataset but reference expects none."]
  else ["Nulls allowed (reference permits nulls)."].

(** Lines 124 and 125. *)
Definition reference_key_rules (r : Series) : list string :=
  if (nunique r =? len r)%Z
  then ["Reference values are unique — consider as reference key."]
  else [].

(** [set(s.unique())] on a series of strings *)
Definition value_set (s : Series) : gset string :=
  list_to_set (map str_of_cell (unique s)).

(** Line 134 and its guard: the fraction of the distinct target values
    that occur among the reference values. *)
Definition overlap_fraction (t_vals r_vals : gset string) : result Q :=
  if (size t_vals =? 0)%nat then Ok 0%Q
  else
    truediv (Z.of_nat (size (filter (λ v, v ∈ r_vals) t_vals)))
            (Z.max 1 (Z.of_nat (size t_vals))).

Definition enumeration_rule (n : nat) : string :=
  "Allowed values derived from reference (enumeration of "
    +:+ Text.str_of_nat n +:+ " values).".

Definition allowed_sample_rule (distinct_ref : list string) : string :=
  "Allowed values (sample): " +:+ Text.join ", " (take 20 distinct_ref).

Definition lookup_rule (n : nat) : string :=
  "Reference provides a large allowed list (" +:+ Text.str_of_nat n
    +:+ " values). Use lookup mapping.".

Definition fraction_rule (overlap_frac : Q) : string :=
  "Fraction of target values present in reference: "
    +:+ Float64.format_2f (Float64.of_Q overlap_frac).

Definition partial_overlap_rule (overlap_frac : Q) : string :=
  Float64.format_2f (Float64.of_Q overlap_frac)
    +:+ " fraction of target values match reference values (partial overlap).".

Definition no_overlap_rule : string :=
  "No meaningful overlap with reference values; reference may be different domain or mismatch.".

(** Lines 127 to 150: enumeration inference. *)
Definition enumeration_rules (t r : Series) (enum_threshold : Q)
  : result (list string) :=
  if (0 <? len r)%Z && (0 <? len t)%Z then
    let t_vals := value_set t in
    let r_vals := value_set r in
    overlap_frac ← overlap_fraction t_vals r_vals;
    if Qle_bool enum_threshold overlap_frac then
      let distinct_ref := take 200 (Profiler.sorted_str (elements r_vals)) in
      Ok ((if (length distinct_ref <=? 50)%nat
             then [enumeration_rule (length distinct_ref);
                   allowed_sample_rule distinct_ref]
             else [lookup_rule (length distinct_ref)])
              ++ [fraction_rule overlap_frac])%list
    else if Qlt_bool 0 overlap_frac then Ok [partial_overlap_rule overlap_frac]
    else Ok [no_overlap_rule]
  else Ok [].

(** [str(x)] for a number [x] *)
Definition float_str (x : Float64.t) : string :=
  match x with
  | Float64.Fin q => float_repr q
  | Float64.Inf negative => if negative then "-inf" else "inf"
  | Float64.Nan => "nan"
  end.

Definition target_range_rule (tnum : list Float64.t) : string :=
  "Numeric range observed in target: min="
    +:+ float_str (Float64.minimum tnum)
    +:+ ", max=" +:+ float_str (Float64.maximum tnum) +:+ ".".

Definition reference_range_rule (rnum : list Float64.t) : string :=
  "Reference numeric range: min=" +:+ float_str (Float64.minimum rnum)
    +:+ ", max=" +:+ float_str (Float64.maximum rnum) +:+ ".".

(** Lines 153 to 159: the numeric ranges. *)
Definition range_rules (t r : Series) : list string :=
  if is_numeric_dtype r && is_numeric_dtype t then
    let tnum := dropna (to_numeric t) in
    let rnum := dropna (to_numeric r) in
    ((if negb (empty tnum) then [target_range_rule (array tnum)] else [])
       ++ (if negb (empty rnum) then [reference_range_rule (array rnum)] else []))%list
  else [].

(** [list(s.sample(min(len(s), sample_size)).astype(str)) if len(s) else []] *)
Definition sample_list (s : Series) (sample_size : nat) (g : rng)
  : list cell * rng :=
  if (0 <? len s)%Z then
    let '(smp, g') := sample (Nat.min (length (values s)) sample_size) s g in
    (values (astype_str smp), g')
  else ([], g).

Definition pattern_rule (pattern : string) : string :=
  "Suggested pattern (regex): `" +:+ pattern +:+ "`".

Definition unique_target_rule : string :=
  "Values in this dataset are unique — candidate key.".

Definition low_cardinality_target_rule : string :=
  "Low cardinality in target — likely categorical.".

(** Lines 176 to 181: uniqueness in the target. *)
Definition target_uniqueness_rules (t : Series) : result (list string) :=
  if (nunique t =? len t)%Z then Ok [unique_target_rule]
  else
    distinct_ratio ← truediv (nunique t) (Z.max 1 (len t));
    Ok (if Qlt_bool distinct_ratio (2 # 100)
          then [low_cardinality_target_rule] else []).

Definition derive_rules_from_reference (target_series reference_series : Series)
    (enum_threshold : Q) (sample_size : nat) (g : rng)
  : result (list string * rng) :=
  let t := astype_str (dropna target_series) in
  let r := astype_str (dropna reference_series) in
  let rules := null_rules t r in
  let rules := (rules ++ reference_key_rules r)%list in
  enum ← enumeration_rules t r enum_threshold;
  let rules := (rules ++ enum)%list in
  let rules := (rules ++ range_rules t r)%list in
  let '(ref_sample, g1) := sample_list r sample_size g in
  let '(tgt_sample, g2) := sample_list t sample_size g1 in
  let pattern :=
    _suggest_regex_from_sample
      (match ref_sample with [] => tgt_sample | _ => ref_sample end) 100 in
  let rules :=
    (rules ++ match pattern with Some p => [pattern_rule p] | None => [] end)%list in
  let rules :=
    (rules ++ if (0 <? len r)%Z
              then ["Reference distinct count: " +:+ Text.str_of_Z (nunique r)]
              else [])%list in
  let rules :=
    (rules ++ if (0 <? len t)%Z
              then ["Target distinct count: " +:+ Text.str_of_Z (nunique t)]
              else [])%list in
  last_rules ← target_uniqueness_rules t;
  Ok ((rules ++ last_rules)%list, g2).

End with_runtime.
End PblGenerator.

(** ** Vocabulary of the further properties *)

(** [x] lies between [a] and [b]. *)
Definition within (a b : Q) (x : Q) : Prop := (a <= x)%Q ∧ (x <= b)%Q.

(** ** More of Python's [str] and [re] *)

Module Str.

(** [c.lower()] on code points below 256: [A-Z] and the upper-case
    letters of Latin-1 move up by 32. *)
Definition lower_char (c : ascii) : ascii :=
  let n := Text.code c in
  if ((65 <=? n)%N && (n <=? 90)%N)
     || ((192 <=? n)%N && (n <=? 222)%N && negb (n =? 215)%N)
  then ascii_of_N (n + 32) else c.

(** [s.lower()] *)
Fixpoint lower (s : string) : string :=
  match s with
  | EmptyString => EmptyString
  | String c s' => String (lower_char c) (lower s')
  end.

(** [[A-Za-z0-9_]] *)
Definition is_word_char (c : ascii) : bool :=
  let n := Text.code c in
  ((65 <=? n)%N && (n <=? 90)%N) || ((97 <=? n)%N && (n <=? 122)%N)
  || ((48 <=? n)%N && (n <=? 57)%N) || (n =? 95)%N.

(** [[A-Za-z0-9_]+] *)
Definition re_word : Regex.re := Regex.plus (Regex.Class is_word_char).

(** The run of [p] that starts the word, and the maximal runs after it. *)
Fixpoint split_runs (p : ascii → bool) (w : list ascii)
  : list ascii * list (list ascii) :=
  match w with
  | [] => ([], [])
  | c :: w' =>
      let '(cur, rest) := split_runs p w' in
      if p c then (c :: cur, rest)
      else ([], match cur with [] => rest | _ => cur :: rest end)
  end.

(** The maximal non-empty runs of [p] in a word, from left to right. *)
Definition runs (p : ascii → bool) (w : list ascii) : list (list ascii) :=
  let '(cur, rest) := split_runs p w in
  match cur with [] => rest | _ => cur :: rest end.

(** [re.findall(r, s)] for a pattern [r] of the form [[class]+]: the
    matches found from left to right, each as long as it can be. *)
Definition findall_plus (p : ascii → bool) (s : string) : list string :=
  map string_of_list_ascii (runs p (Regex.chars s)).

(** [s.endswith(suffix)] *)
Definition endswith (s suffix : string) : bool :=
  let n := String.length s in
  let k := String.length suffix in
  (k <=? n)%nat && String.eqb (String.substring (n - k) k s) suffix.

(** [c in s] for a character [c] *)
Definition contains_char (c : ascii) (s : string) : bool :=
  existsb (Ascii.eqb c) (Regex.chars s).

End Str.

(** ** chat_agent.py *)

Module ChatAgent.
Import Pandas Profiler.

(** [df.columns] *)
Definition columns (df : DataFrame) : list string := map fst df.

(** [{c.lower(): c for c in df.columns}] *)
Definition lower_cols (df : DataFrame) : list (string * string) :=
  fold_left (λ d c, dict_set d (Str.lower c) c) (columns df) [].

(** The loop of [extract_column_name] over the words of the question. *)
Fixpoint first_known (d : list (string * string)) (words : list string)
  : option string :=
  match words with
  | [] => None
  | word :: words' =>
      match dict_get d word with
      | Some c => Some c
      | None => first_known d words'
      end
  end.

Definition extract_column_name (question : string) (df : DataFrame)
  : option string :=
  first_known (lower_cols df)
              (Str.findall_plus Str.is_word_char (Str.lower question)).

(** [df[column]]; [None] is the [KeyError] of a label that is no column. *)
Definition getitem (df : DataFrame) (column : string) : option Series :=
  snd <$> List.find (λ c, String.eqb (fst c) column) df.

(** The keys of the dict of [get_column_stats] that depend on the dtype. *)
Inductive StatsBody : Type :=
| NumericBody (smin smax smean smedian sstd : Float64.t)
| OtherBody (unique_values : Z) (sample_values : list string).

Record Stats : Type := mkStats {
  body : StatsBody;
  nulls : Z;
  dtype : string
}.

Section with_runtime.
Context `{RT : Runtime}.

(** [None] is the [KeyError] raised by [df[column]]. *)
Definition get_column_stats (df : DataFrame) (column : string) : option Stats :=
  col ← getitem df column;
  let s := dropna col in
  let stats :=
    if is_numeric_dtype s then
      NumericBody (Float64.normalize (Float64.minimum (array s)))
                  (Float64.normalize (Float64.maximum (array s)))
                  (Float64.normalize (mean (array s)))
                  (Float64.normalize (median (array s)))
                  (Float64.normalize (std (array s)))
    else
      OtherBody (nunique s) (map str_of_cell (take 10 (unique s))) in
  Some (mkStats stats (isna_sum col) (dtype_name (dtype_of col))).

End with_runtime.
End ChatAgent.

(** ** app.py *)

Module App.
Import Pandas Profiler.

(** The branches of [load_dataframe]. *)
Inductive loader : Type :=
| Csv | Excel | Json | Txt | Pdf | Docx | Xml | Unsupported.

(** The chain of tests on [uploaded.name.lower()]. *)
Definition loader_of (name : string) : loader :=
  let file_name := Str.lower name in
  if Str.endswith file_name ".csv" then Csv
  else if Str.endswith file_name ".xls" || Str.endswith file_name ".xlsx"
  then Excel
  else if Str.endswith file_name ".json" then Json
  else if Str.endswith file_name ".txt" then Txt
  else if Str.endswith file_name ".pdf" then Pdf
  else if Str.endswith file_name ".docx" then Docx
  else if Str.endswith file_name ".xml" then Xml
  else Unsupported.

(** The [type] list of both [st.file_uploader] calls. *)
Definition accepted_types : list string :=
  ["csv"; "xlsx"; "xls"; "json"; "txt"; "pdf"; "docx"; "xml"].

(** The separator the TXT branch reads the content with. *)
Definition txt_separator (content : string) : ascii :=
  if Str.contains_char "009" content then "009"%char
  else if Str.contains_char "|" content then "|"%char
  else ","%char.






(** The mapping of target columns to reference columns.  Column labels
    are taken to be strings.

    [ref_cols.index(c)]; [None] is the [ValueError] of a value that is not
    in the list. *)
Fixpoint index_of (c : string) (l : list string) : option nat :=
  match l with
  | [] => None
  | x :: l' => if String.eqb x c then Some 0%nat else S <$> index_of c l'
  end.

(** The options of the select box of a target column: [[None] + ref_cols] *)
Definition mapping_options (ref_cols : list string) : list (option string) :=
  None :: map Some ref_cols.

(** The index of the option selected at first for the target column [c];
    the empty string is falsy. *)
Definition default_index (c : string) (ref_cols : list string) : option nat :=
  let default := if existsb (String.eqb c) ref_cols then Some c else None in
  match default with
  | Some d =>
      if String.eqb d "" then Some 0%nat
      else i ← index_of d ref_cols; Some (i + 1)%nat
  | None => Some 0%nat
  end.

End App.

(** ** Worked inputs *)

Module Inputs.
Import Pandas Profiler.

Definition demo_table : DataFrame :=
  [("id", mkSeries int64 [Int 1; Int 2; Int 3]);
   ("name", mkSeries object [Str "ann"; PyNone; Str "bob"])].

Definition demo_amounts : Series :=
  mkSeries object
    [Str "1"; Str "2"; Str "x"; Str "3"; Str "4"; Str "100"; PyNone].

Definition demo_codes : Series :=
  mkSeries object [Str "007"; PyNone; Str "42"; Str "2024"].

(** A table of two numeric columns, [1, 2, 3] against [3, 2, 1]. *)
Definition demo_opposed : DataFrame :=
  [("up", mkSeries int64 [Int 1; Int 2; Int 3]);
   ("down", mkSeries int64 [Int 3; Int 2; Int 1])].

Definition digits_with_none : Series :=
  mkSeries object [Str "1"; Str "2"; Str "3"; PyNone].

Definition abc_target : Series := mkSeries object [Str "A"; Str "B"; Str "C"].

(** The numbers 0 to 39 as a target, with the numbers 0 to 38 as a
    reference, and with a reference of 239 values that has the numbers 0
    to 38 among them. *)
Definition forty_target : Series :=
  mkSeries int64 (map (λ n, Int (Z.of_nat n)) (seq 0 40)).
Definition large_reference : Series :=
  mkSeries int64 (map (λ n, Int (Z.of_nat n)) (seq 0 39 ++ seq 100 200)).


(** A numeric column next to one whose numbers are all equal. *)
Definition demo_flat : DataFrame :=
  [("up", mkSeries int64 [Int 1; Int 2; Int 3]);
   ("flat", mkSeries float64 [Float 5; NaN; Float 5])].

(** A table with one numeric column and no row. *)
Definition no_rows : DataFrame := [("amount", mkSeries float64 [])].

End Inputs.

(** * Checks of the definitions on small inputs *)

Example ex_digits : Regex.fullmatch Regex.re_digits "2024" = true.
Proof. reflexivity. Qed.

Example ex_digits_no : Regex.fullmatch Regex.re_digits "20a4" = false.
Proof. reflexivity. Qed.

Example ex_date : Regex.search Regex.re_date "on 2024-01-15, noon" = true.
Proof. vm_compute. reflexivity. Qed.

Example ex_date_no : Regex.search Regex.re_date "on 2024-0115, noon" = false.
Proof. vm_compute. reflexivity. Qed.

Example ex_phone : Regex.fullmatch Regex.re_phone "+1 555-0100" = true.
Proof. vm_compute. reflexivity. Qed.

Example ex_format_a : Float64.format_2f (Float64.of_Q 1) = "1.00".
Proof. vm_compute. reflexivity. Qed.

Example ex_format_b : Float64.format_2f (Float64.of_Q (2 # 3)) = "0.67".
Proof. vm_compute. reflexivity. Qed.

Example ex_format_c : Float64.format_2f (Float64.of_Q (1 # 8)) = "0.12".
Proof. vm_compute. reflexivity. Qed.

(** The float nearest to 39/40 lies below 0.975, the one nearest to 1/40
    above 0.025. *)
Example ex_format_d : Float64.format_2f (Float64.of_Q (39 # 40)) = "0.97".
Proof. vm_compute. reflexivity. Qed.

Example ex_format_e : Float64.format_2f (Float64.of_Q (1 # 40)) = "0.03".
Proof. vm_compute. reflexivity. Qed.

Example ex_format_f : Float64.format_2f (Float64.of_Q (3 # 8)) = "0.38".
Proof. vm_compute. reflexivity. Qed.

(** [0.1 + 0.2] is not [0.3], and [2**53 + 1] is no float. *)
Example ex_float_add :
  Float64.add (Float64.of_Q (1 # 10)) (Float64.of_Q (2 # 10))
  = Float64.of_Q (30000000000000004 # 100000000000000000)
  ∧ Float64.add (Float64.of_Q (1 # 10)) (Float64.of_Q (2 # 10))
    ≠ Float64.of_Q (3 # 10).
Proof. split; vm_compute; [reflexivity|discriminate]. Qed.

Example ex_float_int :
  Float64.of_Z (2 ^ 53 + 1) = Float64.Fin (inject_Z (2 ^ 53)).
Proof. vm_compute. reflexivity. Qed.

Example ex_float_overflow :
  Float64.mul (Float64.of_Q (inject_Z (10 ^ 200)))
              (Float64.of_Q (inject_Z (10 ^ 200)))
  = Float64.Inf false.
Proof. vm_compute. reflexivity. Qed.

Example ex_float_sqrt :
  Float64.sqrt (Float64.Fin 2)
  = Float64.of_Q (14142135623730951 # 10000000000000000).
Proof. vm_compute. reflexivity. Qed.

Example ex_join : Text.join ", " ["a"; "b"; "c"] = "a, b, c".
Proof. reflexivity. Qed.

Example ex_parse : Qred <$> Demo.parse "-12.50" = Some (-25 # 2).
Proof. reflexivity. Qed.

Example ex_parse_no : Demo.parse "12a" = None.
Proof. reflexivity. Qed.

Example ex_parse_inf : Demo.parse_float "-inf" = Float64.Inf true.
Proof. reflexivity. Qed.

Example ex_repr : Demo.repr (5 # 4) = "1.25".
Proof. vm_compute. reflexivity. Qed.

Example ex_choose :
  Pandas.choose 3 ["a"; "b"; "c"; "d"] [6; 0; 5] = (["c"; "a"; "d"], []).
Proof. reflexivity. Qed.
Example ex_quantile :
  Float64.linear_quantile
    [Float64.Fin 4; Float64.Fin 1; Float64.Fin 3; Float64.Fin 2] (1 # 4)
  = Float64.Fin (7 # 4).
Proof. vm_compute. reflexivity. Qed.
Example ex_quantile_floats :
  let xs := map Float64.of_Q [21 # 10; 27 # 10; 15 # 10; 21 # 10] in
  Float64.linear_quantile xs (1 # 4)
  = Float64.of_Q (19500000000000002 # 10000000000000000)
  ∧ Float64.linear_quantile xs (3 # 4) = Float64.Fin (9 # 4).
Proof. split; vm_compute; reflexivity. Qed.
Example ex_mean_floats :
  Demo.mean_floats (map Float64.of_Q [1 # 10; 1 # 10; 1 # 10])
  = Float64.of_Q (10000000000000002 # 100000000000000000).
Proof. vm_compute. reflexivity. Qed.
Example ex_nunique :
  Pandas.nunique
    (Pandas.mkSeries Pandas.object
       [Pandas.Str "a"; Pandas.PyNone; Pandas.Str "b"; Pandas.Str "a"]) = 2%Z.
Proof. reflexivity. Qed.
Example ex_mode : PblGenerator.mode [3; 1; 3; 1; 2]%nat = [1; 3]%nat.
Proof. reflexivity. Qed.
Example ex_label_mixed :
  Profiler.detect_pattern (RT := Demo.runtime)
    (Pandas.mkSeries Pandas.object [Pandas.Str "?"; Pandas.Str "#1"]) 500 [1]
  = ("mixed", []).
Proof. vm_compute. reflexivity. Qed.
Example ex_label_many :
  (Profiler.detect_pattern (RT := Demo.runtime)
     (Pandas.mkSeries Pandas.object
        [Pandas.Str "a@b.c"; Pandas.Str "2020-01-02"; Pandas.Str "abc";
         Pandas.Str "12"]) 500 [3; 1]).1
  = "alpha, date-like, email-like, numeric".
Proof. vm_compute. reflexivity. Qed.
Example ex_suggest_digits :
  PblGenerator._suggest_regex_from_sample (RT := Demo.runtime)
    [Pandas.Str "12"; Pandas.Str "7"] 100 = Some "^\d+$".
Proof. vm_compute. reflexivity. Qed.
Example ex_forest_no_rows :
  Profiler.isolation_anomaly_scores (RT := Demo.runtime) Inputs.no_rows 100
  = Raise ValueError.
Proof. reflexivity. Qed.

(** * Properties *)

(** ** Binary64 floats: rounding keeps the order and fixes the floats *)

Module Float64Facts.
Import Float64.
#[local] Open Scope Q_scope.

(** *** Powers of two *)

Lemma pow2_pos e : 0 < pow2 e.
Proof. apply Qpower_0_lt. reflexivity. Qed.

Lemma pow2_add a b : pow2 (a + b) == pow2 a * pow2 b.
Proof. apply Qpower_plus. discriminate. Qed.

Lemma pow2_le a b : (a ≤ b)%Z → pow2 a <= pow2 b.
Proof. intros H. apply Qpower_le_compat_l; [exact H|Lqa.lra]. Qed.

Lemma pow2_lt a b : (a < b)%Z → pow2 a < pow2 b.
Proof. intros H. apply Qpower_lt_compat_l; [exact H|Lqa.lra]. Qed.

Lemma pow2_lt_inv a b : pow2 a < pow2 b → (a < b)%Z.
Proof. intros H. apply (Qpower_lt_compat_l_inv 2); [exact H|Lqa.lra]. Qed.

Lemma pow2_Z e : (0 ≤ e)%Z → pow2 e == inject_Z (2 ^ e).
Proof. intros H. symmetry. exact (Zpower_Qpower 2 e H). Qed.

Lemma div_pow2 q e : q / pow2 e == q * pow2 (- e).
Proof. unfold Qdiv, pow2. by rewrite Qpower_opp. Qed.

Lemma pow2_cancel e : pow2 (- e) * pow2 e == 1.
Proof. rewrite <- pow2_add. by replace (- e + e)%Z with 0%Z by lia. Qed.

(** Integers among the rationals. *)
Ltac push_inject :=
  unfold Z.sub, Z.succ;
  repeat first [rewrite inject_Z_plus|rewrite inject_Z_opp
               |rewrite inject_Z_mult];
  change (inject_Z 1) with 1; change (inject_Z 0) with 0.

Ltac push_inject_in H :=
  unfold Z.sub, Z.succ in H;
  repeat first [rewrite inject_Z_plus in H|rewrite inject_Z_opp in H
               |rewrite inject_Z_mult in H];
  change (inject_Z 1) with 1 in H; change (inject_Z 0) with 0 in H.

(** *** Rounding to the nearest integer *)

#[local] Abbreviation rhe := Text.round_half_even.

Lemma rhe_Z z : rhe (inject_Z z) = z.
Proof.
  unfold rhe. rewrite Qfloor_Z.
  assert (H : (inject_Z z - inject_Z z ?= 1 # 2) = Lt)
    by (apply (proj1 (Qlt_alt _ _)); Lqa.lra).
  by rewrite H.
Qed.

Lemma rhe_comp x y : x == y → rhe x = rhe y.
Proof.
  intros H. unfold rhe. rewrite (Qfloor_comp x y H).
  assert (E : (x - inject_Z (Qfloor y) ?= 1 # 2)
              = (y - inject_Z (Qfloor y) ?= 1 # 2)).
  { apply Qcompare_comp; [|reflexivity]. by rewrite H. }
  by rewrite E.
Qed.

Lemma rhe_mono x y : x <= y → (rhe x ≤ rhe y)%Z.
Proof.
  intros Hxy. unfold rhe.
  pose proof (Qfloor_resp_le x y Hxy) as Hf.
  pose proof (Qfloor_le x) as Hx1. pose proof (Qlt_floor x) as Hx2.
  pose proof (Qfloor_le y) as Hy1. pose proof (Qlt_floor y) as Hy2.
  push_inject_in Hx2. push_inject_in Hy2.
  destruct (Z.eq_dec (Qfloor x) (Qfloor y)) as [E|E].
  - rewrite E in *.
    destruct (Qcompare_spec (x - inject_Z (Qfloor y)) (1 # 2)),
             (Qcompare_spec (y - inject_Z (Qfloor y)) (1 # 2));
      destruct (Z.even (Qfloor y)); first [lia|exfalso; Lqa.lra].
  - destruct (Qcompare_spec (x - inject_Z (Qfloor x)) (1 # 2)),
             (Qcompare_spec (y - inject_Z (Qfloor y)) (1 # 2));
      destruct (Z.even (Qfloor x)), (Z.even (Qfloor y)); lia.
Qed.

Lemma rhe_ge x n : inject_Z n <= x → (n ≤ rhe x)%Z.
Proof. intros H. rewrite <- (rhe_Z n). by apply rhe_mono. Qed.

Lemma rhe_le x n : x <= inject_Z n → (rhe x ≤ n)%Z.
Proof. intros H. rewrite <- (rhe_Z n). by apply rhe_mono. Qed.

Lemma rhe_opp x : rhe (- x) = (- rhe x)%Z.
Proof.
  unfold rhe.
  pose proof (Qfloor_le x) as Hx1. pose proof (Qlt_floor x) as Hx2.
  pose proof (Qfloor_le (- x)) as Hy1. pose proof (Qlt_floor (- x)) as Hy2.
  push_inject_in Hx2. push_inject_in Hy2.
  set (f := Qfloor x) in *. set (f' := Qfloor (- x)) in *.
  assert (H1 : (f' ≤ - f)%Z).
  { rewrite Zle_Qle. push_inject. Lqa.lra. }
  assert (H2 : (- f - 1 ≤ f')%Z).
  { assert (H3 : (- f - 1 < f' + 1)%Z); [|lia].
    rewrite Zlt_Qlt. push_inject. Lqa.lra. }
  destruct (Z.eq_dec f' (- f)%Z) as [E|E].
  - rewrite E in *. push_inject_in Hy1. push_inject_in Hy2. push_inject.
    assert (Ha : (x - inject_Z f ?= 1 # 2) = Lt)
      by (apply (proj1 (Qlt_alt _ _)); Lqa.lra).
    assert (Hb : (- x - - inject_Z f ?= 1 # 2) = Lt)
      by (apply (proj1 (Qlt_alt _ _)); Lqa.lra).
    by rewrite Ha, Hb.
  - assert (E' : f' = (- f - 1)%Z) by lia. rewrite E' in *.
    assert (Hev : Z.even (- f - 1) = negb (Z.even f)).
    { replace (- f - 1)%Z with (Z.pred (- f)) by lia.
      by rewrite Z.even_pred, Z.odd_opp, <- Z.negb_even. }
    rewrite Hev.
    assert (Hi : inject_Z (- f - 1) = - inject_Z f + - (1)) by (by push_inject).
    rewrite Hi in *.
    destruct (Qcompare_spec (x - inject_Z f) (1 # 2)) as [Ha|Ha|Ha].
    + assert (Hb : (- x - (- inject_Z f + - (1)) ?= 1 # 2) = Eq)
        by (apply (proj1 (Qeq_alt _ _)); Lqa.lra).
      rewrite Hb. destruct (Z.even f); simpl; lia.
    + assert (Hb : (- x - (- inject_Z f + - (1)) ?= 1 # 2) = Gt)
        by (apply (proj1 (Qgt_alt _ _)); Lqa.lra).
      rewrite Hb. lia.
    + assert (Hb : (- x - (- inject_Z f + - (1)) ?= 1 # 2) = Lt)
        by (apply (proj1 (Qlt_alt _ _)); Lqa.lra).
      rewrite Hb. lia.
Qed.

(** *** The leading bit *)

Lemma Qabs_make q :
  Qabs q * inject_Z (Zpos (Qden q)) == inject_Z (Z.abs (Qnum q)).
Proof.
  destruct q as [n d]. simpl. rewrite (Qmake_Qdiv (Z.abs n) d). field.
  discriminate.
Qed.

Lemma Qabs_opp_eq q : Qabs (- q) = Qabs q.
Proof. destruct q as [n d]. unfold Qabs, Qopp. simpl. by rewrite Z.abs_opp. Qed.

Lemma Qnum_nonzero q : ¬ q == 0 → (0 < Z.abs (Qnum q))%Z.
Proof.
  intros H. assert (Qnum q ≠ 0%Z); [|lia].
  intros E. apply H. unfold Qeq. simpl. lia.
Qed.

Lemma log2_bounds (n : Z) :
  (0 < n)%Z →
  pow2 (Z.log2 n) <= inject_Z n ∧ inject_Z n < pow2 (Z.log2 n + 1).
Proof.
  intros Hn. destruct (Z.log2_spec n Hn) as [H1 H2].
  pose proof (Z.log2_nonneg n) as H0.
  rewrite !pow2_Z by lia. rewrite <- Zle_Qle, <- Zlt_Qlt. split; [done|].
  exact H2.
Qed.

Lemma ilog2_spec q :
  ¬ q == 0 → pow2 (ilog2 q) <= Qabs q ∧ Qabs q < pow2 (ilog2 q + 1).
Proof.
  intros Hq. unfold ilog2.
  pose proof (Qabs_make q) as Hx. pose proof (Qabs_nonneg q) as Hx0.
  destruct (log2_bounds _ (Qnum_nonzero q Hq)) as [Hn1 Hn2].
  destruct (log2_bounds (Zpos (Qden q)) eq_refl) as [Hd1 Hd2].
  set (a := Z.log2 (Z.abs (Qnum q))) in *.
  set (b := Z.log2 (Zpos (Qden q))) in *.
  set (x := Qabs q) in *.
  set (N := inject_Z (Z.abs (Qnum q))) in *.
  set (D := inject_Z (Zpos (Qden q))) in *.
  assert (Hup : x < pow2 (a - b + 1)).
  { pose proof (pow2_add (a - b + 1) b) as E.
    replace (a - b + 1 + b)%Z with (a + 1)%Z in E by lia.
    pose proof (pow2_pos (a - b + 1)). pose proof (pow2_pos b).
    set (P := pow2 (a - b + 1)) in *. set (pb := pow2 b) in *.
    destruct (Qlt_le_dec x P) as [|Hle]; [done|exfalso].
    assert (P * D <= x * D) by (apply Qmult_le_compat_r; Lqa.lra).
    assert (P * pb <= P * D).
    { rewrite !(Qmult_comm P). apply Qmult_le_compat_r; Lqa.lra. }
    Lqa.lra. }
  assert (Hlow : pow2 (a - b - 1) < x).
  { pose proof (pow2_add (a - b - 1) (b + 1)) as E.
    replace (a - b - 1 + (b + 1))%Z with a in E by lia.
    pose proof (pow2_pos (a - b - 1)). pose proof (pow2_pos (b + 1)).
    pose proof (pow2_pos b).
    set (L := pow2 (a - b - 1)) in *. set (pb := pow2 (b + 1)) in *.
    destruct (Qlt_le_dec L x) as [|Hle]; [done|exfalso].
    assert (x * D <= L * D) by (apply Qmult_le_compat_r; Lqa.lra).
    assert (L * D < L * pb).
    { rewrite !(Qmult_comm L). apply Qmult_lt_compat_r; Lqa.lra. }
    Lqa.lra. }
  destruct (Qle_bool (pow2 (a - b)) x) eqn:Hc.
  - apply Qle_bool_iff in Hc. done.
  - assert (Hlt : x < pow2 (a - b)).
    { apply Qnot_le_lt. intros H. apply Qle_bool_iff in H. congruence. }
    replace (a - b - 1 + 1)%Z with (a - b)%Z by lia. split; [|done].
    by apply Qlt_le_weak.
Qed.

Lemma Qabs_nonzero q : 0 < Qabs q → ¬ q == 0.
Proof. intros H E. rewrite E in H. by apply Qlt_irrefl in H. Qed.

Lemma ilog2_unique q k :
  pow2 k <= Qabs q → Qabs q < pow2 (k + 1) → ilog2 q = k.
Proof.
  intros H1 H2. pose proof (pow2_pos k) as Hk.
  destruct (ilog2_spec q) as [H3 H4]; [apply Qabs_nonzero; Lqa.lra|].
  assert (ilog2 q < k + 1)%Z by (apply pow2_lt_inv; Lqa.lra).
  assert (k < ilog2 q + 1)%Z by (apply pow2_lt_inv; Lqa.lra).
  lia.
Qed.

Lemma ilog2_comp x y : ¬ x == 0 → x == y → ilog2 y = ilog2 x.
Proof.
  intros H E. destruct (ilog2_spec x H) as [H1 H2].
  assert (Ea : Qabs x == Qabs y) by (by apply Qabs_wd).
  apply ilog2_unique; Lqa.lra.
Qed.

Lemma ilog2_opp q : ilog2 (- q) = ilog2 q.
Proof.
  unfold ilog2. rewrite Qabs_opp_eq. destruct q as [n d]. simpl.
  by rewrite Z.abs_opp.
Qed.

Lemma ilog2_mono x y :
  ¬ x == 0 → Qabs x <= Qabs y → (ilog2 x ≤ ilog2 y)%Z.
Proof.
  intros Hx Hxy. destruct (ilog2_spec x Hx) as [H1 H2].
  pose proof (pow2_pos (ilog2 x)).
  destruct (ilog2_spec y) as [H3 H4]; [apply Qabs_nonzero; Lqa.lra|].
  assert (ilog2 x < ilog2 y + 1)%Z by (apply pow2_lt_inv; Lqa.lra).
  lia.
Qed.

Lemma ulp_exponent_comp x y :
  ¬ x == 0 → x == y → ulp_exponent y = ulp_exponent x.
Proof. intros H E. unfold ulp_exponent. by rewrite (ilog2_comp x y). Qed.

(** *** The nearest float *)

Lemma Qeq_bool_false q : ¬ q == 0 → Qeq_bool q 0 = false.
Proof.
  intros H. destruct (Qeq_bool q 0) eqn:E; [|done].
  by apply Qeq_bool_iff in E.
Qed.

Lemma nearest_zero q : q == 0 → nearest q = 0.
Proof. intros H. unfold nearest. apply Qeq_bool_iff in H. by rewrite H. Qed.

Lemma nearest_nonzero q :
  ¬ q == 0 →
  nearest q
  = inject_Z (rhe (q / pow2 (ulp_exponent q))) * pow2 (ulp_exponent q).
Proof. intros H. unfold nearest. by rewrite Qeq_bool_false. Qed.

Lemma nearest_comp x y : x == y → nearest x == nearest y.
Proof.
  intros E. destruct (Qeq_dec x 0) as [H|H].
  - rewrite !nearest_zero; [reflexivity|Lqa.lra|done].
  - rewrite !nearest_nonzero; [|intros Hy; apply H; Lqa.lra|done].
    rewrite (ulp_exponent_comp x y H E).
    rewrite (rhe_comp (y / pow2 (ulp_exponent x)) (x / pow2 (ulp_exponent x)));
      [reflexivity|]. unfold Qdiv. apply Qmult_comp; [by symmetry|reflexivity].
Qed.

Lemma nearest_opp q : nearest (- q) == - nearest q.
Proof.
  destruct (Qeq_dec q 0) as [H|H].
  - rewrite !nearest_zero; [reflexivity|done|]. rewrite H. reflexivity.
  - rewrite !nearest_nonzero; [|done|].
    2:{ intros E. apply H. Lqa.lra. }
    unfold ulp_exponent. rewrite ilog2_opp.
    set (e := Z.max (ilog2 q - 52) (-1074)).
    rewrite (rhe_comp (- q / pow2 e) (- (q / pow2 e))).
    2:{ unfold Qdiv. ring. }
    rewrite rhe_opp, inject_Z_opp. ring.
Qed.

Lemma nearest_nonneg q : 0 <= q → 0 <= nearest q.
Proof.
  intros Hq. destruct (Qeq_dec q 0) as [H|H].
  - rewrite nearest_zero; [Lqa.lra|done].
  - rewrite nearest_nonzero by done.
    pose proof (pow2_pos (ulp_exponent q)) as Hp.
    apply Qmult_le_0_compat; [|Lqa.lra].
    change 0 with (inject_Z 0). rewrite <- Zle_Qle. apply rhe_ge.
    change (inject_Z 0) with 0. rewrite div_pow2.
    apply Qmult_le_0_compat; [done|]. apply Qlt_le_weak, pow2_pos.
Qed.

(** A multiple of the last place that is a whole number of some smaller
    power of two. *)
Lemma scaled_le q e k :
  0 <= q → q <= pow2 k → (e ≤ k)%Z →
  inject_Z (rhe (q / pow2 e)) * pow2 e <= pow2 k.
Proof.
  intros Hq Hk He.
  pose proof (pow2_pos e) as Hp.
  assert (E : pow2 k == inject_Z (2 ^ (k - e)) * pow2 e).
  { rewrite <- pow2_Z by lia. rewrite <- pow2_add. by replace (k - e + e)%Z with k by lia. }
  rewrite E. apply Qmult_le_compat_r; [|Lqa.lra].
  rewrite <- Zle_Qle. apply rhe_le. rewrite <- pow2_Z by lia.
  rewrite div_pow2.
  assert (E2 : pow2 (k - e) == pow2 k * pow2 (- e)).
  { rewrite <- pow2_add. by replace (k + - e)%Z with (k - e)%Z by lia. }
  rewrite E2. apply Qmult_le_compat_r; [done|]. apply Qlt_le_weak, pow2_pos.
Qed.

Lemma scaled_ge q e k :
  pow2 k <= q → (e ≤ k)%Z →
  pow2 k <= inject_Z (rhe (q / pow2 e)) * pow2 e.
Proof.
  intros Hk He.
  pose proof (pow2_pos e) as Hp.
  assert (E : pow2 k == inject_Z (2 ^ (k - e)) * pow2 e).
  { rewrite <- pow2_Z by lia. rewrite <- pow2_add. by replace (k - e + e)%Z with k by lia. }
  rewrite E. apply Qmult_le_compat_r; [|Lqa.lra].
  rewrite <- Zle_Qle. apply rhe_ge. rewrite <- pow2_Z by lia.
  rewrite div_pow2.
  assert (E2 : pow2 (k - e) == pow2 k * pow2 (- e)).
  { rewrite <- pow2_add. by replace (k + - e)%Z with (k - e)%Z by lia. }
  rewrite E2. apply Qmult_le_compat_r; [done|]. apply Qlt_le_weak, pow2_pos.
Qed.

Lemma nearest_mono_pos x y : 0 < x → x <= y → nearest x <= nearest y.
Proof.
  intros Hx Hxy.
  assert (Hx0 : ¬ x == 0) by (intros E; Lqa.lra).
  assert (Hy0 : ¬ y == 0) by (intros E; Lqa.lra).
  rewrite !nearest_nonzero by done.
  destruct (ilog2_spec x Hx0) as [Hx1 Hx2].
  destruct (ilog2_spec y Hy0) as [Hy1 Hy2].
  rewrite Qabs_pos in Hx1, Hx2, Hy1, Hy2 by Lqa.lra.
  assert (Hk : (ilog2 x ≤ ilog2 y)%Z).
  { apply ilog2_mono; [done|]. rewrite !Qabs_pos by Lqa.lra. done. }
  unfold ulp_exponent.
  set (kx := ilog2 x) in *. set (ky := ilog2 y) in *.
  destruct (Z.eq_dec (Z.max (kx - 52) (-1074)) (Z.max (ky - 52) (-1074)))
    as [E|E].
  - rewrite E. set (e := Z.max (ky - 52) (-1074)).
    pose proof (pow2_pos e). pose proof (pow2_pos (- e)).
    apply Qmult_le_compat_r; [|Lqa.lra].
    rewrite <- Zle_Qle. apply rhe_mono. rewrite !div_pow2.
    apply Qmult_le_compat_r; Lqa.lra.
  - assert (Hlt : (kx < ky)%Z) by lia.
    assert (Hey : Z.max (ky - 52) (-1074) = (ky - 52)%Z) by lia.
    rewrite Hey.
    apply (Qle_trans _ (pow2 ky)).
    + apply scaled_le; [Lqa.lra| |lia].
      pose proof (pow2_le (kx + 1) ky ltac:(lia)). Lqa.lra.
    + apply scaled_ge; [done|lia].
Qed.

Lemma nearest_mono x y : x <= y → nearest x <= nearest y.
Proof.
  intros Hxy.
  destruct (Qlt_le_dec 0 x) as [Hx|Hx]; [by apply nearest_mono_pos|].
  destruct (Qlt_le_dec y 0) as [Hy|Hy].
  - assert (H : nearest (- y) <= nearest (- x))
      by (apply nearest_mono_pos; Lqa.lra).
    rewrite !nearest_opp in H. Lqa.lra.
  - pose proof (nearest_nonneg y Hy).
    assert (H1 : 0 <= nearest (- x)) by (apply nearest_nonneg; Lqa.lra).
    rewrite nearest_opp in H1. Lqa.lra.
Qed.

Lemma nearest_of_multiple v z :
  ¬ v == 0 → v == inject_Z z * pow2 (ulp_exponent v) → nearest v == v.
Proof.
  intros Hv E. rewrite nearest_nonzero by done.
  set (e := ulp_exponent v) in *.
  rewrite (rhe_comp (v / pow2 e) (inject_Z z)); [by rewrite rhe_Z, <- E|].
  rewrite div_pow2, E, <- Qmult_assoc, (Qmult_comm (pow2 e)), pow2_cancel.
  ring.
Qed.

Lemma nearest_idem_pos q : 0 < q → nearest (nearest q) == nearest q.
Proof.
  intros Hq.
  assert (Hq0 : ¬ q == 0) by (intros E; Lqa.lra).
  pose proof (nearest_nonneg q ltac:(Lqa.lra)) as Hv0.
  rewrite (nearest_nonzero q Hq0) in Hv0 |- *.
  destruct (ilog2_spec q Hq0) as [Hk1 Hk2].
  rewrite Qabs_pos in Hk1, Hk2 by Lqa.lra.
  set (e := ulp_exponent q) in *.
  assert (He : (ilog2 q - 52 ≤ e)%Z ∧ (-1074 ≤ e)%Z)
    by (unfold e, ulp_exponent; lia).
  set (m := rhe (q / pow2 e)) in *.
  set (v := inject_Z m * pow2 e) in *.
  destruct (Qeq_dec v 0) as [Hz|Hz].
  { rewrite (nearest_zero v Hz). by symmetry. }
  assert (Hv : 0 < v) by (destruct (Qlt_le_dec 0 v); [done|]; exfalso; apply Hz; Lqa.lra).
  assert (Hup : v <= pow2 (e + 53)).
  { apply scaled_le; [Lqa.lra| |lia].
    pose proof (pow2_le (ilog2 q + 1) (e + 53) ltac:(lia)). Lqa.lra. }
  destruct (ilog2_spec v Hz) as [Hv1 Hv2].
  rewrite Qabs_pos in Hv1, Hv2 by Lqa.lra.
  assert (Hk' : (ilog2 v ≤ e + 53)%Z).
  { destruct (Z_le_gt_dec (ilog2 v) (e + 53)) as [|Hgt]; [done|exfalso].
    pose proof (pow2_lt (e + 53) (ilog2 v) ltac:(lia)). Lqa.lra. }
  destruct (Z_le_gt_dec (ulp_exponent v) e) as [Hle|Hgt].
  - apply (nearest_of_multiple v (m * 2 ^ (e - ulp_exponent v))); [done|].
    rewrite inject_Z_mult, <- pow2_Z by lia.
    rewrite <- Qmult_assoc, <- pow2_add.
    by replace (e - ulp_exponent v + ulp_exponent v)%Z with e by lia.
  - assert (Ee : ulp_exponent v = (e + 1)%Z)
      by (unfold ulp_exponent in *; lia).
    assert (Ek : ilog2 v = (e + 53)%Z) by (unfold ulp_exponent in *; lia).
    apply (nearest_of_multiple v (2 ^ 52)); [done|].
    rewrite Ee, <- pow2_Z by lia. rewrite <- pow2_add.
    replace (52 + (e + 1))%Z with (e + 53)%Z by lia.
    rewrite Ek in Hv1. Lqa.lra.
Qed.

Lemma nearest_idem q : nearest (nearest q) == nearest q.
Proof.
  destruct (Qlt_le_dec 0 q) as [Hq|Hq]; [by apply nearest_idem_pos|].
  destruct (Qeq_dec q 0) as [Hz|Hz].
  { rewrite (nearest_zero q Hz). by rewrite nearest_zero. }
  assert (Hn : 0 < - q).
  { destruct (Qlt_le_dec 0 (- q)); [done|]. exfalso. apply Hz. Lqa.lra. }
  pose proof (nearest_idem_pos (- q) Hn) as H.
  pose proof (nearest_opp q) as Ho.
  assert (E : nearest q == - nearest (- q)) by Lqa.lra.
  rewrite (nearest_comp _ _ E), nearest_opp, H. Lqa.lra.
Qed.

(** *** Rounding *)

Lemma Qle_bool_comp a a' b b' :
  a == a' → b == b' → Qle_bool a b = Qle_bool a' b'.
Proof.
  intros Ea Eb. destruct (Qle_bool a b) eqn:H1, (Qle_bool a' b') eqn:H2;
    try done.
  - apply Qle_bool_iff in H1.
    assert (H3 : Qle_bool a' b' = true) by (apply Qle_bool_iff; Lqa.lra).
    congruence.
  - apply Qle_bool_iff in H2.
    assert (H3 : Qle_bool a b = true) by (apply Qle_bool_iff; Lqa.lra).
    congruence.
Qed.

Lemma Qle_bool_false a b : Qle_bool a b = false ↔ b < a.
Proof.
  split.
  - intros H. apply Qnot_le_lt. intros Hle. apply Qle_bool_iff in Hle.
    congruence.
  - intros H. destruct (Qle_bool a b) eqn:E; [|done].
    apply Qle_bool_iff in E. Lqa.lra.
Qed.

Lemma of_Q_comp x y : x == y → of_Q x = of_Q y.
Proof.
  intros E. unfold of_Q. pose proof (nearest_comp x y E) as En.
  rewrite (Qle_bool_comp (pow2 1024) (pow2 1024) (Qabs (nearest x))
             (Qabs (nearest y))); [|reflexivity|by apply Qabs_wd].
  rewrite (Qle_bool_comp 0 0 x y); [|reflexivity|done].
  by rewrite (Qred_complete _ _ En).
Qed.

Lemma of_Q_not_nan q : of_Q q ≠ Nan.
Proof. unfold of_Q. by destruct (Qle_bool _ _). Qed.

(** A float is a fixed point of the rounding. *)
Lemma of_Q_idem q v : of_Q q = Fin v → of_Q v = Fin v.
Proof.
  unfold of_Q at 1.
  destruct (Qle_bool (pow2 1024) (Qabs (nearest q))) eqn:Hov; [done|].
  intros [= <-]. rewrite (of_Q_comp _ _ (Qred_correct (nearest q))).
  unfold of_Q. pose proof (nearest_idem q) as E.
  rewrite (Qle_bool_comp (pow2 1024) (pow2 1024) (Qabs (nearest (nearest q)))
             (Qabs (nearest q))); [|reflexivity|by apply Qabs_wd].
  by rewrite Hov, (Qred_complete _ _ E).
Qed.

(** Rounding keeps the order. *)
Lemma of_Q_mono x y : x <= y → leb (of_Q x) (of_Q y) = true.
Proof.
  intros Hxy. pose proof (nearest_mono x y Hxy) as Hn.
  pose proof (pow2_pos 1024) as Hp.
  unfold of_Q.
  destruct (Qle_bool (pow2 1024) (Qabs (nearest x))) eqn:Hx,
           (Qle_bool (pow2 1024) (Qabs (nearest y))) eqn:Hy; simpl.
  - destruct (Qle_bool 0 x) eqn:Hsx; simpl; [|done].
    apply Qle_bool_iff in Hsx.
    assert (Hsy : Qle_bool 0 y = true) by (apply Qle_bool_iff; Lqa.lra).
    by rewrite Hsy.
  - destruct (Qle_bool 0 x) eqn:Hsx; simpl; [|done]. exfalso.
    apply Qle_bool_iff in Hsx, Hx. apply Qle_bool_false in Hy.
    pose proof (nearest_nonneg x Hsx).
    rewrite Qabs_pos in Hx by done.
    rewrite Qabs_pos in Hy by Lqa.lra. Lqa.lra.
  - destruct (Qle_bool 0 y) eqn:Hsy; simpl; [done|]. exfalso.
    apply Qle_bool_false in Hsy, Hx. apply Qle_bool_iff in Hy.
    assert (H1 : 0 <= nearest (- y)) by (apply nearest_nonneg; Lqa.lra).
    rewrite nearest_opp in H1.
    rewrite Qabs_neg in Hy by Lqa.lra.
    rewrite Qabs_neg in Hx by Lqa.lra. Lqa.lra.
  - apply Qle_bool_iff. by rewrite Qred_le.
Qed.

Lemma of_Q_nonneg q :
  0 <= q → of_Q q = Inf false ∨ ∃ v, of_Q q = Fin v ∧ 0 <= v.
Proof.
  intros Hq. unfold of_Q.
  assert (Hs : Qle_bool 0 q = true) by (by apply Qle_bool_iff).
  rewrite Hs. destruct (Qle_bool (pow2 1024) _); simpl; [by left|right].
  eexists. split; [done|]. rewrite Qred_correct. by apply nearest_nonneg.
Qed.

(** *** The order of the floats *)

Ltac float_order :=
  repeat match goal with
         | H : Qle_bool _ _ = true |- _ => apply Qle_bool_iff in H
         | H : Qle_bool _ _ = false |- _ => apply Qle_bool_false in H
         | H : negb _ = true |- _ => apply negb_true_iff in H
         | H : negb _ = false |- _ => apply negb_false_iff in H
         | |- negb _ = true => apply negb_true_iff
         | |- negb _ = false => apply negb_false_iff
         | |- Qle_bool _ _ = true => apply Qle_bool_iff
         | |- Qle_bool _ _ = false => apply Qle_bool_false
         end;
  first [done|Lqa.lra].

Lemma ltb_leb_trans x y z :
  ltb x y = true → leb y z = true → ltb x z = true.
Proof.
  destruct x as [|[]|a], y as [|[]|b], z as [|[]|c]; simpl; intros; float_order.
Qed.

Lemma leb_ltb_trans x y z :
  leb x y = true → ltb y z = true → ltb x z = true.
Proof.
  destruct x as [|[]|a], y as [|[]|b], z as [|[]|c]; simpl; intros; float_order.
Qed.

Lemma leb_trans x y z :
  leb x y = true → leb y z = true → leb x z = true.
Proof.
  destruct x as [|[]|a], y as [|[]|b], z as [|[]|c]; simpl; intros; float_order.
Qed.

Lemma leb_refl x : x ≠ Nan → leb x x = true.
Proof. destruct x as [|[]|a]; simpl; intros; float_order. Qed.

Lemma ltb_total x y :
  x ≠ Nan → y ≠ Nan → ltb x y = false → leb y x = true.
Proof.
  destruct x as [|[]|a], y as [|[]|b]; simpl; intros; float_order.
Qed.

Lemma leb_false x y :
  x ≠ Nan → y ≠ Nan → leb x y = false → ltb y x = true.
Proof.
  destruct x as [|[]|a], y as [|[]|b]; simpl; intros; float_order.
Qed.

Lemma ltb_leb x y : ltb x y = true → leb x y = true.
Proof.
  destruct x as [|[]|a], y as [|[]|b]; simpl; intros; float_order.
Qed.

(** *** [float(x)] *)

Lemma normalize_not_nan x : x ≠ Nan → normalize x ≠ Nan.
Proof. destruct x; simpl; [done|done|]. intros _. apply of_Q_not_nan. Qed.

Lemma normalize_idem x : normalize (normalize x) = normalize x.
Proof.
  destruct x as [| |q]; simpl; [done|done|].
  destruct (of_Q q) as [| |v] eqn:E; simpl; [done|done|].
  by apply (of_Q_idem q).
Qed.

Lemma normalize_mono x y :
  leb x y = true → leb (normalize x) (normalize y) = true.
Proof.
  destruct x as [|[]|a], y as [|[]|b]; simpl; try done.
  - intros _. pose proof (of_Q_not_nan b). by destruct (of_Q b) as [|[]|].
  - intros _. pose proof (of_Q_not_nan a). by destruct (of_Q a) as [|[]|].
  - intros H. apply of_Q_mono. by apply Qle_bool_iff.
Qed.

(** *** Arithmetic around a float *)

Lemma sub_self c : sub (Fin c) (Fin c) = Fin 0.
Proof.
  unfold sub. simpl. rewrite (of_Q_comp (c + - c) 0); [done|]. ring.
Qed.

Lemma mul_zero_r a : mul (Fin a) (Fin 0) = Fin 0.
Proof. simpl. rewrite (of_Q_comp (a * 0) 0); [done|]. ring. Qed.

Lemma sub_zero_r c : of_Q c = Fin c → sub (Fin c) (Fin 0) = Fin c.
Proof.
  intros H. unfold sub. simpl. rewrite (of_Q_comp (c + - 0) c); [done|]. ring.
Qed.

Lemma add_zero_r c : of_Q c = Fin c → add (Fin c) (Fin 0) = Fin c.
Proof.
  intros H. simpl. rewrite (of_Q_comp (c + 0) c); [done|]. ring.
Qed.

(** A quartile that is not a number leaves no fence. *)
Lemma nan_fences q1 q3 :
  q1 = Nan ∨ q3 = Nan →
  let w := mul (Fin (3 # 2)) (sub q3 q1) in
  sub q1 w = Nan ∧ add q3 w = Nan.
Proof.
  intros [-> | ->]; simpl.
  - by destruct q3 as [|[]|].
  - by destruct q1 as [|[]|].
Qed.

(** The fences of the interquartile rule lie outside the quartiles:
    [q1 - 1.5 * (q3 - q1)] is at most [q1], and [q3 + 1.5 * (q3 - q1)] at
    least [q3], whenever they are numbers. *)
Lemma scaled_range_nonneg q1 q3 :
  normalize q1 = q1 → normalize q3 = q3 → leb q1 q3 = true →
  let w := mul (Fin (3 # 2)) (sub q3 q1) in
  w = Nan ∨ w = Inf false ∨ ∃ v, w = Fin v ∧ 0 <= v.
Proof.
  intros H1 H3 Hle.
  destruct q1 as [|[]|a], q3 as [|[]|b]; simpl in *; try done; auto.
  apply Qle_bool_iff in Hle.
  destruct (of_Q_nonneg (b + - a) ltac:(Lqa.lra)) as [->|(d & -> & Hd)];
    simpl; [auto|].
  destruct (of_Q_nonneg ((3 # 2) * d) ltac:(Lqa.lra)) as [->|(v & -> & Hv)];
    eauto.
Qed.

Lemma lower_fence q1 q3 :
  normalize q1 = q1 → normalize q3 = q3 → leb q1 q3 = true →
  let lower := sub q1 (mul (Fin (3 # 2)) (sub q3 q1)) in
  lower = Nan ∨ leb lower q1 = true.
Proof.
  intros H1 H3 Hle.
  destruct (scaled_range_nonneg q1 q3 H1 H3 Hle) as [Hw|[Hw|(v & Hw & Hv)]];
    simpl in *; rewrite Hw.
  - left. by destruct q1 as [|[]|].
  - destruct q1 as [|[]|a]; simpl; auto.
  - destruct q1 as [|[]|a]; simpl in *; auto. right.
    rewrite <- H1. apply of_Q_mono. Lqa.lra.
Qed.

Lemma upper_fence q1 q3 :
  normalize q1 = q1 → normalize q3 = q3 → leb q1 q3 = true →
  let upper := add q3 (mul (Fin (3 # 2)) (sub q3 q1)) in
  upper = Nan ∨ leb q3 upper = true.
Proof.
  intros H1 H3 Hle.
  destruct (scaled_range_nonneg q1 q3 H1 H3 Hle) as [Hw|[Hw|(v & Hw & Hv)]];
    simpl in *; rewrite Hw.
  - left. by destruct q3 as [|[]|].
  - destruct q3 as [|[]|b]; simpl; auto.
  - destruct q3 as [|[]|b]; simpl in *; auto. right.
    pose proof (of_Q_mono b (b + v) ltac:(Lqa.lra)) as H.
    by rewrite H3 in H.
Qed.

(** *** Linear interpolation between equal numbers *)

Lemma of_Q_unit g :
  0 <= g → g <= 1 → ∃ v, of_Q g = Fin v.
Proof.
  intros H0 H1. unfold of_Q.
  pose proof (nearest_nonneg g H0) as Hn0.
  pose proof (nearest_mono g 1 H1) as Hn1.
  assert (E1 : nearest 1 == 1) by (vm_compute; reflexivity).
  assert (Hbig : 1 < pow2 1024) by (vm_compute; reflexivity).
  assert (Hov : Qle_bool (pow2 1024) (Qabs (nearest g)) = false).
  { apply Qle_bool_false. rewrite Qabs_pos by done. Lqa.lra. }
  rewrite Hov. eauto.
Qed.

Lemma mul_zero_l v : mul (Fin 0) (Fin v) = Fin 0.
Proof. simpl. rewrite (of_Q_comp (0 * v) 0); [done|]. ring. Qed.

Lemma lerp_same q g :
  0 <= g → g <= 1 → lerp (Fin q) (Fin q) g = of_Q q.
Proof.
  intros H0 H1. unfold lerp. rewrite sub_self.
  destruct (of_Q_unit g H0 H1) as [v ->].
  destruct (of_Q_unit (1 - g) ltac:(Lqa.lra) ltac:(Lqa.lra)) as [w ->].
  rewrite !mul_zero_l. cbn [normalize].
  destruct (of_Q q) as [|s|c] eqn:E.
  - by destruct (of_Q_not_nan q).
  - by destruct (Qle_bool (1 # 2) g).
  - pose proof (of_Q_idem q c E) as Hc.
    rewrite (sub_zero_r c Hc), (add_zero_r c Hc).
    by destruct (Qle_bool (1 # 2) g).
Qed.

Lemma nth_constant {A} (l : list A) (x d : A) i :
  Forall (λ y, y = x) l → d = x → nth i l d = x.
Proof.
  intros Hall ->. destruct (nth_in_or_default i l x) as [Hin|E]; [|done].
  rewrite List.Forall_forall in Hall. by apply Hall.
Qed.

(** The quantiles of a column whose numbers are all [q]. *)
Lemma linear_quantile_constant xs q p :
  xs ≠ [] → Forall (λ x, x = Fin q) xs → linear_quantile xs p = of_Q q.
Proof.
  intros Hne Hall. unfold linear_quantile.
  assert (Hs : Forall (λ x, x = Fin q) (sort xs)).
  { unfold sort. by rewrite merge_sort_Permutation. }
  assert (Hlen : length (sort xs) = length xs).
  { unfold sort. by rewrite merge_sort_Permutation. }
  destruct (sort xs) as [|x0 l] eqn:Hsort.
  { destruct xs; [done|discriminate]. }
  pose proof (Forall_inv Hs) as Hx0. simpl in Hx0.
  set (h := inject_Z (Z.of_nat (length xs) - 1) * p).
  rewrite (nth_constant (x0 :: l) (Fin q) x0 _ Hs Hx0).
  rewrite (nth_constant (x0 :: l) (Fin q) (Fin q) _ Hs eq_refl).
  pose proof (Qfloor_le h). pose proof (Qlt_floor h) as Hf.
  rewrite inject_Z_plus in Hf. change (inject_Z 1) with 1 in Hf.
  apply lerp_same; Lqa.lra.
Qed.

End Float64Facts.

(** ** The matcher agrees with the denotation of patterns *)

Module RegexFacts.
Import Regex.
#[local] Open Scope list_scope.

Create HintDb re.
#[local] Hint Constructors matches : re.

Lemma nullable_matches r : nullable r = true ↔ matches r [].
Proof.
  split.
  - induction r; simpl; intros H; try discriminate; eauto with re.
    + apply andb_prop in H as [H1 H2].
      change (@nil ascii) with (@nil ascii ++ []). eauto with re.
    + apply orb_prop in H as [H|H]; eauto with re.
  - intros H. remember [] as w eqn:Hw.
    induction H; simpl; try discriminate; auto.
    + apply app_eq_nil in Hw as [-> ->]. rewrite IHmatches1, IHmatches2; auto.
    + rewrite IHmatches; auto.
    + rewrite IHmatches; auto using orb_true_r.
Qed.

Lemma matches_cat_inv r1 r2 w :
  matches (Cat r1 r2) w →
  ∃ w1 w2, w = w1 ++ w2 ∧ matches r1 w1 ∧ matches r2 w2.
Proof. inversion 1; subst; eauto. Qed.

Lemma matches_class_inv p w :
  matches (Class p) w → ∃ c, w = [c] ∧ p c = true.
Proof. inversion 1; subst; eauto. Qed.

(** A match of [Star r] on a word that starts with [c] starts with a
    non-empty match of [r]. *)
Lemma matches_star_cons r c w :
  matches (Star r) (c :: w) →
  ∃ w1 w2, w = w1 ++ w2 ∧ matches r (c :: w1) ∧ matches (Star r) w2.
Proof.
  intros H. remember (Star r) as r' eqn:Hr. remember (c :: w) as cw eqn:Hw.
  revert w Hw.
  induction H; intros w' Hw; try discriminate.
  injection Hr as ->.
  destruct w1 as [|c1 w1]; simpl in Hw.
  - apply IHmatches2; auto.
  - injection Hw as -> <-. eauto.
Qed.

Lemma deriv_matches c r w : matches (deriv c r) w ↔ matches r (c :: w).
Proof.
  revert w. induction r; intros w; simpl.
  - split; inversion 1.
  - split; inversion 1.
  - destruct (p c) eqn:Hp; split; intros H; inversion H; subst; eauto with re.
    congruence.
  - assert (Hcat : matches (Cat (deriv c r1) r2) w →
                   matches (Cat r1 r2) (c :: w)).
    { intros H. inversion H; subst.
      change (c :: w1 ++ w2) with ((c :: w1) ++ w2).
      constructor; auto. apply IHr1; auto. }
    assert (Hinv : matches (Cat r1 r2) (c :: w) →
                   matches (Cat (deriv c r1) r2) w
                   ∨ (matches r1 [] ∧ matches (deriv c r2) w)).
    { intros H. apply matches_cat_inv in H as (w1 & w2 & Heq & H1 & H2).
      destruct w1 as [|c1 w1]; simpl in Heq; subst.
      - right. split; auto. apply IHr2; auto.
      - injection Heq as -> ->. left. constructor; auto. apply IHr1; auto. }
    destruct (nullable r1) eqn:Hn.
    + split; intros H.
      * inversion H; subst; auto.
        change (c :: w) with ([] ++ c :: w).
        constructor; [apply nullable_matches; auto | apply IHr2; auto].
      * destruct (Hinv H) as [?|[_ ?]]; eauto with re.
    + split; auto. intros H.
      destruct (Hinv H) as [?|[Hnil _]]; auto.
      apply nullable_matches in Hnil. congruence.
  - split; intros H; inversion H; subst.
    + apply M_alt_l, IHr1; auto.
    + apply M_alt_r, IHr2; auto.
    + apply M_alt_l, IHr1; auto.
    + apply M_alt_r, IHr2; auto.
  - split; intros H.
    + inversion H; subst.
      change (c :: w1 ++ w2) with ((c :: w1) ++ w2).
      constructor; auto. apply IHr; auto.
    + apply matches_star_cons in H as (w1 & w2 & -> & H1 & H2).
      constructor; auto. apply IHr; auto.
Qed.

Lemma matchl_matches r w : matchl r w = true ↔ matches r w.
Proof.
  revert r. induction w as [|c w IH]; intros r; simpl.
  - apply nullable_matches.
  - rewrite IH. apply deriv_matches.
Qed.

Lemma matches_alphabet r w :
  matches r w → Forall (λ c, alphabet r c = true) w.
Proof.
  induction 1; simpl; auto.
  - apply Forall_app; split;
      (eapply Forall_impl; [eassumption|]); simpl; intros ? ->;
      auto using orb_true_r.
  - eapply Forall_impl; [eassumption|]; simpl; intros ? ->; auto.
  - eapply Forall_impl; [eassumption|]; simpl; intros ? ->;
      auto using orb_true_r.
  - apply Forall_app; auto.
Qed.

(** A string fully matched by [p+] is non-empty and made of [p] only, and
    conversely. *)
Lemma fullmatch_plus_class p s :
  fullmatch (plus (Class p)) s = true
  ↔ chars s ≠ [] ∧ Forall (λ c, p c = true) (chars s).
Proof.
  unfold fullmatch. generalize (chars s) as w. intros w. split.
  - intros H. split.
    + intros ->. discriminate.
    + apply matchl_matches, matches_alphabet in H.
      eapply Forall_impl; [eassumption|]. simpl. intros c Hc.
      apply orb_prop in Hc as []; auto.
  - intros [Hne Hall]. apply matchl_matches.
    destruct w as [|c w]; [congruence|]. clear Hne.
    revert c Hall. induction w as [|c' w IH]; intros c Hall.
    + apply Forall_cons in Hall as [Hc _].
      change [c] with ([c] ++ []). constructor; constructor; auto.
    + apply Forall_cons in Hall as [Hc Hall].
      specialize (IH c' Hall).
      apply matches_cat_inv in IH as (w1 & w2 & Heq & H1 & H2).
      change (c :: c' :: w) with ([c] ++ (c' :: w)). rewrite Heq.
      constructor; [constructor; auto|].
      constructor; auto.
Qed.

(** [search] finds a matching substring. *)
Lemma search_matches r s :
  search r s = true ↔ ∃ w1 w2 w3, chars s = w1 ++ w2 ++ w3 ∧ matches r w2.
Proof.
  unfold search, fullmatch. rewrite matchl_matches. split.
  - intros H. apply matches_cat_inv in H as (w1 & w23 & -> & _ & H).
    apply matches_cat_inv in H as (w2 & w3 & -> & H & _). eauto.
  - intros (w1 & w2 & w3 & -> & H).
    assert (Hany : ∀ w, matches (Star any) w).
    { induction w as [|c w IH]; [constructor|].
      change (c :: w) with ([c] ++ w). constructor; auto. constructor; auto. }
    constructor; auto. constructor; auto.
Qed.

Lemma digit_not_alpha c :
  Text.is_digit c = true → Text.is_alpha_space c = false.
Proof. destruct c as [[] [] [] [] [] [] [] []]; vm_compute; congruence. Qed.

Lemma digit_not_at c :
  Text.is_digit c = true → Text.is_char "@" c = false.
Proof. destruct c as [[] [] [] [] [] [] [] []]; vm_compute; congruence. Qed.

Lemma digit_not_sep c :
  Text.is_digit c = true →
  Text.is_char "-" c || Text.is_char "/" c = false.
Proof. destruct c as [[] [] [] [] [] [] [] []]; vm_compute; congruence. Qed.

(** A string of digits falls in the category "numeric" and in no other. *)
Lemma digits_only_numeric v :
  fullmatch re_digits v = true →
  fullmatch re_alpha v = false ∧ search re_at v = false
  ∧ search re_date v = false.
Proof.
  intros H. apply fullmatch_plus_class in H as [Hne Hall].
  rewrite Forall_forall in Hall.
  split; [|split]; apply not_true_is_false.
  - intros Ha. apply fullmatch_plus_class in Ha as [_ Ha].
    destruct (chars v) as [|c w]; [congruence|].
    apply Forall_cons in Ha as [Ha _].
    rewrite digit_not_alpha in Ha; [discriminate|].
    apply Hall. left.
  - intros Ha. apply search_matches in Ha as (w1 & w2 & w3 & Heq & Hm).
    apply matches_class_inv in Hm as (c & -> & Hc).
    rewrite digit_not_at in Hc; [discriminate|].
    apply Hall. rewrite Heq. set_solver.
  - intros Ha. apply search_matches in Ha as (w1 & w2 & w3 & Heq & Hm).
    unfold re_date in Hm.
    apply matches_cat_inv in Hm as (wa & wb & -> & _ & Hm).
    apply matches_cat_inv in Hm as (wc & wd & -> & Hm & _).
    apply matches_class_inv in Hm as (c & -> & Hsep).
    rewrite digit_not_sep in Hsep; [discriminate|].
    apply Hall. rewrite Heq. set_solver.
Qed.

End RegexFacts.

(** ** Facts about the pandas operations *)

Module PandasFacts.
Import Pandas.
#[local] Open Scope list_scope.

Lemma filter_split_length {A} (f : A → bool) (l : list A) :
  (length (List.filter f l) + length (List.filter (λ x, negb (f x)) l)
   = length l)%nat.
Proof. induction l as [|x l IH]; simpl; [done|]. destruct (f x); simpl; lia. Qed.

(** Missing and present cells partition a column. *)
Lemma isna_sum_count s : (isna_sum s + count s = len s)%Z.
Proof.
  unfold isna_sum, count, len, notna_cell.
  rewrite <- (filter_split_length isna_cell (values s)). lia.
Qed.

Lemma count_dropna s : count s = len (dropna s).
Proof. reflexivity. Qed.

Lemma filter_notna_all_missing l :
  Forall (λ c, isna_cell c = true) l → List.filter notna_cell l = [].
Proof.
  induction 1 as [|c l Hc _ IH]; simpl; [done|].
  unfold notna_cell at 1. rewrite Hc. done.
Qed.

Lemma filter_isna_all_missing l :
  Forall (λ c, isna_cell c = true) l → List.filter isna_cell l = l.
Proof.
  induction 1 as [|c l Hc _ IH]; simpl; [done|]. rewrite Hc, IH. done.
Qed.

Lemma filter_notna_idemp l :
  List.filter notna_cell (List.filter notna_cell l) = List.filter notna_cell l.
Proof.
  induction l as [|c l IH]; simpl; [done|].
  destruct (notna_cell c) eqn:Hc; simpl; [rewrite Hc, IH|]; done.
Qed.

Lemma distinct_length_le l : (length (distinct l) ≤ length l)%nat.
Proof.
  induction l as [|x l IH]; simpl; [lia|].
  pose proof (filter_split_length (λ y, negb (cell_eqb x y)) (distinct l)) as H.
  simpl in H. lia.
Qed.

Lemma nunique_le_count s : (0 ≤ nunique s ≤ count s)%Z.
Proof.
  unfold nunique, count, dropna. simpl.
  pose proof (distinct_length_le (List.filter notna_cell (values s))). lia.
Qed.

(** *** Sampling *)

Lemma choose_submseteq {A} k (l : list A) g : (choose k l g).1 ⊆+ l.
Proof.
  revert l g. induction k as [|k IH]; intros l g; simpl.
  - apply submseteq_nil_l.
  - destruct (draw (length l) g) as [i g1].
    destruct (l !! i) as [x|] eqn:Hi; simpl; [|apply submseteq_nil_l].
    specialize (IH (delete i l) g1).
    destruct (choose k (delete i l) g1) as [xs g2]. simpl in *.
    rewrite (delete_Permutation l i x Hi).
    by apply submseteq_skip.
Qed.

Lemma draw_lt n g : (0 < n)%nat → ((draw n g).1 < n)%nat.
Proof.
  intros Hn. destruct g as [|c g]; simpl; [done|].
  apply Nat.mod_upper_bound. lia.
Qed.

Lemma choose_length {A} k (l : list A) g :
  length (choose k l g).1 = Nat.min k (length l).
Proof.
  revert l g. induction k as [|k IH]; intros l g; simpl; [done|].
  destruct l as [|y l].
  { by destruct g. }
  pose proof (draw_lt (length (y :: l)) g ltac:(simpl; lia)) as Hlt.
  destruct (draw (length (y :: l)) g) as [i g1]. simpl in Hlt.
  destruct ((y :: l) !! i) as [x|] eqn:Hi.
  - specialize (IH (delete i (y :: l)) g1).
    destruct (choose k (delete i (y :: l)) g1) as [xs g2]. simpl in *.
    rewrite IH, length_delete; [|eauto]. simpl. lia.
  - apply lookup_ge_None in Hi. simpl in Hi. lia.
Qed.

(** A sample as large as the column is the column in another order. *)
Lemma choose_all_Permutation {A} k (l : list A) g :
  (length l ≤ k)%nat → (choose k l g).1 ≡ₚ l.
Proof.
  intros Hk. apply submseteq_length_Permutation.
  - apply choose_submseteq.
  - rewrite choose_length. lia.
Qed.

Lemma sample_values n s g :
  values (sample n s g).1 = (choose n (values s) g).1.
Proof. unfold sample. by destruct (choose n (values s) g). Qed.

Lemma sample_elem_of n s g c :
  c ∈ values (sample n s g).1 → c ∈ values s.
Proof.
  rewrite sample_values. intros Hc.
  eapply elem_of_submseteq; [exact Hc|apply choose_submseteq].
Qed.

Lemma sample_length n s g :
  length (values (sample n s g).1) = Nat.min n (length (values s)).
Proof. rewrite sample_values. apply choose_length. Qed.

(** *** Division guarded by [max(1, _)] *)

Lemma truediv_max1 a b :
  truediv a (Z.max 1 b) = Ok (inject_Z a / inject_Z (Z.max 1 b))%Q.
Proof.
  unfold truediv. destruct (Z.eqb_spec (Z.max 1 b) 0) as [H|H]; [lia|done].
Qed.

Section with_runtime.
Context `{RT : Runtime}.

(** A stringified series has the object dtype and no missing cell. *)
Lemma astype_str_not_numeric s : is_numeric_dtype (astype_str s) = false.
Proof. reflexivity. Qed.

Lemma astype_str_isna_sum s : isna_sum (astype_str s) = 0%Z.
Proof.
  unfold isna_sum, astype_str. simpl.
  induction (values s) as [|c l IH]; simpl; [done|]. exact IH.
Qed.

Lemma astype_str_length s :
  length (values (astype_str s)) = length (values s).
Proof. unfold astype_str. simpl. by rewrite length_map. Qed.

Lemma astype_str_empty s : empty (astype_str s) = empty s.
Proof. unfold empty, astype_str. simpl. by destruct (values s). Qed.

Lemma tolist_str_astype_str s : tolist_str (astype_str s) = tolist_str s.
Proof.
  unfold tolist_str, astype_str. simpl. rewrite map_map. done.
Qed.

Lemma dropna_astype_str s : dropna (astype_str s) = astype_str s.
Proof.
  unfold dropna, astype_str. simpl. f_equal.
  induction (values s) as [|c l IH]; simpl; [done|]. by rewrite IH.
Qed.

Lemma empty_dropna_all_missing s :
  Forall (λ c, isna_cell c = true) (values s) → empty (dropna s) = true.
Proof.
  intros H. unfold empty, dropna. simpl.
  by rewrite filter_notna_all_missing.
Qed.

(** After coercion and null-dropping every cell is a number. *)
Lemma array_dropna_to_numeric_length s :
  length (array (dropna (to_numeric s)))
  = length (values (dropna (to_numeric s))).
Proof.
  unfold array, dropna, to_numeric. simpl.
  induction (values s) as [|c l IH]; simpl; [done|].
  destruct c as [| |z|q|str|neg]; simpl; try exact IH;
    try (f_equal; exact IH).
  destruct (parse_numeric str); simpl; try exact IH; f_equal; exact IH.
Qed.

Lemma empty_dropna_to_numeric s :
  empty (dropna (to_numeric s)) = true
  ↔ array (dropna (to_numeric s)) = [].
Proof.
  pose proof (array_dropna_to_numeric_length s) as Hlen.
  unfold empty.
  destruct (values (dropna (to_numeric s))), (array (dropna (to_numeric s)));
    simpl in *; try discriminate; done.
Qed.

End with_runtime.

(** *** The numbers of a column *)

Lemma array_not_nan s x : In x (array s) → x ≠ Float64.Nan.
Proof.
  unfold array. intros H. apply list_elem_of_In, list_elem_of_omap in H.
  destruct H as (c & _ & Hc).
  destruct c; simpl in Hc; try discriminate; injection Hc as <-; try done.
  apply Float64Facts.of_Q_not_nan.
Qed.

Lemma floats_not_nan s x : In x (floats s) → x ≠ Float64.Nan.
Proof.
  unfold floats. intros H. apply in_map_iff in H as (y & <- & Hy).
  apply Float64Facts.normalize_not_nan. by apply (array_not_nan s).
Qed.

End PandasFacts.

(** ** profiler.py: pattern detection *)

Module ProfilerFacts.
Import Pandas Profiler PandasFacts.
#[local] Open Scope list_scope.

Section with_runtime.
Context `{RT : Runtime}.

Lemma elem_of_matched_categories x vs :
  x ∈ matched_categories vs ↔ in_category x vs.
Proof.
  unfold matched_categories, in_category, categories. simpl.
  destruct (existsb (Regex.fullmatch Regex.re_alpha) vs),
    (existsb (Regex.search Regex.re_date) vs),
    (existsb (Regex.search Regex.re_at) vs),
    (existsb (Regex.fullmatch Regex.re_digits) vs); simpl;
    set_unfold; intuition congruence.
Qed.

Lemma in_category_cons x v vs :
  in_category x (v :: vs) ↔ in_category x [v] ∨ in_category x vs.
Proof.
  unfold in_category. simpl. rewrite !orb_false_r.
  destruct (Regex.fullmatch Regex.re_digits v),
    (Regex.fullmatch Regex.re_alpha v), (Regex.search Regex.re_at v),
    (Regex.search Regex.re_date v); simpl; intuition congruence.
Qed.

Lemma in_category_nil x : ¬ in_category x [].
Proof. unfold in_category. simpl. intuition congruence. Qed.

Lemma elem_of_classify x patterns v :
  x ∈ classify patterns v ↔ x ∈ patterns ∨ in_category x [v].
Proof.
  unfold classify, add_if, in_category. simpl. rewrite !orb_false_r.
  destruct (Regex.fullmatch Regex.re_digits v),
    (Regex.fullmatch Regex.re_alpha v), (Regex.search Regex.re_at v),
    (Regex.search Regex.re_date v); set_unfold; intuition congruence.
Qed.

(** What the loop of [detect_pattern] has collected at its end. *)
Lemma elem_of_classify_loop x vs patterns :
  x ∈ fold_left classify vs patterns ↔ x ∈ patterns ∨ in_category x vs.
Proof.
  revert patterns. induction vs as [|v vs IH]; intros patterns; simpl.
  - pose proof (in_category_nil x). tauto.
  - rewrite in_category_cons, IH, elem_of_classify. tauto.
Qed.

Lemma matched_categories_sorted vs :
  Sorted String.le (matched_categories vs) ∧ NoDup (matched_categories vs).
Proof.
  unfold matched_categories, categories. simpl.
  destruct (existsb (Regex.fullmatch Regex.re_alpha) vs),
    (existsb (Regex.search Regex.re_date) vs),
    (existsb (Regex.search Regex.re_at) vs),
    (existsb (Regex.fullmatch Regex.re_digits) vs); simpl;
    (split;
     [ repeat first [apply Sorted_nil | apply Sorted_cons
                    | apply HdRel_nil | apply HdRel_cons]; exact I
     | apply (bool_decide_unpack _); vm_compute; exact I ]).
Qed.

(** Sorting the collected set gives the categories in their fixed order. *)
Lemma sorted_classify_loop vs :
  sorted_str (elements (fold_left classify vs ∅)) = matched_categories vs.
Proof.
  destruct (matched_categories_sorted vs) as [Hsorted Hnodup].
  apply (Sorted_unique String.le); auto.
  - unfold sorted_str. apply Sorted_merge_sort. apply _.
  - unfold sorted_str. rewrite merge_sort_Permutation.
    apply NoDup_Permutation; auto.
    + apply NoDup_elements.
    + intros x. rewrite elem_of_elements, elem_of_classify_loop,
        elem_of_matched_categories, elem_of_empty. tauto.
Qed.

(** The label computed from a sample is the label of the specification. *)
Lemma label_of_sample vs :
  (if decide (fold_left classify vs ∅ = ∅) then "mixed"
   else Text.join ", " (sorted_str (elements (fold_left classify vs ∅))))
  = spec_label vs.
Proof.
  unfold spec_label. rewrite sorted_classify_loop.
  destruct (decide (fold_left classify vs ∅ = ∅)) as [He|Hne].
  - destruct (matched_categories vs) as [|x l] eqn:Hm; [done|].
    assert (x ∈ fold_left classify vs ∅) as Hx;
      [|rewrite He in Hx; by apply elem_of_empty in Hx].
    apply elem_of_classify_loop. right.
    apply elem_of_matched_categories. rewrite Hm. left.
  - destruct (matched_categories vs) as [|x l] eqn:Hm; [|done].
    destruct Hne. apply set_eq. intros x.
    rewrite elem_of_classify_loop, <- elem_of_matched_categories, Hm.
    rewrite elem_of_nil. tauto.
Qed.

(** [detect_pattern] on a column with a non-missing cell: the label of the
    sample drawn. *)
Lemma detect_pattern_sampled series n g :
  values (dropna series) ≠ [] →
  (detect_pattern series n g).1
  = spec_label
      (tolist_str
         (sample (Nat.min (length (values (dropna series))) n)
                 (astype_str (dropna series)) g).1).
Proof.
  intros Hne. unfold detect_pattern.
  rewrite astype_str_empty. unfold empty.
  destruct (values (dropna series)) as [|c l] eqn:Hv; [done|].
  rewrite astype_str_length, Hv.
  destruct (sample _ _ g) as [smp g'] eqn:Hs. simpl.
  rewrite tolist_str_astype_str. apply label_of_sample.
Qed.

Lemma detect_pattern_empty series n g :
  Forall (λ c, isna_cell c = true) (values series) →
  (detect_pattern series n g).1 = "empty".
Proof.
  intros H. unfold detect_pattern.
  rewrite astype_str_empty, empty_dropna_all_missing; done.
Qed.

(** A sample whose values are all strings of digits is labelled "numeric". *)
Lemma spec_label_digits vs :
  vs ≠ [] → Forall (λ v, Regex.fullmatch Regex.re_digits v = true) vs →
  spec_label vs = "numeric".
Proof.
  intros Hne Hall.
  assert (existsb (Regex.fullmatch Regex.re_alpha) vs = false
          ∧ existsb (Regex.search Regex.re_date) vs = false
          ∧ existsb (Regex.search Regex.re_at) vs = false) as (Ha & Hd & He).
  { clear Hne. induction Hall as [|v vs Hv _ IH]; simpl; [done|].
    destruct (RegexFacts.digits_only_numeric v Hv) as (-> & -> & ->).
    exact IH. }
  assert (existsb (Regex.fullmatch Regex.re_digits) vs = true) as Hn.
  { destruct Hall as [|v vs Hv _]; [done|]. simpl. by rewrite Hv. }
  unfold spec_label, matched_categories, categories. simpl.
  rewrite Ha, Hd, He, Hn. reflexivity.
Qed.

End with_runtime.
End ProfilerFacts.

(** ** profiler.py: outliers, the column loop, correlations *)

Module ProfilerTheorems.
Import Pandas Profiler PandasFacts ProfilerFacts.
#[local] Open Scope list_scope.

Section with_runtime.
Context `{RT : Runtime}.

Lemma dict_get_set {V} (d : list (string * V)) k v k' :
  dict_get (dict_set d k v) k'
  = if String.eqb k k' then Some v else dict_get d k'.
Proof.
  induction d as [|[k0 v0] d IH]; simpl.
  - destruct (String.eqb_spec k k'); done.
  - destruct (String.eqb_spec k0 k) as [->|Hne]; simpl.
    + destruct (String.eqb_spec k k'); done.
    + rewrite IH. destruct (String.eqb_spec k0 k') as [->|Hne'].
      * destruct (String.eqb_spec k k'); [congruence|done].
      * done.
Qed.

(** A turn of the loop always completes. *)
Lemma profile_column_total col s g :
  ∃ st ins g', profile_column col s g = Ok (st, ins, g') ∧ records st s.
Proof.
  unfold profile_column, records.
  destruct (detect_pattern s 500 g) as [patterns g'].
  destruct (is_numeric_dtype s).
  - eexists _, _, _. split; [reflexivity|]. simpl. done.
  - rewrite truediv_max1. simpl. eexists _, _, _. split; [reflexivity|].
    simpl. done.
Qed.

Lemma profile_columns_total cols overview insights g :
  ∃ overview' insights' g',
    profile_columns cols overview insights g = Ok (overview', insights', g')
    ∧ (∀ col st, dict_get overview' col = Some st →
         dict_get overview col = Some st
         ∨ ∃ s, In (col, s) cols ∧ records st s)
    ∧ (∀ col, is_Some (dict_get overview col) ∨ In col (map fst cols) →
         is_Some (dict_get overview' col)).
Proof.
  revert overview insights g.
  induction cols as [|[c s] cols IH]; intros overview insights g; simpl.
  - eexists _, _, _. split; [reflexivity|]. split; [auto|].
    intros col [H|[]]. done.
  - destruct (profile_column_total c s g) as (st & ins & g1 & -> & Hrec).
    simpl.
    destruct (IH (dict_set overview c st) (insights ++ ins) g1)
      as (ov' & ins' & g' & -> & Hfrom & Hsome).
    eexists _, _, _. split; [reflexivity|]. split.
    + intros col st' Hget. destruct (Hfrom col st' Hget) as [Hold|(s' & Hin & Hr)].
      * rewrite dict_get_set in Hold.
        destruct (String.eqb_spec c col) as [->|Hne]; [|auto].
        injection Hold as <-. right. exists s. auto.
      * right. exists s'. auto.
    + intros col Hcol. apply Hsome. rewrite dict_get_set.
      destruct (String.eqb_spec c col) as [->|Hne]; [left; eauto|].
      destruct Hcol as [H|[H|H]]; [auto|congruence|auto].
Qed.

(** The loop over the columns always completes; what follows it can raise
    in the isolation forest only. *)
Lemma profile_dataframe_result df g :
  ∃ overview insights g',
    profile_columns df [] [] g = Ok (overview, insights, g')
    ∧ profile_dataframe df g
      = (anomalies ← isolation_anomaly_scores df 100;
         Ok (mkProfile overview (correlations_of df) anomalies insights, g'))
    ∧ (∀ col, In col (map fst df) →
         ∃ st s, dict_get overview col = Some st
                 ∧ In (col, s) df ∧ records st s).
Proof.
  unfold profile_dataframe.
  destruct (profile_columns_total df [] [] g)
    as (ov & ins & g' & -> & Hfrom & Hsome).
  eexists _, _, _. split; [reflexivity|]. split; [reflexivity|].
  intros col Hcol. destruct (Hsome col (or_intror Hcol)) as [st Hst].
  destruct (Hfrom col st Hst) as [Hnil|(s & Hin & Hrec)]; [discriminate|].
  eauto.
Qed.

(** What a returned profile holds. *)
Lemma profile_dataframe_Ok df g p g' :
  profile_dataframe df g = Ok (p, g') →
  correlations p = correlations_of df
  ∧ (∀ col, In col (map fst df) →
       ∃ st s, dict_get (columns_overview p) col = Some st
               ∧ In (col, s) df ∧ records st s).
Proof.
  destruct (profile_dataframe_result df g) as (ov & ins & g1 & _ & -> & Hcols).
  destruct (isolation_anomaly_scores df 100) as [anomalies|e]; simpl;
    [|discriminate].
  intros [= <- <-]. simpl. auto.
Qed.

(** [profile_dataframe] raises only what the isolation forest raises. *)
Lemma profile_dataframe_Raise df g e :
  profile_dataframe df g = Raise e →
  isolation_anomaly_scores df 100 = Raise e.
Proof.
  destruct (profile_dataframe_result df g) as (ov & ins & g1 & _ & -> & _).
  destruct (isolation_anomaly_scores df 100) as [anomalies|e']; simpl;
    [discriminate|]. by intros [= <-].
Qed.

(** It returns when the forest does. *)
Lemma profile_dataframe_returns df g anomalies :
  isolation_anomaly_scores df 100 = Ok anomalies →
  ∃ p g', profile_dataframe df g = Ok (p, g').
Proof.
  intros Hiso.
  destruct (profile_dataframe_result df g) as (ov & ins & g1 & _ & -> & _).
  rewrite Hiso. simpl. eauto.
Qed.

End with_runtime.

End ProfilerTheorems.

(** ** Correlations *)

Module CorrelationFacts.
Import Pandas Profiler.
#[local] Open Scope list_scope.

Lemma rint_IZR z : rint (IZR z) = z.
Proof.
  unfold rint.
  assert (Zfloor (IZR z) = z) as ->.
  { apply Zfloor_eq. lra. }
  destruct (Rlt_dec (IZR z - IZR z) (1 / 2)) as [_|Hn]; [done|].
  exfalso. apply Hn. lra.
Qed.

Lemma round3_minus_one : round3 (-1) = (-1)%R.
Proof.
  unfold round3.
  replace (-1 * 1000)%R with (IZR (-1000)) by lra.
  rewrite rint_IZR. lra.
Qed.

(** A correlation whose product of squared deviations is 4 and whose sum
    of products is -2, both found by evaluation. *)
Ltac pearson_minus_one :=
  unfold pearson;
  let E := fresh "E" in
  destruct (co_moments _) as [[[? ?] ?]|] eqn:E; vm_compute in E;
    [|discriminate];
  injection E as <- <- <-;
  match goal with
  | |- (if Qeq_bool ?d 0 then _ else _) = _ =>
      let Hd := fresh in
      let Hz := fresh in
      assert (Hd : (d == 4)%Q) by reflexivity;
      assert (Hz : Qeq_bool d 0 = false) by reflexivity;
      rewrite Hz, (Qeq_eqR _ _ Hd)
  end;
  match goal with
  | |- Some (Q2R ?n / _)%R = _ =>
      let Hn := fresh in
      assert (Hn : (n == -2)%Q) by reflexivity;
      rewrite (Qeq_eqR _ _ Hn)
  end;
  f_equal;
  replace (Q2R 4) with (2 * 2)%R by (unfold Q2R; simpl; lra);
  rewrite sqrt_square by lra;
  unfold Q2R; simpl; lra.

Lemma pearson_up_down :
  pearson (mkSeries int64 [Int 1; Int 2; Int 3])
          (mkSeries int64 [Int 3; Int 2; Int 1]) = Some (-1)%R.
Proof. pearson_minus_one. Qed.


End CorrelationFacts.

(** ** pbl_generator.py *)

Module PblGeneratorFacts.
Import Pandas Profiler PblGenerator PandasFacts ProfilerFacts ProfilerTheorems.
#[local] Open Scope list_scope.

Lemma first_char_app c s t : Text.first_char (String c s +:+ t) = Some c.
Proof. reflexivity. Qed.

Lemma string_of_uint_first d :
  ∃ c s, NilZero.string_of_uint d = String c s ∧ c ≠ "L"%char.
Proof. destruct d; simpl; eexists _, _; (split; [reflexivity|discriminate]). Qed.

Lemma str_of_Z_first z :
  ∃ c s, Text.str_of_Z z = String c s ∧ c ≠ "L"%char.
Proof.
  unfold Text.str_of_Z. destruct (Z.to_int z) as [d|d]; simpl.
  - apply string_of_uint_first.
  - eexists _, _. split; [reflexivity|discriminate].
Qed.

Lemma format_2f_first x t :
  Text.first_char (Float64.format_2f x +:+ t) ≠ Some "L"%char.
Proof.
  unfold Float64.format_2f. destruct x as [|[]|q]; try discriminate.
  destruct (Qle_bool 0 q); [|discriminate].
  destruct (str_of_Z_first (Z.abs (Text.round_half_even (q * 100)) / 100))
    as (c & s & -> & Hc).
  simpl. congruence.
Qed.

Section with_runtime.
Context `{RT : Runtime}.

Lemma dropna_all_missing s :
  Forall (λ c, isna_cell c = true) (values s) →
  dropna s = mkSeries (dtype_of s) [].
Proof.
  intros H. unfold dropna. by rewrite filter_notna_all_missing.
Qed.

(** The uniqueness step never divides by zero. *)
Lemma uniqueness_rules_total series :
  uniqueness_rules series
  = Ok
      (if (nunique series =? len (dropna series))%Z then [candidate_key_rule]
       else if Qlt_bool (inject_Z (nunique series)
                         / inject_Z (Z.max 1 (len series))) (2 # 100)
            then [low_cardinality_rule] else []).
Proof.
  unfold uniqueness_rules.
  destruct (nunique series =? len (dropna series))%Z; [done|].
  rewrite truediv_max1. done.
Qed.

Lemma target_uniqueness_rules_total t :
  target_uniqueness_rules t
  = Ok
      (if (nunique t =? len t)%Z then [unique_target_rule]
       else if Qlt_bool (inject_Z (nunique t) / inject_Z (Z.max 1 (len t)))
                        (2 # 100)
            then [low_cardinality_target_rule] else []).
Proof.
  unfold target_uniqueness_rules.
  destruct (nunique t =? len t)%Z; [done|].
  rewrite truediv_max1. done.
Qed.

Lemma overlap_fraction_total t_vals r_vals :
  ∃ f, overlap_fraction t_vals r_vals = Ok f.
Proof.
  unfold overlap_fraction. destruct (size t_vals =? 0)%nat; [eauto|].
  rewrite truediv_max1. eauto.
Qed.

Lemma generate_pbl_for_column_total series :
  ∃ last,
    uniqueness_rules series = Ok last
    ∧ generate_pbl_for_column series
      = Ok ((if negb (0 <? isna_sum series)%Z
               then ["Nulls are NOT allowed."] else ["Nulls are allowed."])
                ++ class_rules series ++ last).
Proof.
  unfold generate_pbl_for_column. rewrite uniqueness_rules_total. simpl.
  eexists. split; [reflexivity|]. by rewrite <- app_assoc.
Qed.

(** No rule of the character-class step starts with an [L]. *)
Lemma class_rules_first series x :
  In x (class_rules series) → Text.first_char x ≠ Some "L"%char.
Proof.
  unfold class_rules, length_rule.
  destruct (is_numeric_only series (98 # 100)).
  { destruct (infer_length_rules series); simpl;
      intros H; decompose [or] H; subst; try done. }
  destruct (is_alpha_only series (98 # 100)).
  { simpl. intros [<-|[]]. done. }
  destruct (existsb _ _), (existsb _ _), (infer_length_rules series); simpl;
    intros H; decompose [or] H; subst; try done.
Qed.

(** Where the rules of [derive_rules_from_reference] come from. *)
Lemma derive_rules_from_reference_total target reference thr n g :
  let t := astype_str (dropna target) in
  let r := astype_str (dropna reference) in
  ∃ enum pattern last g',
    enumeration_rules t r thr = Ok enum
    ∧ target_uniqueness_rules t = Ok last
    ∧ derive_rules_from_reference target reference thr n g
      = Ok (null_rules t r ++ reference_key_rules r ++ enum
                ++ range_rules t r
                ++ match pattern with Some p => [pattern_rule p] | None => [] end
                ++ (if (0 <? len r)%Z
                    then ["Reference distinct count: "
                            +:+ Text.str_of_Z (nunique r)] else [])
                ++ (if (0 <? len t)%Z
                    then ["Target distinct count: "
                            +:+ Text.str_of_Z (nunique t)] else [])
                ++ last, g').
Proof.
  intros t r. unfold derive_rules_from_reference. fold t r.
  assert (∃ enum, enumeration_rules t r thr = Ok enum) as [enum Henum].
  { unfold enumeration_rules.
    destruct ((0 <? len r)%Z && (0 <? len t)%Z); [|eauto].
    destruct (overlap_fraction_total (value_set t) (value_set r)) as [f ->].
    simpl. destruct (Qle_bool thr f); [eauto|].
    destruct (Qlt_bool 0 f); eauto. }
  rewrite Henum, target_uniqueness_rules_total. simpl.
  destruct (sample_list r n g) as [ref_sample g1].
  destruct (sample_list t n g1) as [tgt_sample g2].
  eexists enum, _, _, g2. split; [done|]. split; [done|].
  simpl. rewrite <- !app_assoc. reflexivity.
Qed.

End with_runtime.

(** *** The low-cardinality insight and rules *)

Section with_runtime.
Context `{RT : Runtime}.

Lemma has_insight_neq_low col n d suffix :
  "Column '" +:+ col +:+ "' has " +:+ Text.str_of_Z n +:+ suffix
  ≠ low_cardinality_insight col d.
Proof.
  unfold low_cardinality_insight. intros H.
  apply (inj (String.app "Column '")) in H.
  apply (inj (String.app col)) in H.
  discriminate H.
Qed.

(** The insights one turn of the loop adds. *)
Lemma profile_column_insights col s g :
  ∃ st g',
    profile_column col s g
    = Ok (st,
            if is_numeric_dtype s then
              if (0 <? out_count (compute_outliers s))%Z
              then [outlier_insight col (out_count (compute_outliers s))]
              else []
            else
              (if (0 <? isna_sum s)%Z then [nulls_insight col (isna_sum s)]
               else [])
                ++ (if Qlt_bool (inject_Z (nunique s)
                                 / inject_Z (Z.max 1 (len s))) (2 # 100)
                    then [low_cardinality_insight col (nunique s)] else []),
            g').
Proof.
  unfold profile_column.
  destruct (detect_pattern s 500 g) as [patterns g'].
  destruct (is_numeric_dtype s).
  - eexists _, _. reflexivity.
  - rewrite truediv_max1. simpl. eexists _, _. reflexivity.
Qed.

Lemma low_cardinality_insight_emitted col s g :
  ∃ st ins g',
    profile_column col s g = Ok (st, ins, g')
    ∧ (In (low_cardinality_insight col (nunique s)) ins
       ↔ is_numeric_dtype s = false
         ∧ Qlt_bool (inject_Z (nunique s) / inject_Z (Z.max 1 (len s)))
                    (2 # 100) = true).
Proof.
  destruct (profile_column_insights col s g) as (st & g' & ->).
  eexists _, _, _. split; [reflexivity|].
  destruct (is_numeric_dtype s).
  - split; [|intros [? _]; discriminate].
    destruct (0 <? out_count (compute_outliers s))%Z; simpl; [|tauto].
    intros [H|[]]. by apply has_insight_neq_low in H.
  - destruct (Qlt_bool _ _);
      destruct (0 <? isna_sum s)%Z; simpl; split; try tauto.
    + intros [H|[]]. by apply has_insight_neq_low in H.
    + intros [_ ?]. discriminate.
    + intros [_ ?]. discriminate.
Qed.

Lemma low_cardinality_rule_emitted series :
  ∃ rules,
    generate_pbl_for_column series = Ok rules
    ∧ (In low_cardinality_rule rules
       ↔ nunique series ≠ len (dropna series)
         ∧ Qlt_bool (inject_Z (nunique series)
                     / inject_Z (Z.max 1 (len series))) (2 # 100) = true).
Proof.
  destruct (generate_pbl_for_column_total series) as (last & Hlast & ->).
  eexists. split; [reflexivity|].
  rewrite uniqueness_rules_total in Hlast. injection Hlast as <-.
  rewrite !in_app_iff.
  assert (Hnull : ¬ In low_cardinality_rule
                      (if negb (0 <? isna_sum series)%Z
                       then ["Nulls are NOT allowed."]
                       else ["Nulls are allowed."])).
  { destruct (negb _); simpl; intros [H|[]]; discriminate H. }
  assert (Hclass : ¬ In low_cardinality_rule (class_rules series)).
  { intros H. by apply class_rules_first in H. }
  destruct (Z.eqb_spec (nunique series) (len (dropna series))) as [He|Hne].
  - split; [|tauto]. simpl. intros [?|[?|[H|[]]]]; [done|done|discriminate H].
  - destruct (Qlt_bool _ _); simpl; split; try tauto.
    intros [_ ?]. discriminate.
Qed.

(** No rule before the last step of [derive_rules_from_reference] starts
    with an [L]. *)
Lemma enumeration_rules_first t r thr enum x :
  enumeration_rules t r thr = Ok enum → In x enum →
  Text.first_char x ≠ Some "L"%char.
Proof.
  unfold enumeration_rules.
  destruct ((0 <? len r)%Z && (0 <? len t)%Z); [|by intros [= <-]].
  destruct (overlap_fraction _ _) as [f|]; [|done]. simpl.
  destruct (Qle_bool thr f).
  { destruct (length _ <=? 50)%nat; intros [= <-]; simpl;
      intros H; decompose [or] H; subst; done. }
  destruct (Qlt_bool 0 f); intros [= <-]; simpl; intros [<-|[]]; [|done].
  unfold partial_overlap_rule. apply format_2f_first.
Qed.

Lemma low_cardinality_target_rule_emitted target reference thr n g :
  let t := astype_str (dropna target) in
  ∃ rules g',
    derive_rules_from_reference target reference thr n g = Ok (rules, g')
    ∧ (In low_cardinality_target_rule rules
       ↔ nunique t ≠ len t
         ∧ Qlt_bool (inject_Z (nunique t) / inject_Z (Z.max 1 (len t)))
                    (2 # 100) = true).
Proof.
  intros t.
  destruct (derive_rules_from_reference_total target reference thr n g)
    as (enum & pattern & last & g' & Henum & Hlast & ->).
  fold t in Henum, Hlast |- *.
  set (r := astype_str (dropna reference)) in *.
  eexists _, _. split; [reflexivity|].
  rewrite target_uniqueness_rules_total in Hlast. injection Hlast as <-.
  rewrite !in_app_iff.
  assert (H1 : ¬ In low_cardinality_target_rule (null_rules t r)).
  { unfold null_rules.
    destruct (isna_sum r =? 0)%Z; [destruct (isna_sum t =? 0)%Z|];
      simpl; intros [H|[]]; discriminate H. }
  assert (H2 : ¬ In low_cardinality_target_rule (reference_key_rules r)).
  { unfold reference_key_rules.
    destruct (nunique r =? len r)%Z; simpl; [|tauto].
    intros [H|[]]; discriminate H. }
  assert (H3 : ¬ In low_cardinality_target_rule enum).
  { intros H. by eapply enumeration_rules_first in H. }
  assert (H4 : ¬ In low_cardinality_target_rule (range_rules t r)).
  { unfold range_rules.
    destruct (is_numeric_dtype r && is_numeric_dtype t); simpl; [|tauto].
    destruct (negb _), (negb _); simpl; intros H; decompose [or] H;
      first [done|discriminate]. }
  assert (H5 : ¬ In low_cardinality_target_rule
                    match pattern with
                    | Some p => [pattern_rule p]
                    | None => []
                    end).
  { destruct pattern; simpl; [|tauto]. intros [H|[]]; discriminate H. }
  assert (H6 : ¬ In low_cardinality_target_rule
                    (if (0 <? len r)%Z
                     then ["Reference distinct count: "
                             +:+ Text.str_of_Z (nunique r)] else [])).
  { destruct (0 <? len r)%Z; simpl; [|tauto]. intros [H|[]]; discriminate H. }
  assert (H7 : ¬ In low_cardinality_target_rule
                    (if (0 <? len t)%Z
                     then ["Target distinct count: "
                             +:+ Text.str_of_Z (nunique t)] else [])).
  { destruct (0 <? len t)%Z; simpl; [|tauto]. intros [H|[]]; discriminate H. }
  destruct (Z.eqb_spec (nunique t) (len t)) as [He|Hne].
  - split; [|tauto]. simpl. intros H.
    decompose [or] H; first [done|discriminate].
  - destruct (Qlt_bool _ _); simpl; split; try tauto.
    intros [_ ?]. discriminate.
Qed.

End with_runtime.

End PblGeneratorFacts.

Import Pandas Profiler PblGenerator Inputs.
Import PandasFacts ProfilerFacts ProfilerTheorems CorrelationFacts.
Import PblGeneratorFacts.
#[local] Open Scope list_scope.

(** ** Numbers: extremes and means *)

Module NumericFacts.
Import Float64 Float64Facts.
#[local] Open Scope list_scope.

Lemma fold_min_spec xs x :
  x ≠ Nan → Forall (λ y, y ≠ Nan) xs →
  let m := fold_left (λ a b, if ltb b a then b else a) xs x in
  In m (x :: xs) ∧ Forall (λ y, leb m y = true) (x :: xs).
Proof.
  revert x. induction xs as [|y xs IH]; intros x Hx Hall; simpl.
  - split; [auto|]. repeat constructor. by apply leb_refl.
  - apply Forall_cons in Hall as [Hy Hall].
    destruct (ltb y x) eqn:Hyx.
    + destruct (IH y Hy Hall) as [Hin Hle]. simpl in Hin. split; [tauto|].
      apply Forall_cons in Hle as [Hmy Hle].
      repeat constructor; auto.
      eapply leb_trans; [exact Hmy|]. by apply ltb_leb.
    + destruct (IH x Hx Hall) as [Hin Hle]. simpl in Hin. split; [tauto|].
      apply Forall_cons in Hle as [Hmx Hle].
      repeat constructor; auto.
      eapply leb_trans; [exact Hmx|]. by apply ltb_total.
Qed.

Lemma fold_max_spec xs x :
  x ≠ Nan → Forall (λ y, y ≠ Nan) xs →
  let m := fold_left (λ a b, if ltb a b then b else a) xs x in
  In m (x :: xs) ∧ Forall (λ y, leb y m = true) (x :: xs).
Proof.
  revert x. induction xs as [|y xs IH]; intros x Hx Hall; simpl.
  - split; [auto|]. repeat constructor. by apply leb_refl.
  - apply Forall_cons in Hall as [Hy Hall].
    destruct (ltb x y) eqn:Hxy.
    + destruct (IH y Hy Hall) as [Hin Hle]. simpl in Hin. split; [tauto|].
      apply Forall_cons in Hle as [Hym Hle].
      repeat constructor; auto.
      eapply leb_trans; [|exact Hym]. by apply ltb_leb.
    + destruct (IH x Hx Hall) as [Hin Hle]. simpl in Hin. split; [tauto|].
      apply Forall_cons in Hle as [Hxm Hle].
      repeat constructor; auto.
      eapply leb_trans; [|exact Hxm]. by apply ltb_total.
Qed.

(** The least and the greatest of the numbers of an array. *)
Lemma minimum_spec xs :
  xs ≠ [] → Forall (λ y, y ≠ Nan) xs →
  In (minimum xs) xs ∧ Forall (λ y, leb (minimum xs) y = true) xs.
Proof.
  destruct xs as [|x xs]; [done|]. intros _ Hall.
  apply Forall_cons in Hall as [Hx Hall]. by apply fold_min_spec.
Qed.

Lemma maximum_spec xs :
  xs ≠ [] → Forall (λ y, y ≠ Nan) xs →
  In (maximum xs) xs ∧ Forall (λ y, leb y (maximum xs) = true) xs.
Proof.
  destruct xs as [|x xs]; [done|]. intros _ Hall.
  apply Forall_cons in Hall as [Hx Hall]. by apply fold_max_spec.
Qed.

(** As floats, the least and the greatest number of an array are the
    least and the greatest of its floats. *)
Lemma extremes_spec xs :
  xs ≠ [] → Forall (λ y, y ≠ Nan) xs →
  let lo := normalize (minimum xs) in
  let hi := normalize (maximum xs) in
  In lo (map normalize xs) ∧ In hi (map normalize xs)
  ∧ (∀ x, In x (map normalize xs) → leb lo x = true ∧ leb x hi = true)
  ∧ leb lo hi = true.
Proof.
  intros Hne Hall lo hi.
  destruct (minimum_spec xs Hne Hall) as [Hlo1 Hlo2].
  destruct (maximum_spec xs Hne Hall) as [Hhi1 Hhi2].
  rewrite List.Forall_forall in Hlo2, Hhi2.
  assert (Hbetween : ∀ x, In x (map normalize xs) →
                          leb lo x = true ∧ leb x hi = true).
  { intros x Hx. apply in_map_iff in Hx as (y & <- & Hy).
    split; apply normalize_mono; auto. }
  assert (Hin : In lo (map normalize xs)) by (by apply in_map).
  split; [done|]. split; [by apply in_map|]. split; [done|].
  by apply Hbetween.
Qed.

Lemma sum_num_bounds a b xs :
  Forall (within a b) xs →
  (inject_Z (Z.of_nat (length xs)) * a <= sum_num xs)%Q
  ∧ (sum_num xs <= inject_Z (Z.of_nat (length xs)) * b)%Q.
Proof.
  induction 1 as [|x xs [Hx1 Hx2] _ [IH1 IH2]].
  - change (inject_Z (Z.of_nat (length (@nil Q)))) with 0%Q.
    change (sum_num []) with 0%Q. split; Lqa.lra.
  - cbn [length sum_num fold_right].
    rewrite Nat2Z.inj_succ, <- Z.add_1_r, inject_Z_plus.
    change (inject_Z 1) with 1%Q.
    fold (sum_num xs). split; Lqa.lra.
Qed.

Lemma mean_num_within a b xs m :
  Forall (within a b) xs → mean_num xs = Some m → within a b m.
Proof.
  intros Hall. destruct xs as [|x xs]; [done|]. intros [= <-].
  destruct (sum_num_bounds a b (x :: xs) Hall) as [H1 H2].
  change (x + sum_num xs)%Q with (sum_num (x :: xs)) in *.
  change (S (length xs)) with (length (x :: xs)) in *.
  set (n := inject_Z (Z.of_nat (length (x :: xs)))) in *.
  assert (Hn : (0 < n)%Q).
  { unfold n. change 0%Q with (inject_Z 0). rewrite <- Zlt_Qlt.
    simpl. lia. }
  split.
  - apply Qle_shift_div_l; [done|]. Lqa.lra.
  - apply Qle_shift_div_r; [done|]. Lqa.lra.
Qed.

End NumericFacts.

(** ** profiler.py, continued *)

Module ProfilerMore.
Import NumericFacts.
#[local] Open Scope list_scope.

Lemma existsb_Permutation {A} (f : A → bool) (l l' : list A) :
  l ≡ₚ l' → existsb f l = existsb f l'.
Proof.
  induction 1 as [|x l l' _ IH|x y l|l1 l2 l3 _ IH1 _ IH2]; simpl.
  - done.
  - by rewrite IH.
  - destruct (f x), (f y); done.
  - by rewrite IH1.
Qed.

(** The label of the specification does not depend on the order of the
    sample. *)
Lemma spec_label_Permutation vs vs' :
  vs ≡ₚ vs' → spec_label vs = spec_label vs'.
Proof.
  intros H. unfold spec_label, matched_categories, categories. simpl.
  by rewrite !(existsb_Permutation _ vs vs' H).
Qed.

Lemma filter_sublist {A} (f : A → bool) (l : list A) :
  List.filter f l `sublist_of` l.
Proof.
  induction l as [|x l IH]; simpl; [done|].
  destruct (f x); [by apply sublist_skip|by apply sublist_cons].
Qed.

Lemma map_sublist {A B} (f : A → B) (l1 l2 : list A) :
  l1 `sublist_of` l2 → map f l1 `sublist_of` map f l2.
Proof. induction 1; simpl; by constructor. Qed.


Lemma filter_length_le_In {A} (f g : A → bool) (l : list A) :
  (∀ x, In x l → f x = true → g x = true) →
  (length (List.filter f l) ≤ length (List.filter g l))%nat.
Proof.
  induction l as [|x l IH]; intros Hfg; simpl; [done|].
  assert (IH' := IH (λ y Hy, Hfg y (or_intror Hy))).
  destruct (f x) eqn:Hf.
  - rewrite (Hfg x (or_introl eq_refl) Hf). simpl. lia.
  - destruct (g x); simpl; lia.
Qed.

Lemma filter_length_all {A} (f : A → bool) (l : list A) :
  (length (List.filter f l) ≤ length l)%nat.
Proof.
  induction l as [|x l IH]; simpl; [done|]. destruct (f x); simpl; lia.
Qed.

Lemma filter_none {A} (f : A → bool) (l : list A) :
  Forall (λ x, f x = false) l → List.filter f l = [].
Proof. induction 1 as [|x l Hx _ IH]; simpl; [done|]. by rewrite Hx. Qed.

Section with_runtime.
Context `{RT : Runtime}.

Lemma array_dropna s : array (dropna s) = array s.
Proof.
  unfold array, dropna. simpl.
  induction (values s) as [|c l IH]; simpl; [done|].
  destruct c; simpl; try exact IH; f_equal; exact IH.
Qed.

Lemma count_to_numeric s :
  count (to_numeric s) = Z.of_nat (length (array (to_numeric s))).
Proof.
  rewrite <- array_dropna, array_dropna_to_numeric_length. reflexivity.
Qed.

(** The result of [compute_outliers] when some number is left. *)
Lemma compute_outliers_IQR series :
  let s := dropna (to_numeric series) in
  let q1 := Float64.normalize (quantile (array s) (1 # 4)) in
  let q3 := Float64.normalize (quantile (array s) (3 # 4)) in
  let iqr := Float64.sub q3 q1 in
  let lower := Float64.sub q1 (Float64.mul (Float64.Fin (3 # 2)) iqr) in
  let upper := Float64.add q3 (Float64.mul (Float64.Fin (3 # 2)) iqr) in
  array s ≠ [] →
  compute_outliers series
  = mkOutliers "IQR"
      (Z.of_nat
         (length
            (List.filter (λ x, Float64.ltb x lower || Float64.ltb upper x)
                         (floats s))))
      (Some lower) (Some upper).
Proof.
  intros s q1 q3 iqr lower upper Hxs. unfold compute_outliers.
  destruct (empty (dropna (to_numeric series))) eqn:He.
  { apply empty_dropna_to_numeric in He. done. }
  reflexivity.
Qed.

(** The count of [compute_outliers] never exceeds the number of values
    outside the quartiles. *)
Lemma outside_fences (q1 q3 x : Float64.t) :
  Float64.normalize q1 = q1 → Float64.normalize q3 = q3 →
  x ≠ Float64.Nan →
  let iqr := Float64.sub q3 q1 in
  let lower := Float64.sub q1 (Float64.mul (Float64.Fin (3 # 2)) iqr) in
  let upper := Float64.add q3 (Float64.mul (Float64.Fin (3 # 2)) iqr) in
  Float64.ltb x lower || Float64.ltb upper x = true →
  Float64.ltb x q1 || Float64.ltb q3 x = true.
Proof.
  intros H1 H3 Hx iqr lower upper Hout.
  assert (Hcase : (q1 = Float64.Nan ∨ q3 = Float64.Nan)
                  ∨ (q1 ≠ Float64.Nan ∧ q3 ≠ Float64.Nan)).
  { destruct q1, q3; auto; right; done. }
  destruct Hcase as [Hnan|[Hq1 Hq3]].
  { destruct (Float64Facts.nan_fences q1 q3 Hnan) as [Hl Hu].
    fold iqr lower upper in Hl, Hu. rewrite Hl, Hu in Hout.
    by destruct x. }
  destruct (Float64.leb q1 q3) eqn:Hle.
  - apply orb_true_iff in Hout as [Hout|Hout]; apply orb_true_iff.
    + left. destruct (Float64Facts.lower_fence q1 q3 H1 H3 Hle) as [Hn|Hl].
      * fold iqr lower in Hn. rewrite Hn in Hout. by destruct x.
      * eapply Float64Facts.ltb_leb_trans; [exact Hout|exact Hl].
    + right. destruct (Float64Facts.upper_fence q1 q3 H1 H3 Hle) as [Hn|Hu].
      * fold iqr upper in Hn. rewrite Hn in Hout. by destruct upper.
      * eapply Float64Facts.leb_ltb_trans; [exact Hu|exact Hout].
  - apply Float64Facts.leb_false in Hle; [|done|done].
    apply orb_true_iff. destruct (Float64.ltb x q1) eqn:Hlt; [by left|right].
    apply Float64Facts.ltb_total in Hlt; [|done|done].
    eapply Float64Facts.ltb_leb_trans; [exact Hle|exact Hlt].
Qed.

Lemma dict_set_fresh {V} (d : list (string * V)) k v :
  k ∉ map fst d → dict_set d k v = d ++ [(k, v)].
Proof.
  induction d as [|[k0 v0] d IH]; simpl; intros Hk; [done|].
  destruct (String.eqb_spec k0 k) as [->|Hne].
  - exfalso. apply Hk. left.
  - rewrite IH; [done|]. intros Hin. apply Hk. by right.
Qed.

(** With distinct column names the loop appends one key per column. *)
Lemma profile_columns_keys cols overview insights g overview' insights' g' :
  NoDup (map fst overview ++ map fst cols) →
  profile_columns cols overview insights g = Ok (overview', insights', g') →
  map fst overview' = map fst overview ++ map fst cols.
Proof.
  revert overview insights g.
  induction cols as [|[c s] cols IH]; intros overview insights g Hnd; simpl.
  - intros [= <- _ _]. by rewrite app_nil_r.
  - destruct (profile_column_total c s g) as (st & ins & g1 & -> & _). simpl.
    assert (Hc : c ∉ map fst overview).
    { apply NoDup_app in Hnd as (_ & Hdisj & _). intros Hin.
      apply (Hdisj c Hin). left. }
    rewrite (dict_set_fresh overview c st Hc).
    intros Hrun. apply IH in Hrun.
    + rewrite Hrun, map_app. simpl. by rewrite <- app_assoc.
    + rewrite map_app. simpl. by rewrite <- app_assoc.
Qed.

End with_runtime.
End ProfilerMore.

(** ** The correlation matrix, continued *)

Module CorrelationMore.
Import NumericFacts ProfilerMore.
#[local] Open Scope list_scope.

Lemma sum_num_ext {A} (f g : A → Q) (l : list A) :
  (∀ x, (f x == g x)%Q) → (sum_num (map f l) == sum_num (map g l))%Q.
Proof.
  intros H. induction l as [|x l IH]; simpl; [reflexivity|].
  by rewrite (H x), IH.
Qed.

Lemma complete_pairs_swap a b :
  complete_pairs b a = map (λ p, (p.2, p.1)) (complete_pairs a b).
Proof.
  unfold complete_pairs. generalize (values b).
  induction (values a) as [|x xs IH]; intros [|y ys]; try reflexivity.
  cbn -[num_of_cell]. rewrite (IH ys).
  destruct (num_of_cell x), (num_of_cell y); reflexivity.
Qed.

Lemma co_moments_swap ps :
  match co_moments ps, co_moments (map (λ p, (p.2, p.1)) ps) with
  | Some (sxx, syy, sxy), Some (sxx', syy', sxy') =>
      sxx' = syy ∧ syy' = sxx ∧ (sxy' == sxy)%Q
  | None, None => True
  | _, _ => False
  end.
Proof.
  assert (E1 : map fst (map (λ p : Q * Q, (p.2, p.1)) ps) = map snd ps).
  { rewrite map_map. by apply map_ext. }
  assert (E2 : map snd (map (λ p : Q * Q, (p.2, p.1)) ps) = map fst ps).
  { rewrite map_map. by apply map_ext. }
  unfold co_moments. rewrite E1, E2.
  destruct (mean_num (map fst ps)) as [mx|], (mean_num (map snd ps)) as [my|];
    try done.
  split; [done|]. split; [done|].
  rewrite map_map. apply sum_num_ext. intros [x y]. simpl. ring.
Qed.

Lemma Qeq_bool_ext x y : (x == y)%Q → Qeq_bool x 0 = Qeq_bool y 0.
Proof.
  intros H. destruct (Qeq_bool x 0) eqn:Hx, (Qeq_bool y 0) eqn:Hy; try done.
  - apply Qeq_bool_iff in Hx. apply Qeq_bool_neq in Hy.
    exfalso. apply Hy. by rewrite <- H.
  - apply Qeq_bool_iff in Hy. apply Qeq_bool_neq in Hx.
    exfalso. apply Hx. by rewrite H.
Qed.

(** The coefficient does not depend on the order of its two columns. *)
Lemma pearson_sym a b : pearson b a = pearson a b.
Proof.
  unfold pearson. rewrite complete_pairs_swap.
  pose proof (co_moments_swap (complete_pairs a b)) as H.
  destruct (co_moments (complete_pairs a b)) as [[[sxx syy] sxy]|],
    (co_moments (map _ (complete_pairs a b))) as [[[sxx' syy'] sxy']|];
    try done.
  destruct H as (-> & -> & Hxy).
  assert (Hc : (syy * sxx == sxx * syy)%Q) by ring.
  rewrite (Qeq_bool_ext _ _ Hc).
  destruct (Qeq_bool (sxx * syy) 0); [done|].
  by rewrite (Qeq_eqR _ _ Hxy), (Qeq_eqR _ _ Hc).
Qed.

(** *** Looking an entry up *)

Lemma list_find_map_key {A B} (g : string * A → string * B) (a : string)
    (l : list (string * A)) :
  (∀ c, (g c).1 = c.1) →
  list_find (λ r : string * B, r.1 = a) (map g l)
  = prod_map (@Datatypes.id nat) g <$> list_find (λ c : string * A, c.1 = a) l.
Proof.
  intros Hg. induction l as [|c l IH]; [done|].
  cbn [map list_find]. rewrite IH.
  destruct (decide ((g c).1 = a)) as [H1|H1], (decide (c.1 = a)) as [H2|H2];
    rewrite Hg in H1; try done.
  by destruct (list_find _ l) as [[i x]|].
Qed.

(** The column under a label. *)
Lemma corr_entry_corr_round3 numeric_df a b :
  corr_entry (corr_round3 numeric_df) a b
  = (ra ← list_find (λ c : string * Series, c.1 = a) numeric_df;
     rb ← list_find (λ c : string * Series, c.1 = b) numeric_df;
     round3 <$> pearson ra.2.2 rb.2.2).
Proof.
  unfold corr_entry, corr_round3.
  rewrite (list_find_map_key _ a numeric_df) by done.
  destruct (list_find _ numeric_df) as [[i [a' sa]]|]; [|done].
  cbn [fmap option_fmap option_map prod_map mbind option_bind Datatypes.id fst snd].
  rewrite (list_find_map_key _ b numeric_df) by done.
  by destruct (list_find _ numeric_df) as [[j [b' sb]]|].
Qed.

Lemma list_find_key {A} (l : list (string * A)) (a : string) (x : A) :
  NoDup (map fst l) → In (a, x) l →
  ∃ i, list_find (λ c : string * A, c.1 = a) l = Some (i, (a, x)).
Proof.
  induction l as [|[k y] l IH]; [done|].
  cbn [map fst]. intros Hnd [[= -> ->]|Hin].
  - exists 0%nat. cbn [list_find]. by rewrite decide_True.
  - apply NoDup_cons in Hnd as [Hk Hnd].
    destruct (IH Hnd Hin) as [i Hi].
    exists (S i). cbn [list_find]. rewrite decide_False, Hi; [done|].
    cbn. intros ->. apply Hk. apply list_elem_of_In.
    apply in_map_iff. by exists (a, x).
Qed.

(** *** Sums of squared deviations *)

Lemma sum_num_cons (x : Q) (l : list Q) :
  sum_num (x :: l) = (x + sum_num l)%Q.
Proof. reflexivity. Qed.

Lemma Qsqr_nonneg (x : Q) : (0 <= x * x)%Q.
Proof. Lqa.nra. Qed.

Lemma sum_sq_nonneg (m : Q) (l : list Q) :
  (0 <= sum_num (map (λ x, (x - m) * (x - m)) l))%Q.
Proof.
  induction l as [|x l IH]; [done|].
  cbn [map]. rewrite sum_num_cons.
  pose proof (Qsqr_nonneg (x - m)). Lqa.lra.
Qed.

Lemma Qsqr_zero (x : Q) : (x * x == 0)%Q → (x == 0)%Q.
Proof. intros H. by destruct (Qmult_integral _ _ H). Qed.

Lemma sum_sq_zero (m : Q) (l : list Q) :
  (sum_num (map (λ x, (x - m) * (x - m)) l) == 0)%Q
  ↔ Forall (λ x, (x == m)%Q) l.
Proof.
  induction l as [|x l IH]; cbn [map]; [|rewrite sum_num_cons].
  - split; [constructor|reflexivity].
  - pose proof (Qsqr_nonneg (x - m)) as H1.
    pose proof (sum_sq_nonneg m l) as H2. split.
    + intros H.
      assert (H3 : ((x - m) * (x - m) == 0)%Q) by Lqa.lra.
      constructor.
      * apply Qsqr_zero in H3. Lqa.lra.
      * apply IH. Lqa.lra.
    + intros H. apply Forall_cons in H as [Hx Hl].
      apply IH in Hl. rewrite Hl, Hx. ring.
Qed.


(** *** A column without variation *)

Lemma complete_pairs_fst a b x :
  In x (map fst (complete_pairs a b)) → In x (numbers a).
Proof.
  unfold complete_pairs, numbers. generalize (values b).
  induction (values a) as [|c l IH]; intros [|d l']; try done.
  cbn -[num_of_cell].
  destruct (num_of_cell c) as [u|]; cbn -[num_of_cell].
  - destruct (num_of_cell d) as [v|]; cbn -[num_of_cell].
    + intros [<-|H]; [by left|right; by apply (IH l')].
    + intros H. right. by apply (IH l').
  - intros H. by apply (IH l').
Qed.

Lemma mean_num_constant c l m :
  Forall (λ x, (x == c)%Q) l → mean_num l = Some m → (m == c)%Q.
Proof.
  intros Hall Hm.
  assert (Hw : Forall (within c c) l).
  { eapply Forall_impl; [exact Hall|]. intros x Hx. simpl in Hx.
    split; rewrite Hx; apply Qle_refl. }
  destruct (mean_num_within c c l m Hw Hm) as [H1 H2]. Lqa.lra.
Qed.

(** A column whose numbers are all equal has no coefficient with any
    column. *)
Lemma pearson_constant_l a b :
  (∀ x y, In x (numbers a) → In y (numbers a) → (x == y)%Q) →
  pearson a b = None.
Proof.
  intros Hconst. unfold pearson, co_moments.
  set (ps := complete_pairs a b).
  destruct (mean_num (map fst ps)) as [mx|] eqn:Hmx; [|done].
  destruct (mean_num (map snd ps)) as [my|]; [|done].
  assert (Hall : Forall (λ x, (x == mx)%Q) (map fst ps)).
  { destruct (map fst ps) as [|c l] eqn:Hl; [constructor|].
    assert (Hc : Forall (λ x, (x == c)%Q) (c :: l)).
    { apply List.Forall_forall. intros x Hx. rewrite <- Hl in Hx.
      apply Hconst; apply (complete_pairs_fst a b); [done|].
      fold ps. rewrite Hl. by left. }
    pose proof (mean_num_constant c _ mx Hc Hmx) as E.
    eapply Forall_impl; [exact Hc|]. intros x Hx. simpl in Hx. Lqa.lra. }
  apply sum_sq_zero in Hall.
  assert (Hz : Qeq_bool
                 (sum_num (map (λ x, (x - mx) * (x - mx))%Q (map fst ps))
                  * sum_num (map (λ y, (y - my) * (y - my))%Q (map snd ps)))
                 0 = true).
  { apply Qeq_bool_iff. rewrite Hall. ring. }
  by rewrite Hz.
Qed.

(** *** The range of a coefficient *)

(** The inequality of Cauchy and Schwarz on the three sums. *)
Lemma co_sums_bound (mx my : Q) (ps : list (Q * Q)) :
  let X := sum_num (map (λ p, (p.1 - mx) * (p.1 - mx))%Q ps) in
  let Y := sum_num (map (λ p, (p.2 - my) * (p.2 - my))%Q ps) in
  let S := sum_num (map (λ p, (p.1 - mx) * (p.2 - my))%Q ps) in
  (0 <= X)%Q ∧ (0 <= Y)%Q ∧ (S * S <= X * Y)%Q.
Proof.
  induction ps as [|[x y] ps IH]; cbn zeta.
  { split; [done|]. split; [done|]. done. }
  cbn zeta in IH. cbn [map fst snd]. rewrite !sum_num_cons.
  set (X := sum_num (map (λ p : Q * Q, (p.1 - mx) * (p.1 - mx))%Q ps)) in *.
  set (Y := sum_num (map (λ p : Q * Q, (p.2 - my) * (p.2 - my))%Q ps)) in *.
  set (S := sum_num (map (λ p : Q * Q, (p.1 - mx) * (p.2 - my))%Q ps)) in *.
  destruct IH as (HX & HY & HS).
  set (a := (x - mx)%Q). set (b := (y - my)%Q).
  pose proof (Qsqr_nonneg a) as Ha. pose proof (Qsqr_nonneg b) as Hb.
  split; [Lqa.lra|]. split; [Lqa.lra|].
  assert (Hmix : (2 * a * b * S <= a * a * Y + X * b * b)%Q).
  { destruct (Qlt_le_dec 0 X) as [HX0|HX0].
    - pose proof (Qsqr_nonneg (X * b - a * S)) as H1.
      assert (H2 : (0 <= a * a * (X * Y - S * S))%Q).
      { apply Qmult_le_0_compat; Lqa.lra. }
      assert (H3 : (0 <= X * (a * a * Y + X * b * b - 2 * a * b * S))%Q).
      { assert (E : (X * (a * a * Y + X * b * b - 2 * a * b * S)
                     == (X * b - a * S) * (X * b - a * S)
                        + a * a * (X * Y - S * S))%Q) by ring.
        rewrite E. Lqa.lra. }
      destruct (Qlt_le_dec (a * a * Y + X * b * b) (2 * a * b * S))
        as [Hlt|Hle]; [|done].
      exfalso.
      assert (Hd : (0 < 2 * a * b * S - (a * a * Y + X * b * b))%Q)
        by Lqa.lra.
      pose proof (Qmult_lt_0_compat _ _ HX0 Hd) as H4.
      Lqa.lra.
    - assert (EX : (X == 0)%Q) by Lqa.lra.
      assert (ES : (S == 0)%Q).
      { apply Qsqr_zero.
        pose proof (Qsqr_nonneg S). rewrite EX in HS. Lqa.lra. }
      rewrite EX, ES.
      assert (H2 : (0 <= a * a * Y)%Q) by (apply Qmult_le_0_compat; Lqa.lra).
      Lqa.lra. }
  assert (E : ((a * a + X) * (b * b + Y) - (a * b + S) * (a * b + S)
               == (X * Y - S * S) + (a * a * Y + X * b * b - 2 * a * b * S))%Q)
    by ring.
  Lqa.lra.
Qed.

Lemma co_moments_bound ps sxx syy sxy :
  co_moments ps = Some (sxx, syy, sxy) →
  (0 <= sxx * syy)%Q ∧ (sxy * sxy <= sxx * syy)%Q.
Proof.
  unfold co_moments.
  destruct (mean_num (map fst ps)) as [mx|]; [|done].
  destruct (mean_num (map snd ps)) as [my|]; [|done].
  rewrite !map_map. intros [= <- <- <-].
  destruct (co_sums_bound mx my ps) as (HX & HY & HS).
  split; [by apply Qmult_le_0_compat|exact HS].
Qed.

(** Every coefficient lies between -1 and 1. *)
Lemma pearson_bound a b r : pearson a b = Some r → (-1 <= r <= 1)%R.
Proof.
  unfold pearson.
  destruct (co_moments (complete_pairs a b)) as [[[sxx syy] sxy]|] eqn:E;
    [|done].
  destruct (co_moments_bound _ _ _ _ E) as [Hnn Hcs].
  destruct (Qeq_bool (sxx * syy) 0) eqn:Hz; [done|]. intros [= <-].
  apply Qeq_bool_neq in Hz.
  assert (HD : (0 < Q2R (sxx * syy))%R).
  { rewrite <- RMicromega.Q2R_0. apply Qlt_Rlt.
    destruct (Qlt_le_dec 0 (sxx * syy)) as [?|Hle]; [done|].
    exfalso. apply Hz. Lqa.lra. }
  apply Qle_Rle in Hcs. rewrite Q2R_mult in Hcs.
  set (D := Q2R (sxx * syy)) in *. set (s := Q2R sxy) in *.
  pose proof (sqrt_lt_R0 D HD) as Hq.
  pose proof (sqrt_sqrt D (Rlt_le _ _ HD)) as Hqq.
  set (q := sqrt D) in *.
  assert (Hs : (- q <= s <= q)%R) by (split; nra).
  split.
  - apply Rmult_le_reg_r with q; [done|].
    replace (s / q * q)%R with s by (field; lra). lra.
  - apply Rmult_le_reg_r with q; [done|].
    replace (s / q * q)%R with s by (field; lra). lra.
Qed.

(** *** Rounding keeps the range *)

Lemma rint_between (x : R) :
  rint x = Zfloor x ∨ (rint x = (Zfloor x + 1)%Z ∧ (IZR (Zfloor x) < x)%R).
Proof.
  unfold rint.
  destruct (Rlt_dec (x - IZR (Zfloor x)) (1 / 2)); [by left|].
  destruct (Rlt_dec (1 / 2) (x - IZR (Zfloor x))); [right; split; [done|lra]|].
  destruct (Z.even (Zfloor x)); [by left|right; split; [done|lra]].
Qed.

Lemma rint_ge (x : R) (n : Z) : (IZR n <= x)%R → (n ≤ rint x)%Z.
Proof.
  intros H. apply Zfloor_lub in H.
  destruct (rint_between x) as [->|[-> _]]; lia.
Qed.

Lemma rint_le (x : R) (n : Z) : (x <= IZR n)%R → (rint x ≤ n)%Z.
Proof.
  intros H. pose proof (Zfloor_bound x) as [Hlo Hhi].
  assert (Hf : (Zfloor x ≤ n)%Z) by (apply le_IZR; lra).
  destruct (rint_between x) as [->|[-> Hlt]]; [done|].
  assert ((Zfloor x < n)%Z); [|lia]. apply lt_IZR. lra.
Qed.



Lemma round3_bound (r : R) : (-1 <= r <= 1)%R → (-1 <= round3 r <= 1)%R.
Proof.
  intros [Hlo Hhi]. unfold round3.
  assert (H1 : (-1000 ≤ rint (r * 1000))%Z) by (apply rint_ge; lra).
  assert (H2 : (rint (r * 1000) ≤ 1000)%Z) by (apply rint_le; lra).
  apply IZR_le in H1, H2. lra.
Qed.

Section with_runtime.
Context `{RT : Runtime}.

Lemma select_numeric_NoDup df :
  NoDup (map fst df) → NoDup (map fst (select_numeric df)).
Proof.
  intros H. refine (sublist_NoDup _ _ H _).
  apply map_sublist, filter_sublist.
Qed.





Lemma profile_dataframe_anomalies df g p g' :
  profile_dataframe df g = Ok (p, g') →
  isolation_anomaly_scores df 100 = Ok (anomaly_scores p).
Proof.
  destruct (profile_dataframe_result df g) as (ov & ins & g1 & _ & -> & _).
  destruct (isolation_anomaly_scores df 100) as [anomalies|e]; simpl;
    [|discriminate].
  by intros [= <- _].
Qed.

End with_runtime.
End CorrelationMore.

(** ** pbl_generator.py, continued *)

Module PblMore.
Import NumericFacts ProfilerMore CorrelationMore.
#[local] Open Scope list_scope.

(** *** Lengths *)

Lemma foldr_min_le (d : nat) (l : list nat) :
  (foldr Nat.min d l ≤ d)%nat ∧ ∀ x, In x l → (foldr Nat.min d l ≤ x)%nat.
Proof.
  induction l as [|y l [IH1 IH2]]; simpl; [split; [lia|tauto]|].
  split; [lia|]. intros x [->|Hx]; [lia|]. specialize (IH2 x Hx). lia.
Qed.

Lemma foldr_min_In (d : nat) (l : list nat) :
  foldr Nat.min d l = d ∨ In (foldr Nat.min d l) l.
Proof.
  induction l as [|y l IH]; simpl; [by left|].
  destruct (Nat.min_spec y (foldr Nat.min d l)) as [[_ ->]|[_ ->]];
    [right; by left|].
  destruct IH as [IH|IH]; [by left|right; by right].
Qed.

Lemma min_len_le l x : In x l → (min_len l ≤ x)%nat.
Proof. apply foldr_min_le. Qed.

Lemma min_len_In l : l ≠ [] → In (min_len l) l.
Proof.
  destruct l as [|y l]; [done|]. intros _. unfold min_len.
  destruct (foldr_min_In (hd 0%nat (y :: l)) (y :: l)) as [H|H]; [|done].
  rewrite H. by left.
Qed.

Lemma max_list_In l : l ≠ [] → In (max_list l) l.
Proof. intros H. apply list_elem_of_In. by apply max_list_elem_of. Qed.

Lemma max_list_ge l x : In x l → (x ≤ max_list l)%nat.
Proof. intros H. apply max_list_elem_of_le. by apply list_elem_of_In. Qed.

(** A mode occurs, and no value occurs more often. *)
Lemma mode_In l x :
  In x (mode l) →
  In x l
  ∧ ∀ y, In y l →
      (length (List.filter (Nat.eqb y) l)
       ≤ length (List.filter (Nat.eqb x) l))%nat.
Proof.
  unfold mode. intros H. apply list_elem_of_In in H.
  rewrite merge_sort_Permutation, elem_of_remove_dups in H.
  apply list_elem_of_In, filter_In in H as [Hx Htop]. split; [done|].
  apply Nat.eqb_eq in Htop. intros y Hy. rewrite Htop.
  apply max_list_ge, in_map_iff. by exists y.
Qed.

Lemma mode_nonempty l : l ≠ [] → mode l ≠ [].
Proof.
  intros Hne Hnil.
  set (occ := λ x, length (List.filter (Nat.eqb x) l)).
  assert (Hm : map occ l ≠ []) by (by destruct l).
  apply max_list_In, in_map_iff in Hm as (y & Hy & Hin).
  assert (H : In y (mode l)); [|by rewrite Hnil in H].
  unfold mode. apply list_elem_of_In.
  rewrite merge_sort_Permutation, elem_of_remove_dups.
  apply list_elem_of_In, filter_In. split; [done|].
  apply Nat.eqb_eq. exact Hy.
Qed.

(** *** Fractions of matching values *)

Lemma sum_bool_exclusive {A} (f g : A → bool) (vs : list A) :
  (∀ v, f v = true → g v = false) →
  (sum_num (map (λ b : bool, if b then 1 else 0) (map f vs))
   + sum_num (map (λ b : bool, if b then 1 else 0) (map g vs))
   <= inject_Z (Z.of_nat (length vs)))%Q.
Proof.
  intros Hfg. induction vs as [|v vs IH]; [done|].
  cbn [map length]. rewrite !sum_num_cons.
  rewrite Nat2Z.inj_succ. unfold Z.succ. rewrite inject_Z_plus.
  change (inject_Z 1) with 1%Q.
  pose proof (Hfg v) as Hv.
  destruct (f v), (g v); first [Lqa.lra|by specialize (Hv eq_refl)].
Qed.

Lemma frac_ge (thr s n : Q) :
  (0 < n)%Q → (thr <= s / n)%Q → (thr * n <= s)%Q.
Proof.
  intros Hn H.
  assert (E : (s == s / n * n)%Q) by (field; Lqa.lra).
  rewrite E. apply Qmult_le_compat_r; Lqa.lra.
Qed.

Lemma mean_bool_ge (l : list bool) (thr : Q) :
  ge_nan (mean_bool l) thr = true →
  l ≠ []
  ∧ (thr * inject_Z (Z.of_nat (length l))
     <= sum_num (map (λ b : bool, if b then 1 else 0) l))%Q.
Proof.
  unfold mean_bool. destruct l as [|b l]; [done|].
  cbn [map mean_num ge_nan]. intros H. apply Qle_bool_iff in H.
  split; [done|]. cbn [length] in H |- *. rewrite length_map in H.
  apply frac_ge in H; [done|].
  change 0%Q with (inject_Z 0). rewrite <- Zlt_Qlt. lia.
Qed.

Lemma ratio_one (a b : Z) :
  (0 < b)%Z → (inject_Z a / inject_Z b == 1)%Q ↔ a = b.
Proof.
  intros Hb.
  assert (Hq : (0 < inject_Z b)%Q).
  { change 0%Q with (inject_Z 0). by rewrite <- Zlt_Qlt. }
  assert (E : (inject_Z a / inject_Z b * inject_Z b == inject_Z a)%Q)
    by (field; Lqa.lra).
  split.
  - intros H. rewrite H in E. apply inject_Z_injective. Lqa.lra.
  - intros ->. field. Lqa.lra.
Qed.

Lemma ratio_zero (a b : Z) :
  (0 < b)%Z → (inject_Z a / inject_Z b == 0)%Q ↔ a = 0%Z.
Proof.
  intros Hb.
  assert (Hq : (0 < inject_Z b)%Q).
  { change 0%Q with (inject_Z 0). by rewrite <- Zlt_Qlt. }
  assert (E : (inject_Z a / inject_Z b * inject_Z b == inject_Z a)%Q)
    by (field; Lqa.lra).
  split.
  - intros H. rewrite H in E. apply inject_Z_injective.
    change (inject_Z 0) with 0%Q. Lqa.lra.
  - intros ->. change (inject_Z 0) with 0%Q. field. Lqa.lra.
Qed.

(** *** Distinct values *)





Section with_runtime.
Context `{RT : Runtime}.

Lemma infer_length_rules_None series :
  infer_length_rules series = None ↔ values (dropna series) = [].
Proof.
  unfold infer_length_rules. rewrite astype_str_empty. unfold empty.
  destruct (values (dropna series)); split; done.
Qed.

(** The number of rules of the character-class step. *)
Lemma class_rules_length series :
  (1 ≤ length (class_rules series) ≤ 4)%nat.
Proof.
  unfold class_rules.
  destruct (is_numeric_only series (98 # 100)).
  { destruct (infer_length_rules series); simpl; lia. }
  destruct (is_alpha_only series (98 # 100)); [simpl; lia|].
  destruct (existsb _ _), (existsb _ _), (infer_length_rules series);
    simpl; lia.
Qed.


End with_runtime.
End PblMore.

(** ** chat_agent.py *)

Module ChatMore.
Import NumericFacts ProfilerMore ChatAgent.
#[local] Open Scope list_scope.

(** *** Words *)

Lemma split_runs_spec (p : ascii → bool) (w : list ascii) :
  Forall (λ c, p c = true) (Str.split_runs p w).1
  ∧ Forall (λ r, r ≠ [] ∧ Forall (λ c, p c = true) r) (Str.split_runs p w).2.
Proof.
  induction w as [|c w [IH1 IH2]]; cbn [Str.split_runs]; [by split|].
  destruct (Str.split_runs p w) as [cur rest]. cbn [fst snd] in *.
  destruct (p c) eqn:Hc; cbn [fst snd].
  - split; [by constructor|done].
  - split; [done|]. destruct cur as [|c' cur]; [done|].
    constructor; [|done]. by split.
Qed.

(** Every run is non-empty and made of [p] only. *)
Lemma runs_spec (p : ascii → bool) (w : list ascii) :
  Forall (λ r, r ≠ [] ∧ Forall (λ c, p c = true) r) (Str.runs p w).
Proof.
  unfold Str.runs. pose proof (split_runs_spec p w) as [H1 H2].
  destruct (Str.split_runs p w) as [cur rest]. cbn [fst snd] in *.
  destruct cur as [|c cur]; [done|]. constructor; [|done]. by split.
Qed.

Lemma split_runs_all (p : ascii → bool) (w : list ascii) :
  Forall (λ c, p c = true) w → Str.split_runs p w = (w, []).
Proof.
  induction 1 as [|c w Hc _ IH]; cbn [Str.split_runs]; [done|].
  by rewrite IH, Hc.
Qed.

(** A word made of [p] only is its own single run. *)
Lemma runs_all (p : ascii → bool) (w : list ascii) :
  w ≠ [] → Forall (λ c, p c = true) w → Str.runs p w = [w].
Proof.
  intros Hne Hall. unfold Str.runs. rewrite split_runs_all by done.
  by destruct w.
Qed.

Lemma chars_string_of_list (w : list ascii) :
  Regex.chars (string_of_list_ascii w) = w.
Proof. apply list_ascii_of_string_of_list_ascii. Qed.

Lemma string_of_chars (s : string) :
  string_of_list_ascii (Regex.chars s) = s.
Proof. apply string_of_list_ascii_of_string. Qed.

Lemma findall_plus_spec (p : ascii → bool) (s w : string) :
  In w (Str.findall_plus p s) →
  w ≠ "" ∧ Forall (λ c, p c = true) (Regex.chars w).
Proof.
  unfold Str.findall_plus. intros H.
  apply in_map_iff in H as (r & <- & Hr).
  pose proof (runs_spec p (Regex.chars s)) as Hall.
  rewrite List.Forall_forall in Hall. destruct (Hall r Hr) as [Hne Hp].
  rewrite chars_string_of_list. split; [|done].
  by destruct r.
Qed.

Lemma findall_plus_all (p : ascii → bool) (s : string) :
  s ≠ "" → Forall (λ c, p c = true) (Regex.chars s) →
  Str.findall_plus p s = [s].
Proof.
  intros Hne Hall. unfold Str.findall_plus.
  rewrite runs_all; [|by destruct s|done].
  cbn [map]. by rewrite string_of_chars.
Qed.

(** *** Lower case *)

Lemma chars_lower (s : string) :
  Regex.chars (Str.lower s) = map Str.lower_char (Regex.chars s).
Proof.
  induction s as [|c s IH]; [done|].
  cbn [Str.lower]. unfold Regex.chars in *. cbn [list_ascii_of_string map].
  by rewrite IH.
Qed.

Lemma is_word_char_lower (c : ascii) :
  Str.is_word_char (Str.lower_char c) = Str.is_word_char c.
Proof. destruct c as [[] [] [] [] [] [] [] []]; vm_compute; reflexivity. Qed.

Lemma word_chars_lower (s : string) :
  Forall (λ c, Str.is_word_char c = true) (Regex.chars (Str.lower s))
  ↔ Forall (λ c, Str.is_word_char c = true) (Regex.chars s).
Proof.
  rewrite chars_lower, Forall_map.
  split; intros H; (eapply Forall_impl; [exact H|]); intros c Hc; simpl in *;
    by rewrite is_word_char_lower in *.
Qed.

Lemma lower_empty (s : string) : Str.lower s = "" → s = "".
Proof. by destruct s. Qed.

(** *** The dict of the column names *)

(** The value under a key of [{k(c): v(c) for c in l}]: that of the last
    [c] of the list with that key. *)
Lemma dict_get_fold_set {A V} (k : A → string) (v : A → V) (l : list A)
    (w : string) :
  dict_get (fold_left (λ d c, dict_set d (k c) (v c)) l []) w
  = v <$> List.find (λ c, String.eqb (k c) w) (rev l).
Proof.
  induction l as [|c l IH] using rev_ind; [done|].
  rewrite fold_left_app, rev_app_distr. cbn [fold_left rev app List.find].
  rewrite dict_get_set, IH. by destruct (String.eqb (k c) w).
Qed.

Lemma find_rev_last {A} (f : A → bool) (l : list A) (c : A) :
  List.find f (rev l) = Some c →
  ∃ l1 l2, l = l1 ++ c :: l2 ∧ f c = true ∧ Forall (λ x, f x = false) l2.
Proof.
  induction l as [|x l IH] using rev_ind; [done|].
  rewrite rev_app_distr. cbn [rev app List.find].
  destruct (f x) eqn:Hx.
  - intros [= ->]. exists l, []. by repeat split.
  - intros H. destruct (IH H) as (l1 & l2 & -> & Hc & Hl2).
    exists l1, (l2 ++ [x]). split; [by rewrite <- app_assoc|].
    split; [done|]. apply Forall_app. split; [done|]. by constructor.
Qed.

Lemma find_rev_None {A} (f : A → bool) (l : list A) :
  List.find f (rev l) = None ↔ Forall (λ x, f x = false) l.
Proof.
  split.
  - intros H. apply List.Forall_forall. intros x Hx.
    apply (find_none _ _ H). by apply in_rev in Hx.
  - intros H. destruct (List.find f (rev l)) as [c|] eqn:E; [|done].
    apply find_some in E as [Hin Hc]. apply in_rev in Hin.
    rewrite List.Forall_forall in H. rewrite (H c Hin) in Hc. done.
Qed.

(** *** The loop over the words *)

Lemma first_known_Some d words c :
  first_known d words = Some c →
  ∃ ws1 w ws2,
    words = ws1 ++ w :: ws2 ∧ dict_get d w = Some c
    ∧ Forall (λ w', dict_get d w' = None) ws1.
Proof.
  induction words as [|w words IH]; cbn [first_known]; [done|].
  destruct (dict_get d w) as [c'|] eqn:Hw.
  - intros [= ->]. exists [], w, words. by repeat split.
  - intros H. destruct (IH H) as (ws1 & w' & ws2 & -> & Hc & Hall).
    exists (w :: ws1), w', ws2. split; [done|]. split; [done|].
    by constructor.
Qed.

Lemma first_known_None d words :
  first_known d words = None ↔ Forall (λ w, dict_get d w = None) words.
Proof.
  induction words as [|w words IH]; cbn [first_known]; [by split|].
  destruct (dict_get d w) as [c'|] eqn:Hw.
  - split; [done|]. intros H. apply Forall_cons in H as [H _]. congruence.
  - rewrite IH. split; [by constructor|]. intros H.
    by apply Forall_cons in H as [_ ?].
Qed.

Lemma lower_cols_get df w :
  dict_get (lower_cols df) w
  = List.find (λ c, String.eqb (Str.lower c) w) (rev (columns df)).
Proof.
  unfold lower_cols. rewrite (dict_get_fold_set Str.lower (λ c, c)).
  by destruct (List.find _ _).
Qed.

(** *** Columns *)

Lemma getitem_Some df c :
  In c (columns df) → ∃ s, getitem df c = Some s ∧ In (c, s) df.
Proof.
  unfold columns, getitem. induction df as [|[k s] df IH]; [done|].
  cbn [map fst List.find]. intros Hin.
  destruct (String.eqb_spec k c) as [->|Hne].
  - exists s. split; [done|]. by left.
  - destruct Hin as [?|Hin]; [done|].
    destruct (IH Hin) as (s' & Hs & Hin'). exists s'. split; [done|].
    by right.
Qed.

Lemma getitem_None df c : getitem df c = None ↔ ¬ In c (columns df).
Proof.
  split.
  - intros H Hin. destruct (getitem_Some df c Hin) as (s & Hs & _).
    congruence.
  - unfold columns, getitem. induction df as [|[k s] df IH]; [done|].
    cbn [map fst List.find]. intros Hin.
    destruct (String.eqb_spec k c) as [->|Hne].
    + exfalso. apply Hin. by left.
    + apply IH. intros H. apply Hin. by right.
Qed.

Lemma getitem_In df c s :
  NoDup (map fst df) → In (c, s) df → getitem df c = Some s.
Proof.
  unfold getitem. induction df as [|[k s'] df IH]; [done|].
  cbn [map fst List.find]. intros Hnd Hin.
  apply NoDup_cons in Hnd as [Hk Hnd].
  destruct (String.eqb_spec k c) as [->|Hne].
  - destruct Hin as [[= ->]|Hin]; [done|].
    exfalso. apply Hk. apply list_elem_of_In, in_map_iff. by exists (c, s).
  - destruct Hin as [[= -> ->]|Hin]; [done|]. by apply IH.
Qed.

Lemma distinct_In (c : cell) (l : list cell) : In c (distinct l) → In c l.
Proof.
  induction l as [|x l IH]; [done|]. cbn [distinct].
  intros [->|H]; [by left|]. right. apply IH.
  by apply filter_In in H as [? _].
Qed.

Lemma dropna_idemp (s : Series) : dropna (dropna s) = dropna s.
Proof. unfold dropna. cbn [values dtype_of]. by rewrite filter_notna_idemp. Qed.

(** *** The column detected *)

Lemma find_rev_neq (l : list string) (w c : string) :
  List.find (λ c0, String.eqb (Str.lower c0) w) (rev l) = None →
  In c l → Str.lower c ≠ w.
Proof.
  intros H Hc. apply String.eqb_neq.
  apply (find_none _ _ H c). by apply -> in_rev.
Qed.

Lemma extract_column_name_In question df c :
  extract_column_name question df = Some c →
  In c (columns df)
  ∧ In (Str.lower c)
       (Str.findall_plus Str.is_word_char (Str.lower question)).
Proof.
  unfold extract_column_name. intros H.
  apply first_known_Some in H as (ws1 & w & ws2 & Hwords & Hget & _).
  rewrite lower_cols_get in Hget.
  apply find_some in Hget as [Hin Hw]. apply in_rev in Hin.
  apply String.eqb_eq in Hw. subst w. split; [done|].
  rewrite Hwords. apply in_elt.
Qed.

End ChatMore.

(** ** app.py *)

Module AppMore.
Import ProfilerMore ChatMore App.
#[local] Open Scope list_scope.

(** *** Suffixes *)

Lemma app_String (c : ascii) (a b : string) :
  String c a +:+ b = String c (a +:+ b).
Proof. reflexivity. Qed.

Lemma lower_app (a b : string) :
  Str.lower (a +:+ b) = Str.lower a +:+ Str.lower b.
Proof.
  induction a as [|c a IH]; [done|].
  rewrite !app_String. cbn [Str.lower]. by rewrite IH, app_String.
Qed.

Lemma length_app_str (a b : string) :
  String.length (a +:+ b) = (String.length a + String.length b)%nat.
Proof.
  induction a as [|c a IH]; [done|].
  rewrite app_String. cbn [String.length]. by rewrite IH.
Qed.

Lemma chars_app (a b : string) :
  Regex.chars (a +:+ b) = Regex.chars a ++ Regex.chars b.
Proof.
  unfold Regex.chars. induction a as [|c a IH]; [done|].
  rewrite app_String. cbn [list_ascii_of_string app]. by rewrite IH.
Qed.

Lemma substring_all (s : string) : String.substring 0 (String.length s) s = s.
Proof.
  induction s as [|c s IH]; [done|].
  cbn [String.length String.substring]. by rewrite IH.
Qed.

Lemma substring_skip (a b : string) :
  String.substring (String.length a) (String.length b) (a +:+ b) = b.
Proof.
  induction a as [|c a IH]; [apply substring_all|].
  rewrite app_String. exact IH.
Qed.

Lemma substring_suffix (s : string) (i : nat) :
  (i ≤ String.length s)%nat →
  ∃ pre, s = pre +:+ String.substring i (String.length s - i) s.
Proof.
  revert i. induction s as [|c s IH]; intros i Hi.
  - exists "". by destruct i.
  - destruct i as [|i].
    + exists "". rewrite Nat.sub_0_r. by rewrite substring_all.
    + cbn in Hi. destruct (IH i) as [pre Hpre]; [lia|].
      exists (String c pre). rewrite app_String.
      cbn [String.length String.substring Nat.sub]. by rewrite <- Hpre.
Qed.

Lemma endswith_app (a b : string) : Str.endswith (a +:+ b) b = true.
Proof.
  unfold Str.endswith. rewrite length_app_str.
  apply andb_true_iff. split; [apply Nat.leb_le; lia|].
  replace (String.length a + String.length b - String.length b)%nat
    with (String.length a) by lia.
  rewrite substring_skip. apply String.eqb_refl.
Qed.

Lemma endswith_inv (s suf : string) :
  Str.endswith s suf = true → ∃ pre, s = pre +:+ suf.
Proof.
  unfold Str.endswith. intros H. apply andb_true_iff in H as [Hle Heq].
  apply Nat.leb_le in Hle. apply String.eqb_eq in Heq.
  destruct (substring_suffix s (String.length s - String.length suf))
    as [pre Hpre]; [lia|].
  exists pre.
  replace (String.length s - (String.length s - String.length suf))%nat
    with (String.length suf) in Hpre by lia.
  by rewrite Heq in Hpre.
Qed.

(** A name that ends in one suffix does not end in another whose last
    characters differ. *)
Ltac no_suffix :=
  let H := fresh in
  apply not_true_is_false; intros H;
  apply endswith_inv in H as [? H];
  apply (f_equal Regex.chars) in H; rewrite !chars_app in H;
  apply (f_equal (@rev ascii)) in H; rewrite !rev_app_distr in H;
  simpl in H; discriminate H.

(** *** The XML branch *)






Lemma map_lookup {A B} (f : A → B) (l : list A) (i : nat) :
  map f l !! i = f <$> l !! i.
Proof.
  revert i. induction l as [|x l IH]; intros [|i]; try done. apply IH.
Qed.


(** *** The default of the mapping *)

Lemma index_of_spec (c : string) (l : list string) :
  existsb (String.eqb c) l = true →
  ∃ i, index_of c l = Some i ∧ l !! i = Some c.
Proof.
  induction l as [|x l IH]; [done|]. cbn [existsb index_of].
  rewrite (String.eqb_sym c x).
  destruct (String.eqb_spec x c) as [->|Hne].
  - intros _. by exists 0%nat.
  - cbn [orb]. intros H. destruct (IH H) as (i & -> & Hi).
    by exists (S i).
Qed.

End AppMore.

Import NumericFacts ProfilerMore CorrelationMore PblMore ChatMore AppMore.

(** * The claims *)

(** Claim C1.  For every column of the input dataset, the record that
    [profile_dataframe] returns under the column's name is the record of a
    column of that name: its [count] is the length of the column, its
    [nulls] the number of missing cells, and [nulls] plus the number of
    non-missing cells equals [count].  The call returns whenever the
    isolation forest does. *)
Theorem c1_nulls_plus_non_null_is_count `{RT : Runtime} (df : DataFrame) (g : rng) :
  (∀ p g', profile_dataframe df g = Ok (p, g') →
     ∀ col, In col (map fst df) →
       ∃ st s, dict_get (columns_overview p) col = Some st
               ∧ In (col, s) df
               ∧ st_count st = len s
               ∧ st_nulls st = isna_sum s
               ∧ (st_nulls st + count s = st_count st)%Z)
  ∧ (∀ anomalies, isolation_anomaly_scores df 100 = Ok anomalies →
       ∃ p g', profile_dataframe df g = Ok (p, g')).
Proof.
  split; [|apply profile_dataframe_returns].
  intros p g' Hp col Hcol.
  destruct (profile_dataframe_Ok df g p g' Hp) as [_ Hcols].
  destruct (Hcols col Hcol) as (st & s & Hget & Hin & Hc & Hn & _).
  exists st, s. repeat split; auto.
  rewrite Hn, Hc. apply isna_sum_count.
Qed.

Lemma c1_witness :
  ∃ p g', profile_dataframe (RT := Demo.runtime) demo_table [] = Ok (p, g')
    ∧ ∀ col, In col (map fst demo_table) →
        ∃ st s, dict_get (columns_overview p) col = Some st
                ∧ In (col, s) demo_table
                ∧ st_count st = len s
                ∧ st_nulls st = isna_sum s
                ∧ (st_nulls st + count s = st_count st)%Z.
Proof.
  destruct (proj2 (c1_nulls_plus_non_null_is_count (RT := Demo.runtime)
                     demo_table []) _ eq_refl) as (p & g' & Hp).
  exists p, g'. split; [exact Hp|].
  exact (proj1 (c1_nulls_plus_non_null_is_count (RT := Demo.runtime)
                  demo_table []) p g' Hp).
Defined.

(** Claim C2.  [compute_outliers] returns the method "none" with count 0
    when coercion and null-dropping leave no number.  Otherwise it
    returns the method "IQR" with the bounds [Q1 - 1.5 * IQR] and
    [Q3 + 1.5 * IQR], where [IQR = Q3 - Q1] and [Q1], [Q3] are the
    quantiles of levels 0.25 and 0.75 of the numbers, every operation
    being rounded to binary64, and with the number of values strictly
    below the lower or strictly above the upper bound.  It is a total
    function of the column, whatever the cells hold.

    The quartiles are those of the library.  When it interpolates
    linearly, the column [1, 2, 3, 4] has the quartiles 1.75 and 3.25,
    hence the bounds -0.5 and 5.5 and no outlier.  On
    [2.1, 2.7, 1.5, 2.1] the quartiles are 1.9500000000000002 and 2.25,
    and the rounding of the floats puts the bounds at 1.5000000000000004
    and 2.6999999999999997, so that 1.5 and 2.7 are both counted.  On
    [0, 1, 1, 1, 1] both bounds are 1 and only the 0 is counted: a value
    on a bound is no outlier.  The bounds of a column that holds nothing
    but an infinity are not numbers, and nothing is counted. *)
Theorem c2_compute_outliers `{RT : Runtime} (series : Series) :
  let s := dropna (to_numeric series) in
  let q1 := Float64.normalize (quantile (array s) (1 # 4)) in
  let q3 := Float64.normalize (quantile (array s) (3 # 4)) in
  let iqr := Float64.sub q3 q1 in
  let lower_bound :=
    Float64.sub q1 (Float64.mul (Float64.Fin (3 # 2)) iqr) in
  let upper_bound :=
    Float64.add q3 (Float64.mul (Float64.Fin (3 # 2)) iqr) in
  (array s = [] → compute_outliers series = mkOutliers "none" 0 None None)
  ∧ (array s ≠ [] →
     compute_outliers series
     = mkOutliers "IQR"
         (Z.of_nat
            (length
               (List.filter
                  (λ x, Float64.ltb x lower_bound
                        || Float64.ltb upper_bound x)
                  (floats s))))
         (Some lower_bound) (Some upper_bound))
  ∧ ((∀ xs p, quantile xs p = Float64.linear_quantile xs p) →
     compute_outliers (mkSeries int64 [Int 1; Int 2; Int 3; Int 4])
     = mkOutliers "IQR" 0 (Some (Float64.Fin (-1 # 2)))
                          (Some (Float64.Fin (11 # 2)))
     ∧ compute_outliers
         (mkSeries float64
            [Float (21 # 10); Float (27 # 10); Float (15 # 10);
             Float (21 # 10)])
       = mkOutliers "IQR" 2
           (Some (Float64.of_Q (15000000000000004 # 10000000000000000)))
           (Some (Float64.of_Q (26999999999999997 # 10000000000000000)))
     ∧ compute_outliers (mkSeries int64 [Int 0; Int 1; Int 1; Int 1; Int 1])
       = mkOutliers "IQR" 1 (Some (Float64.Fin 1)) (Some (Float64.Fin 1))
     ∧ compute_outliers (mkSeries float64 [Infinity false])
       = mkOutliers "IQR" 0 (Some Float64.Nan) (Some Float64.Nan)).
Proof.
  intros s q1 q3 iqr lower_bound upper_bound. split; [|split].
  - intros Hxs. unfold compute_outliers.
    apply empty_dropna_to_numeric in Hxs. by rewrite Hxs.
  - intros Hxs. unfold compute_outliers.
    destruct (empty (dropna (to_numeric series))) eqn:He.
    { apply empty_dropna_to_numeric in He. done. }
    reflexivity.
  - intros Hq.
    repeat split; unfold compute_outliers; cbv zeta; rewrite !Hq;
      vm_compute; reflexivity.
Qed.

Lemma c2_witness :
  compute_outliers (RT := Demo.runtime) (mkSeries object [Str "n/a"; PyNone])
  = mkOutliers "none" 0 None None
  ∧ compute_outliers (RT := Demo.runtime) demo_amounts
    = mkOutliers "IQR" 1 (Some (Float64.Fin (-1))) (Some (Float64.Fin 7))
  ∧ compute_outliers (RT := Demo.runtime)
      (mkSeries int64 [Int 1; Int 2; Int 3; Int 4])
    = mkOutliers "IQR" 0 (Some (Float64.Fin (-1 # 2)))
                         (Some (Float64.Fin (11 # 2))).
Proof.
  split; [|split].
  - apply (proj1 (c2_compute_outliers (RT := Demo.runtime)
                    (mkSeries object [Str "n/a"; PyNone]))).
    reflexivity.
  - rewrite (proj1 (proj2 (c2_compute_outliers (RT := Demo.runtime)
                             demo_amounts)))
      by (vm_compute; discriminate).
    vm_compute. reflexivity.
  - apply (proj2 (proj2 (c2_compute_outliers (RT := Demo.runtime)
                           demo_amounts))).
    reflexivity.
Defined.

(** The example of C2 carried out: quartiles 2 and 4, bounds -1 and 7, and
    the single outlier 100. *)
Example c2_demo_amounts :
  Float64.linear_quantile
    (array (dropna (to_numeric (RT := Demo.runtime) demo_amounts))) (1 # 4)
  = Float64.Fin 2
  ∧ Float64.linear_quantile
      (array (dropna (to_numeric (RT := Demo.runtime) demo_amounts))) (3 # 4)
    = Float64.Fin 4
  ∧ compute_outliers (RT := Demo.runtime) demo_amounts
    = mkOutliers "IQR" 1 (Some (Float64.Fin (-1))) (Some (Float64.Fin 7)).
Proof. repeat split; vm_compute; reflexivity. Qed.

(** Claim C3.  [detect_pattern] labels a column "empty" when all its cells
    are missing.  A column of at most 500 rows that has a non-missing cell
    and whose non-missing values, as strings, all match [\d+] in full is
    labelled "numeric", whatever the random draws.  In general, for a
    column with a non-missing cell, the label is the one the specification
    gives for the sample drawn: the matched categories in lexicographic
    order joined by a comma and a space, or "mixed" if there is none; the
    sample is non-empty and drawn without replacement from the stringified
    non-missing cells. *)
Theorem c3_detect_pattern `{RT : Runtime} (series : Series) (g : rng) :
  (Forall (λ c, isna_cell c = true) (values series) →
   (detect_pattern series 500 g).1 = "empty")
  ∧ (values (dropna series) ≠ [] →
     (length (values series) ≤ 500)%nat →
     Forall (λ v, Regex.fullmatch Regex.re_digits v = true)
            (tolist_str (dropna series)) →
     (detect_pattern series 500 g).1 = "numeric")
  ∧ (values (dropna series) ≠ [] →
     let smp :=
       (sample (Nat.min (length (values (dropna series))) 500)
               (astype_str (dropna series)) g).1 in
     values smp ≠ []
     ∧ values smp ⊆+ values (astype_str (dropna series))
     ∧ (detect_pattern series 500 g).1 = spec_label (tolist_str smp)).
Proof.
  assert (Hsample : values (dropna series) ≠ [] →
    let smp :=
      (sample (Nat.min (length (values (dropna series))) 500)
              (astype_str (dropna series)) g).1 in
    values smp ≠ []
    ∧ values smp ⊆+ values (astype_str (dropna series))
    ∧ (detect_pattern series 500 g).1 = spec_label (tolist_str smp)).
  { intros Hne smp. split; [|split].
    - intros Hnil. apply (f_equal length) in Hnil. unfold smp in Hnil.
      rewrite sample_length, astype_str_length in Hnil.
      destruct (values (dropna series)); [done|]. simpl in Hnil. lia.
    - unfold smp. rewrite sample_values. apply choose_submseteq.
    - by apply detect_pattern_sampled. }
  split; [apply detect_pattern_empty|]. split; [|exact Hsample].
  intros Hne _ Hall. destruct (Hsample Hne) as (Hsmp & Hsub & ->).
  apply spec_label_digits.
  - unfold tolist_str. intros Hnil. apply map_eq_nil in Hnil. done.
  - rewrite Forall_forall. intros v Hv.
    unfold tolist_str in Hv. apply list_elem_of_fmap in Hv as (c & -> & Hc).
    eapply elem_of_submseteq in Hc; [|exact Hsub].
    unfold astype_str in Hc. simpl in Hc.
    apply list_elem_of_fmap in Hc as (c' & -> & Hc'). simpl.
    rewrite Forall_forall in Hall. apply Hall.
    unfold tolist_str. apply list_elem_of_fmap. eauto.
Qed.

Lemma c3_witness :
  (detect_pattern (RT := Demo.runtime) (mkSeries float64 [NaN; NaN]) 500 [4; 1]).1
  = "empty"
  ∧ (detect_pattern (RT := Demo.runtime) demo_codes 500 [4; 1]).1 = "numeric"
  ∧ (detect_pattern (RT := Demo.runtime) demo_codes 500 [4; 1]).1
    = spec_label
        (tolist_str (RT := Demo.runtime)
           (sample (Nat.min (length (values (dropna demo_codes))) 500)
                   (astype_str (RT := Demo.runtime) (dropna demo_codes))
                   [4; 1]).1).
Proof.
  split; [|split].
  - apply (proj1 (c3_detect_pattern (RT := Demo.runtime)
                    (mkSeries float64 [NaN; NaN]) [4; 1]%nat)).
    repeat constructor.
  - apply (proj1 (proj2 (c3_detect_pattern (RT := Demo.runtime)
                           demo_codes [4; 1]%nat))).
    + vm_compute. discriminate.
    + vm_compute. lia.
    + repeat constructor.
  - apply (proj2 (proj2 (c3_detect_pattern (RT := Demo.runtime)
                           demo_codes [4; 1]%nat))).
    vm_compute. discriminate.
Defined.

(** Claim C4 (the code departs from it).  The null rule is computed from
    the two series after [dropna().astype(str)], which have no missing
    cell, so whatever the reference column holds the rule emitted is
    "Nulls are NOT allowed (reference has no nulls)."; on the reference
    ["A", None] the rule "Nulls allowed (reference permits nulls)." does
    not appear. *)
Theorem c4_null_rule_ignores_reference_nulls `{RT : Runtime} :
  (∀ target reference : Series,
      null_rules (astype_str (dropna target)) (astype_str (dropna reference))
      = ["Nulls are NOT allowed (reference has no nulls)."])
  ∧ derive_rules_from_reference
      (mkSeries object [Str "A"]) (mkSeries object [Str "A"; PyNone])
      (95 # 100) 500 []
    = Ok (["Nulls are NOT allowed (reference has no nulls).";
             "Reference values are unique — consider as reference key.";
             "Allowed values derived from reference (enumeration of 1 values).";
             "Allowed values (sample): A";
             "Fraction of target values present in reference: 1.00";
             "Suggested pattern (regex): `^.{1,1}$`";
             "Reference distinct count: 1";
             "Target distinct count: 1";
             "Values in this dataset are unique — candidate key."], []).
Proof.
  split.
  - intros target reference. unfold null_rules.
    by rewrite !astype_str_isna_sum.
  - vm_compute. reflexivity.
Qed.



(** Claim C6 (the code departs from it).  The dtype test of lines 153 to
    159 is made on the stringified series, whose dtype is never numeric:
    no numeric range rule is ever emitted.  On the integer columns
    [1, 2, 3] and [1, 2, 3, 4] the rules hold no range. *)
Theorem c6_numeric_range_never_emitted `{RT : Runtime} :
  (∀ target reference : Series,
      range_rules (astype_str (dropna target)) (astype_str (dropna reference))
      = [])
  ∧ derive_rules_from_reference
      (mkSeries int64 [Int 1; Int 2; Int 3])
      (mkSeries int64 [Int 1; Int 2; Int 3; Int 4])
      (95 # 100) 500 []
    = Ok (["Nulls are NOT allowed (reference has no nulls).";
             "Reference values are unique — consider as reference key.";
             "Allowed values derived from reference (enumeration of 4 values).";
             "Allowed values (sample): 1, 2, 3, 4";
             "Fraction of target values present in reference: 1.00";
             "Suggested pattern (regex): `^\d+$`";
             "Reference distinct count: 4";
             "Target distinct count: 3";
             "Values in this dataset are unique — candidate key."], []).
Proof.
  split.
  - intros target reference. reflexivity.
  - vm_compute. reflexivity.
Qed.

(** Claim C7.  For the column ["1", "2", "3", None] the generator puts
    "Nulls are allowed." first (one cell is missing), takes the
    numeric-only branch (every non-missing value matches [\d+] in full,
    a fraction of 1 against the threshold 0.98) and emits the
    character-length rule with minimum 1 and maximum 1. *)
Theorem c7_digits_with_none `{RT : Runtime} :
  generate_pbl_for_column digits_with_none
  = Ok ["Nulls are allowed.";
          "Only numeric characters allowed.";
          "Character length between 1 and 1.";
          "No special characters or alphabets allowed.";
          "Values are unique — consider as candidate key."]
  ∧ isna_sum digits_with_none = 1%Z
  ∧ mean_bool (map (Regex.fullmatch Regex.re_digits)
                   (tolist_str (astype_str (dropna digits_with_none))))
    = Some (3 # 3)
  ∧ is_numeric_only digits_with_none (98 # 100) = true
  ∧ infer_length_rules digits_with_none
    = Some (mkLengthRules 1 1 (Some 1%Z)).
Proof. repeat split; vm_compute; reflexivity. Qed.



(** Claim C9, as amended.  Every cardinality ratio is computed with
    [max(1, n)] as its denominator, so the division never raises: one
    turn of the profiler's loop and both rule generators return on every
    input, the zero-length column included, and [profile_dataframe]
    raises only what the isolation forest raises.  The profiler emits the
    low-cardinality insight of a column exactly when the column has a
    non-numeric dtype and the guarded ratio is below 0.02; either rule
    generator emits its low-cardinality rule exactly when the distinct
    count differs from the non-null count and the guarded ratio is below
    0.02. *)
Theorem c9_guarded_ratio_and_low_cardinality `{RT : Runtime} :
  (∀ a b : Z,
      truediv a (Z.max 1 b) = Ok (inject_Z a / inject_Z (Z.max 1 b))%Q)
  ∧ (∀ (df : DataFrame) (g : rng) (e : exn),
      profile_dataframe df g = Raise e →
      isolation_anomaly_scores df 100 = Raise e)
  ∧ (∀ (col : string) (s : Series) (g : rng),
      ∃ st ins g',
        profile_column col s g = Ok (st, ins, g')
        ∧ (In (low_cardinality_insight col (nunique s)) ins
           ↔ is_numeric_dtype s = false
             ∧ Qlt_bool (inject_Z (nunique s) / inject_Z (Z.max 1 (len s)))
                        (2 # 100) = true))
  ∧ (∀ series : Series,
      ∃ rules,
        generate_pbl_for_column series = Ok rules
        ∧ (In low_cardinality_rule rules
           ↔ nunique series ≠ len (dropna series)
             ∧ Qlt_bool (inject_Z (nunique series)
                         / inject_Z (Z.max 1 (len series))) (2 # 100) = true))
  ∧ (∀ (target reference : Series) (enum_threshold : Q) (sample_size : nat)
       (g : rng),
      let t := astype_str (dropna target) in
      ∃ rules g',
        derive_rules_from_reference target reference enum_threshold
                                    sample_size g = Ok (rules, g')
        ∧ (In low_cardinality_target_rule rules
           ↔ nunique t ≠ len t
             ∧ Qlt_bool (inject_Z (nunique t) / inject_Z (Z.max 1 (len t)))
                        (2 # 100) = true)).
Proof.
  split; [apply truediv_max1|].
  split; [apply profile_dataframe_Raise|].
  split; [apply low_cardinality_insight_emitted|].
  split; [apply low_cardinality_rule_emitted|].
  apply low_cardinality_target_rule_emitted.
Qed.

Lemma c9_witness :
  isolation_anomaly_scores (RT := Demo.runtime) no_rows 100 = Raise ValueError.
Proof.
  apply (proj1 (proj2 (c9_guarded_ratio_and_low_cardinality
                         (RT := Demo.runtime))) no_rows [] ValueError).
  vm_compute. reflexivity.
Defined.

(** The claim C9 as it stands fails: on the column [None] the guarded
    ratio is 0, below 0.02, and no low-cardinality rule is emitted (the
    column counts as a candidate key). *)
Lemma c9_counterexample :
  ¬ (∀ (RT : Runtime) (series : Series) (rules : list string) (ratio : Q),
        generate_pbl_for_column series = Ok rules →
        truediv (nunique series) (Z.max 1 (len series)) = Ok ratio →
        (In low_cardinality_rule rules ↔ Qlt_bool ratio (2 # 100) = true)).
Proof.
  intros H.
  specialize (H Demo.runtime (mkSeries object [PyNone])
                ["Nulls are allowed.";
                 "Avoid special characters unless required (/, -, : etc).";
                 "Values are unique — consider as candidate key."]
                (0 / 1)%Q eq_refl eq_refl).
  destruct H as [_ H]. specialize (H eq_refl).
  simpl in H. decompose [or] H; first [done|discriminate].
Qed.

(** Claim C10, as amended.  For every column that has at least one cell
    and whose cells are all missing, the generator returns exactly the
    three rules below: the length helper returns [None], so no length rule
    is emitted, and the uniqueness test succeeds because the distinct
    count and the non-null count are both 0. *)
Theorem c10_all_missing_column `{RT : Runtime} (series : Series) :
  values series ≠ [] →
  Forall (λ c, isna_cell c = true) (values series) →
  generate_pbl_for_column series
  = Ok ["Nulls are allowed.";
          "Avoid special characters unless required (/, -, : etc).";
          "Values are unique — consider as candidate key."]
  ∧ infer_length_rules series = None
  ∧ nunique series = 0%Z
  ∧ len (dropna series) = 0%Z.
Proof.
  intros Hne Hall.
  assert (Hdrop : dropna series = mkSeries (dtype_of series) [])
    by (by apply dropna_all_missing).
  assert (Hlen : infer_length_rules series = None).
  { unfold infer_length_rules. by rewrite Hdrop. }
  assert (Hnu : nunique series = 0%Z).
  { unfold nunique. by rewrite Hdrop. }
  assert (Hnulls : (0 <? isna_sum series)%Z = true).
  { apply Z.ltb_lt. unfold isna_sum.
    rewrite filter_isna_all_missing by done.
    destruct (values series); [done|]. simpl. lia. }
  repeat split; try done; [|by rewrite Hdrop].
  destruct (generate_pbl_for_column_total series) as (last & Hlast & ->).
  rewrite uniqueness_rules_total, Hnu, Hdrop in Hlast.
  injection Hlast as <-. rewrite Hnulls. simpl.
  unfold class_rules, is_numeric_only, is_alpha_only.
  rewrite Hlen, Hdrop. reflexivity.
Qed.

Lemma c10_witness :
  generate_pbl_for_column (RT := Demo.runtime) (mkSeries float64 [NaN; NaN])
  = Ok ["Nulls are allowed.";
          "Avoid special characters unless required (/, -, : etc).";
          "Values are unique — consider as candidate key."]
  ∧ infer_length_rules (RT := Demo.runtime) (mkSeries float64 [NaN; NaN]) = None
  ∧ nunique (mkSeries float64 [NaN; NaN]) = 0%Z
  ∧ len (dropna (mkSeries float64 [NaN; NaN])) = 0%Z.
Proof.
  apply (c10_all_missing_column (RT := Demo.runtime)
           (mkSeries float64 [NaN; NaN])).
  - simpl. discriminate.
  - simpl. repeat constructor.
Defined.

(** The claim C10 as it stands fails on the column without cells: none
    of its cells is present, yet its first rule is "Nulls are NOT
    allowed.". *)
Lemma c10_counterexample :
  ¬ (∀ (RT : Runtime) (series : Series),
        Forall (λ c, isna_cell c = true) (values series) →
        generate_pbl_for_column series
        = Ok ["Nulls are allowed.";
                "Avoid special characters unless required (/, -, : etc).";
                "Values are unique — consider as candidate key."]).
Proof.
  intros H.
  specialize (H Demo.runtime (mkSeries object []) (List.Forall_nil _)).
  vm_compute in H. discriminate H.
Qed.

(** * Further properties *)

(** Extra X1.  When the column has a non-missing cell and no more
    non-missing cells than [sample_n], the sample is the whole column in
    some order and the label of [detect_pattern] is the label of all its
    values: it does not depend on the random state. *)
Theorem x1_detect_pattern_full_sample `{RT : Runtime}
    (series : Series) (sample_n : nat) (g : rng) :
  values (dropna series) ≠ [] →
  (length (values (dropna series)) ≤ sample_n)%nat →
  (detect_pattern series sample_n g).1
  = spec_label (tolist_str (dropna series)).
Proof.
  intros Hne Hlen. rewrite detect_pattern_sampled by done.
  apply spec_label_Permutation.
  rewrite <- (tolist_str_astype_str (dropna series)).
  unfold tolist_str. apply fmap_Permutation.
  rewrite sample_values. apply choose_all_Permutation.
  rewrite astype_str_length. lia.
Qed.

Lemma x1_witness :
  (detect_pattern (RT := Demo.runtime) demo_codes 3 [2; 2; 7]).1
  = spec_label (tolist_str (RT := Demo.runtime) (dropna demo_codes)).
Proof.
  apply (x1_detect_pattern_full_sample (RT := Demo.runtime) demo_codes 3
           [2; 2; 7]%nat).
  - vm_compute. discriminate.
  - vm_compute. lia.
Defined.

(** Extra X2.  The label of [detect_pattern] is "empty", or "mixed", or
    the names of some of the four categories, in the order alpha,
    date-like, email-like, numeric, joined by a comma and a space. *)
Theorem x2_detect_pattern_labels `{RT : Runtime}
    (series : Series) (sample_n : nat) (g : rng) :
  (detect_pattern series sample_n g).1 = "empty"
  ∨ ∃ cats,
      cats `sublist_of` ["alpha"; "date-like"; "email-like"; "numeric"]
      ∧ (detect_pattern series sample_n g).1
        = match cats with [] => "mixed" | _ => Text.join ", " cats end.
Proof.
  destruct (values (dropna series)) as [|c l] eqn:Hv.
  - left. unfold detect_pattern. rewrite astype_str_empty.
    unfold empty. by rewrite Hv.
  - right. rewrite detect_pattern_sampled by (rewrite Hv; done).
    set (vs := tolist_str _).
    exists (matched_categories vs). split.
    + unfold matched_categories.
      change ["alpha"; "date-like"; "email-like"; "numeric"]
        with (map fst categories).
      apply map_sublist, filter_sublist.
    + unfold spec_label. by destruct (matched_categories vs).
Qed.

(** Extra X3.  When both quartiles of a column are the same finite
    float [c], [compute_outliers] reports the method "IQR" with both
    bounds equal to [c], and counts the values that differ from [c].  The
    linearly interpolated quartiles of a column whose numbers are all
    equal are that number: such a column has no outlier, and its bounds
    are the float of its number when that is finite. *)
Theorem x3_constant_column_has_no_outlier `{RT : Runtime}
    (series : Series) (c : Q) :
  let s := dropna (to_numeric series) in
  array s ≠ [] →
  (Float64.normalize (quantile (array s) (1 # 4)) = Float64.Fin c →
   Float64.normalize (quantile (array s) (3 # 4)) = Float64.Fin c →
   compute_outliers series
   = mkOutliers "IQR"
       (Z.of_nat
          (length
             (List.filter
                (λ x, Float64.ltb x (Float64.Fin c)
                      || Float64.ltb (Float64.Fin c) x)
                (floats s))))
       (Some (Float64.Fin c)) (Some (Float64.Fin c)))
  ∧ ((∀ xs p, quantile xs p = Float64.linear_quantile xs p) →
     ∀ v, Forall (λ x, x = Float64.Fin v) (array s) →
          Float64.of_Q v = Float64.Fin c →
          compute_outliers series
          = mkOutliers "IQR" 0 (Some (Float64.Fin c)) (Some (Float64.Fin c))).
Proof.
  intros s Hne.
  assert (Hgen :
    Float64.normalize (quantile (array s) (1 # 4)) = Float64.Fin c →
    Float64.normalize (quantile (array s) (3 # 4)) = Float64.Fin c →
    compute_outliers series
    = mkOutliers "IQR"
        (Z.of_nat
           (length
              (List.filter
                 (λ x, Float64.ltb x (Float64.Fin c)
                       || Float64.ltb (Float64.Fin c) x)
                 (floats s))))
        (Some (Float64.Fin c)) (Some (Float64.Fin c))).
  { intros H1 H3. rewrite (compute_outliers_IQR series Hne).
    fold s. rewrite H1, H3.
    assert (Hc : Float64.of_Q c = Float64.Fin c).
    { pose proof (Float64Facts.normalize_idem
                    (quantile (array s) (1 # 4))) as Hi.
      by rewrite H1 in Hi. }
    rewrite Float64Facts.sub_self, Float64Facts.mul_zero_r.
    by rewrite (Float64Facts.sub_zero_r c Hc), (Float64Facts.add_zero_r c Hc). }
  split; [exact Hgen|].
  intros Hq v Hall Hv.
  assert (Hc : Float64.of_Q c = Float64.Fin c)
    by (by apply (Float64Facts.of_Q_idem v)).
  assert (Hquant : ∀ p, Float64.normalize (quantile (array s) p)
                        = Float64.Fin c).
  { intros p.
    rewrite Hq, (Float64Facts.linear_quantile_constant _ v) by done.
    by rewrite Hv. }
  rewrite (Hgen (Hquant _) (Hquant _)). do 2 f_equal.
  rewrite filter_none; [done|].
  unfold floats. apply Forall_map.
  eapply Forall_impl; [exact Hall|]. intros x ->. simpl. rewrite Hv. simpl.
  apply orb_false_iff. split; apply negb_false_iff, Qle_bool_iff, Qle_refl.
Qed.

Lemma x3_witness :
  compute_outliers (RT := Demo.runtime)
    (mkSeries object [Str "7"; PyNone; Str "7.0"; Str "seven"])
  = mkOutliers "IQR" 0 (Some (Float64.Fin 7)) (Some (Float64.Fin 7)).
Proof.
  refine (proj2 (x3_constant_column_has_no_outlier (RT := Demo.runtime)
                   (mkSeries object [Str "7"; PyNone; Str "7.0"; Str "seven"])
                   7%Q _) _ 7%Q _ _).
  - vm_compute. discriminate.
  - reflexivity.
  - vm_compute. repeat constructor.
  - vm_compute. reflexivity.
Defined.

(** Extra X4.  [compute_outliers] never counts a value that lies between
    the two quartiles: its count is at most the number of values strictly
    below [Q1] or strictly above [Q3], hence at most the number of
    values. *)
Theorem x4_outliers_lie_outside_the_quartiles `{RT : Runtime}
    (series : Series) (q1 q3 : Float64.t) :
  let xs := floats (dropna (to_numeric series)) in
  Float64.normalize (quantile (array (dropna (to_numeric series))) (1 # 4))
  = q1 →
  Float64.normalize (quantile (array (dropna (to_numeric series))) (3 # 4))
  = q3 →
  (out_count (compute_outliers series)
   ≤ Z.of_nat
       (length (List.filter (λ x, Float64.ltb x q1 || Float64.ltb q3 x) xs)))%Z
  ∧ (out_count (compute_outliers series) ≤ Z.of_nat (length xs))%Z.
Proof.
  intros xs Hq1 Hq3.
  destruct (array (dropna (to_numeric series))) as [|x0 l] eqn:Harr.
  { apply empty_dropna_to_numeric in Harr. unfold compute_outliers.
    rewrite Harr. simpl. lia. }
  rewrite compute_outliers_IQR by (by rewrite Harr).
  rewrite Harr, Hq1, Hq3. fold xs. cbn [out_count].
  assert (Hn1 : Float64.normalize q1 = q1)
    by (rewrite <- Hq1; apply Float64Facts.normalize_idem).
  assert (Hn3 : Float64.normalize q3 = q3)
    by (rewrite <- Hq3; apply Float64Facts.normalize_idem).
  split; apply inj_le; [|apply filter_length_all].
  apply filter_length_le_In. intros x Hx.
  apply outside_fences; [done|done|]. by apply (floats_not_nan _ x Hx).
Qed.

Lemma x4_witness :
  (out_count (compute_outliers (RT := Demo.runtime) demo_amounts)
   ≤ Z.of_nat
       (length
          (List.filter
             (λ x, Float64.ltb x (Float64.Fin 2)
                   || Float64.ltb (Float64.Fin 4) x)
             (floats (dropna (to_numeric (RT := Demo.runtime)
                                         demo_amounts))))))%Z
  ∧ (out_count (compute_outliers (RT := Demo.runtime) demo_amounts)
     ≤ Z.of_nat
         (length (floats (dropna (to_numeric (RT := Demo.runtime)
                                             demo_amounts)))))%Z.
Proof.
  apply (x4_outliers_lie_outside_the_quartiles (RT := Demo.runtime)
           demo_amounts (Float64.Fin 2) (Float64.Fin 4));
    vm_compute; reflexivity.
Defined.

(** Extra X5.  For a column of a numeric dtype, the record of
    [profile_dataframe]'s loop holds the five statistics together or not
    at all.  With at least one value, the minimum and the maximum are
    floats of the column, no value lies below the minimum or above the
    maximum, so [min <= max], and the mean, the median and the standard
    deviation are the floats the library returns; without a value the
    five are [None]. *)
Theorem x5_numeric_stats_are_ordered `{RT : Runtime}
    (col : string) (s : Series) (g : rng) st ins g' :
  profile_column col s g = Ok (st, ins, g') →
  is_numeric_dtype s = true →
  let xs := array (to_numeric s) in
  ∃ ns,
    st_numeric st = Some ns
    ∧ (count (to_numeric s) = 0%Z →
       st_min ns = None ∧ st_max ns = None ∧ st_mean ns = None
       ∧ st_median ns = None ∧ st_std ns = None)
    ∧ ((0 < count (to_numeric s))%Z →
       ∃ lo hi,
         st_min ns = Some lo ∧ st_max ns = Some hi
         ∧ In lo (floats (to_numeric s)) ∧ In hi (floats (to_numeric s))
         ∧ (∀ x, In x (floats (to_numeric s)) →
                 Float64.leb lo x = true ∧ Float64.leb x hi = true)
         ∧ Float64.leb lo hi = true
         ∧ st_mean ns = Some (Float64.normalize (mean xs))
         ∧ st_median ns = Some (Float64.normalize (median xs))
         ∧ st_std ns = Some (Float64.normalize (std xs))).
Proof.
  intros Hrun Hnum xs. unfold profile_column in Hrun.
  destruct (detect_pattern s 500 g) as [patterns g1].
  rewrite Hnum in Hrun. injection Hrun as <- _ _.
  eexists. split; [reflexivity|]. cbn [st_min st_max st_mean st_median st_std].
  split.
  - intros ->. done.
  - intros Hcount.
    assert (Hne : xs ≠ []).
    { rewrite count_to_numeric in Hcount. intros Hnil. unfold xs in Hnil.
      rewrite Hnil in Hcount. simpl in Hcount. lia. }
    assert (Hnan : Forall (λ y, y ≠ Float64.Nan) xs).
    { apply List.Forall_forall. intros x Hx. by apply (array_not_nan _ x Hx). }
    destruct (extremes_spec xs Hne Hnan) as (H1 & H2 & H3 & H4).
    apply Z.ltb_lt in Hcount. rewrite Hcount.
    eexists _, _. repeat split; try reflexivity; try done.
    + by apply H3.
    + by apply H3.
Qed.

Lemma x5_witness :
  ∃ st ins g' ns lo hi,
    profile_column (RT := Demo.runtime) "amount"
      (mkSeries float64 [Float 4; NaN; Float 1; Float 10]) [] = Ok (st, ins, g')
    ∧ st_numeric st = Some ns
    ∧ st_min ns = Some lo ∧ st_max ns = Some hi
    ∧ Float64.leb lo hi = true.
Proof.
  destruct (profile_column_total (RT := Demo.runtime) "amount"
              (mkSeries float64 [Float 4; NaN; Float 1; Float 10]) [])
    as (st & ins & g' & Hrun & _).
  destruct (x5_numeric_stats_are_ordered (RT := Demo.runtime) _ _ _ _ _ _ Hrun
              eq_refl) as (ns & Hns & _ & H).
  destruct (H eq_refl) as (lo & hi & Hlo & Hhi & _ & _ & _ & Hle & _).
  exists st, ins, g', ns, lo, hi. auto.
Defined.

(** Extra X6.  When the column names are distinct, the keys of
    [columns_overview] are the column names of the dataset, in the order
    of the dataset. *)
Theorem x6_overview_keeps_column_order `{RT : Runtime}
    (df : DataFrame) (g : rng) p g' :
  NoDup (map fst df) →
  profile_dataframe df g = Ok (p, g') →
  map fst (columns_overview p) = map fst df.
Proof.
  intros Hnd Hrun.
  destruct (profile_dataframe_result df g) as (ov & ins & g1 & Hcols & Hp & _).
  rewrite Hp in Hrun.
  destruct (isolation_anomaly_scores df 100) as [anomalies|e]; simpl in Hrun;
    [|discriminate].
  injection Hrun as <- _. simpl.
  by apply (profile_columns_keys df [] [] g ov ins g1).
Qed.

Lemma x6_witness :
  ∃ p g',
    profile_dataframe (RT := Demo.runtime) demo_table [] = Ok (p, g')
    ∧ map fst (columns_overview p) = map fst demo_table.
Proof.
  destruct (profile_dataframe_returns (RT := Demo.runtime) demo_table []
              _ eq_refl) as (p & g' & Hp).
  exists p, g'. split; [exact Hp|].
  apply (x6_overview_keeps_column_order (RT := Demo.runtime) demo_table []
           p g'); [|exact Hp].
  apply (bool_decide_unpack _). vm_compute. exact I.
Defined.

(** Extra X7.  The correlation matrix of a profile is symmetric: the
    entry of two column labels does not depend on their order. *)
Theorem x7_correlations_are_symmetric `{RT : Runtime}
    (df : DataFrame) (g : rng) p g' m (a b : string) :
  profile_dataframe df g = Ok (p, g') →
  correlations p = Some m →
  corr_entry m a b = corr_entry m b a.
Proof.
  intros Hrun Hm. apply profile_dataframe_Ok in Hrun as [Hc _].
  rewrite Hc in Hm. unfold correlations_of in Hm.
  destruct (1 <? _)%nat; [|done]. injection Hm as <-.
  rewrite !corr_entry_corr_round3.
  destruct (list_find (λ c : string * Series, c.1 = a) _) as [[i [a' sa]]|],
    (list_find (λ c : string * Series, c.1 = b) _) as [[j [b' sb]]|];
    try done.
  simpl. by rewrite pearson_sym.
Qed.

Lemma x7_witness :
  ∃ p g',
    profile_dataframe (RT := Demo.runtime) demo_opposed [] = Ok (p, g')
    ∧ correlations p = Some (corr_round3 (select_numeric demo_opposed))
    ∧ corr_entry (corr_round3 (select_numeric demo_opposed)) "up" "down"
      = corr_entry (corr_round3 (select_numeric demo_opposed)) "down" "up".
Proof.
  destruct (profile_dataframe_returns (RT := Demo.runtime) demo_opposed []
              _ eq_refl) as (p & g' & Hp).
  pose proof (proj1 (profile_dataframe_Ok _ _ _ _ Hp)) as Hm.
  exists p, g'. split; [exact Hp|]. split; [exact Hm|].
  exact (x7_correlations_are_symmetric (RT := Demo.runtime)
           demo_opposed [] p g' _ "up" "down" Hp Hm).
Defined.

(** Extra X8.  Every entry of the correlation matrix of a profile that is
    a number lies between -1 and 1, after the rounding to three places as
    well. *)
Theorem x8_correlations_lie_within_one `{RT : Runtime}
    (df : DataFrame) (g : rng) p g' m (a b : string) (r : R) :
  profile_dataframe df g = Ok (p, g') →
  correlations p = Some m →
  corr_entry m a b = Some r →
  (-1 <= r <= 1)%R.
Proof.
  intros Hrun Hm. apply profile_dataframe_Ok in Hrun as [Hc _].
  rewrite Hc in Hm. unfold correlations_of in Hm.
  destruct (1 <? _)%nat; [|done]. injection Hm as <-.
  rewrite corr_entry_corr_round3.
  destruct (list_find (λ c : string * Series, c.1 = a) _) as [[i [a' sa]]|];
    [|done].
  destruct (list_find (λ c : string * Series, c.1 = b) _) as [[j [b' sb]]|];
    [|done].
  simpl. destruct (pearson sa sb) as [x|] eqn:Hx; [|done].
  intros [= <-]. by eapply round3_bound, pearson_bound.
Qed.

Lemma x8_witness :
  ∃ p g' r,
    profile_dataframe (RT := Demo.runtime) demo_opposed [] = Ok (p, g')
    ∧ corr_entry (corr_round3 (select_numeric demo_opposed)) "up" "down"
      = Some r
    ∧ (-1 <= r <= 1)%R.
Proof.
  destruct (profile_dataframe_returns (RT := Demo.runtime) demo_opposed []
              _ eq_refl) as (p & g' & Hp).
  pose proof (proj1 (profile_dataframe_Ok _ _ _ _ Hp)) as Hm.
  assert (He : corr_entry (corr_round3 (select_numeric demo_opposed))
                 "up" "down" = Some (-1)%R).
  { cbn -[pearson round3]. rewrite pearson_up_down. simpl.
    by rewrite round3_minus_one. }
  exists p, g', (-1)%R. split; [exact Hp|]. split; [exact He|].
  exact (x8_correlations_lie_within_one (RT := Demo.runtime)
           demo_opposed [] p g' _ "up" "down" _ Hp Hm He).
Defined.

(** Extra X9.  A numeric column whose numbers are all equal, or that
    has none, has no correlation with any column: with distinct column
    names, every entry in its row and in its column of the correlation
    matrix is NaN, the one on the diagonal among them. *)
Theorem x9_constant_column_is_uncorrelated `{RT : Runtime}
    (df : DataFrame) (g : rng) p g' m (a b : string) (s : Series) :
  NoDup (map fst df) →
  In (a, s) df → is_numeric_dtype s = true →
  (∀ x y, In x (numbers s) → In y (numbers s) → (x == y)%Q) →
  profile_dataframe df g = Ok (p, g') →
  correlations p = Some m →
  corr_entry m a b = None ∧ corr_entry m b a = None.
Proof.
  intros Hnd Hin Hnum Hconst Hrun Hm.
  apply profile_dataframe_Ok in Hrun as [Hc _].
  rewrite Hc in Hm. unfold correlations_of in Hm.
  destruct (1 <? _)%nat; [|done]. injection Hm as <-.
  assert (Hin' : In (a, s) (select_numeric df)).
  { apply filter_In. by split. }
  destruct (list_find_key _ a s (select_numeric_NoDup df Hnd) Hin')
    as [i Hi].
  rewrite !corr_entry_corr_round3, Hi. cbn [mbind option_bind].
  destruct (list_find (λ c : string * Series, c.1 = b) (select_numeric df))
    as [[j [b' sb]]|]; cbn [mbind option_bind snd]; [|done].
  by rewrite (pearson_sym s sb), pearson_constant_l.
Qed.

Lemma x9_witness :
  ∃ p g' m,
    profile_dataframe (RT := Demo.runtime) demo_flat [] = Ok (p, g')
    ∧ correlations p = Some m
    ∧ corr_entry m "flat" "up" = None ∧ corr_entry m "up" "flat" = None.
Proof.
  destruct (profile_dataframe_returns (RT := Demo.runtime) demo_flat []
              _ eq_refl) as (p & g' & Hp).
  pose proof (proj1 (profile_dataframe_Ok _ _ _ _ Hp)) as Hm.
  exists p, g', (corr_round3 (select_numeric demo_flat)).
  split; [exact Hp|]. split; [exact Hm|].
  apply (x9_constant_column_is_uncorrelated (RT := Demo.runtime)
           demo_flat [] p g' _ "flat" "up"
           (mkSeries float64 [Float 5; NaN; Float 5])).
  - apply (bool_decide_unpack _). vm_compute. exact I.
  - right. left. reflexivity.
  - reflexivity.
  - intros x y [<-|[<-|[]]] [<-|[<-|[]]]; reflexivity.
  - exact Hp.
  - exact Hm.
Defined.

(** Extra X10.  A profile has no anomaly scores exactly when the dataset
    has no column of a numeric dtype; so a profile with a correlation
    matrix has anomaly scores as well. *)
Theorem x10_anomaly_scores_presence `{RT : Runtime}
    (df : DataFrame) (g : rng) p g' :
  profile_dataframe df g = Ok (p, g') →
  (anomaly_scores p = None ↔ select_numeric df = [])
  ∧ (correlations p ≠ None → anomaly_scores p ≠ None).
Proof.
  intros Hrun.
  pose proof (profile_dataframe_anomalies df g p g' Hrun) as Hiso.
  apply profile_dataframe_Ok in Hrun as [Hc _].
  rewrite Hc. unfold correlations_of.
  unfold isolation_anomaly_scores in Hiso.
  destruct (select_numeric df) as [|c l] eqn:Hn.
  - injection Hiso as <-. simpl. split; [done|]. by intros H.
  - destruct (decision_function _ _) as [scores|e]; simpl in Hiso; [|done].
    injection Hiso as <-. split; [|done]. split; done.
Qed.

Lemma x10_witness :
  ∃ p g',
    profile_dataframe (RT := Demo.runtime) demo_table [] = Ok (p, g')
    ∧ (anomaly_scores p = None ↔ select_numeric demo_table = [])
    ∧ (correlations p ≠ None → anomaly_scores p ≠ None).
Proof.
  destruct (profile_dataframe_returns (RT := Demo.runtime) demo_table []
              _ eq_refl) as (p & g' & Hp).
  exists p, g'. split; [exact Hp|].
  exact (x10_anomaly_scores_presence (RT := Demo.runtime)
           demo_table [] p g' Hp).
Defined.

(** Extra X11.  [infer_length_rules] returns [None] exactly when the
    column has no value.  Otherwise every value has a length between the
    minimum and the maximum returned, both are the length of some value,
    and the typical length is the length of some value that no other
    length occurs more often than. *)
Theorem x11_infer_length_rules `{RT : Runtime} (series : Series) :
  let lengths := map String.length (tolist_str (dropna series)) in
  (infer_length_rules series = None ↔ values (dropna series) = [])
  ∧ ∀ lr, infer_length_rules series = Some lr →
      (∀ n, In n lengths → (min_l lr ≤ Z.of_nat n ≤ max_l lr)%Z)
      ∧ (∃ n, In n lengths ∧ min_l lr = Z.of_nat n)
      ∧ (∃ n, In n lengths ∧ max_l lr = Z.of_nat n)
      ∧ (∃ n, In n lengths ∧ typical lr = Some (Z.of_nat n)
           ∧ ∀ k, In k lengths →
               (length (List.filter (Nat.eqb k) lengths)
                ≤ length (List.filter (Nat.eqb n) lengths))%nat).
Proof.
  intros lengths. split; [apply infer_length_rules_None|].
  intros lr Hlr.
  assert (Hne : lengths ≠ []).
  { intros Hnil. apply map_eq_nil, map_eq_nil in Hnil.
    apply infer_length_rules_None in Hnil. congruence. }
  revert Hlr. unfold infer_length_rules.
  rewrite tolist_str_astype_str. fold lengths.
  destruct (empty _); [done|]. intros [= <-]. cbn [min_l max_l typical].
  change (foldr Nat.min (hd 0%nat lengths) lengths) with (min_len lengths).
  split; [|split; [|split]].
  - intros n Hn. pose proof (min_len_le _ _ Hn). pose proof (max_list_ge _ _ Hn).
    lia.
  - exists (min_len lengths). split; [by apply min_len_In|done].
  - exists (max_list lengths). split; [by apply max_list_In|done].
  - pose proof (mode_nonempty lengths Hne) as Hm.
    destruct (mode lengths) as [|n ms] eqn:Hmode; [done|].
    destruct (mode_In lengths n) as [Hin Hmost]; [rewrite Hmode; by left|].
    exists n. split; [done|]. split; [done|]. exact Hmost.
Qed.

Lemma x11_witness :
  (∀ n, In n [3; 2; 4]%nat → (2 ≤ Z.of_nat n ≤ 4)%Z)
  ∧ (∃ n, In n [3; 2; 4]%nat ∧ 2%Z = Z.of_nat n)
  ∧ (∃ n, In n [3; 2; 4]%nat ∧ 4%Z = Z.of_nat n)
  ∧ (∃ n, In n [3; 2; 4]%nat ∧ Some 2%Z = Some (Z.of_nat n)
       ∧ ∀ k, In k [3; 2; 4]%nat →
           (length (List.filter (Nat.eqb k) [3; 2; 4]%nat)
            ≤ length (List.filter (Nat.eqb n) [3; 2; 4]%nat))%nat).
Proof.
  exact (proj2 (x11_infer_length_rules (RT := Demo.runtime) demo_codes)
               (mkLengthRules 2 4 (Some 2%Z)) eq_refl).
Defined.

(** Extra X12.  For a threshold above one half, the two tests
    [is_numeric_only] and [is_alpha_only] never both succeed: no value
    is made of digits only and of letters and spaces only, so the two
    fractions add up to at most 1.  With the threshold 0.98 of
    [generate_pbl_for_column], the rule of the alphabetic branch is emitted
    exactly when [is_alpha_only] holds, although the numeric test comes
    first. *)
Theorem x12_numeric_and_alpha_exclude_each_other `{RT : Runtime}
    (series : Series) :
  (∀ thr : Q,
      (1 # 2 < thr)%Q →
      is_numeric_only series thr = true → is_alpha_only series thr = false)
  ∧ (In "Alphabetic characters allowed only." (class_rules series)
     ↔ is_alpha_only series (98 # 100) = true).
Proof.
  assert (Hexcl : ∀ thr : Q,
      (1 # 2 < thr)%Q →
      is_numeric_only series thr = true → is_alpha_only series thr = false).
  { intros thr Hthr. unfold is_numeric_only, is_alpha_only.
    destruct (empty (astype_str (dropna series))); [done|].
    set (vs := tolist_str (astype_str (dropna series))).
    intros Hd. apply not_true_is_false. intros Ha.
    apply mean_bool_ge in Hd as [Hne Hd]. apply mean_bool_ge in Ha as [_ Ha].
    rewrite length_map in Hd, Ha.
    pose proof (sum_bool_exclusive
                  (Regex.fullmatch Regex.re_digits)
                  (Regex.fullmatch Regex.re_alpha) vs
                  (λ v H, proj1 (RegexFacts.digits_only_numeric v H))) as Hsum.
    assert (Hn : (0 < inject_Z (Z.of_nat (length vs)))%Q).
    { change 0%Q with (inject_Z 0). rewrite <- Zlt_Qlt.
      destruct vs; [done|]. simpl. lia. }
    assert (Hhalf : (0 < thr - (1 # 2))%Q) by Lqa.lra.
    pose proof (Qmult_lt_0_compat _ _ Hhalf Hn) as Hpos.
    Lqa.lra. }
  split; [exact Hexcl|].
  unfold class_rules, length_rule.
  destruct (is_numeric_only series (98 # 100)) eqn:Hd.
  { rewrite (Hexcl (98 # 100)) by done.
    split; [|done].
    destruct (infer_length_rules series); simpl;
      intros H; decompose [or] H; subst; done. }
  destruct (is_alpha_only series (98 # 100)).
  { split; [done|]. intros _. by left. }
  split; [|done].
  destruct (existsb _ _), (existsb _ _), (infer_length_rules series); simpl;
    intros H; decompose [or] H; subst; done.
Qed.

Lemma x12_witness :
  is_alpha_only (RT := Demo.runtime) digits_with_none (98 # 100) = false.
Proof.
  apply (proj1 (x12_numeric_and_alpha_exclude_each_other
                  (RT := Demo.runtime) digits_with_none) (98 # 100)).
  - reflexivity.
  - vm_compute. reflexivity.
Defined.

(** Extra X13.  [generate_pbl_for_column] returns on every column, with
    two to six rules.  The first is the rule on nulls: "Nulls are NOT
    allowed." exactly when no cell is missing. *)
Theorem x13_generate_pbl_shape `{RT : Runtime} (series : Series) :
  ∃ rest,
    generate_pbl_for_column series
    = Ok ((if (isna_sum series =? 0)%Z then "Nulls are NOT allowed."
           else "Nulls are allowed.") :: rest)
    ∧ (1 ≤ length rest ≤ 5)%nat.
Proof.
  destruct (generate_pbl_for_column_total series) as (last & Hlast & ->).
  rewrite uniqueness_rules_total in Hlast. injection Hlast as <-.
  exists (class_rules series
          ++ (if (nunique series =? len (dropna series))%Z
              then [candidate_key_rule]
              else if Qlt_bool (inject_Z (nunique series)
                                / inject_Z (Z.max 1 (len series))) (2 # 100)
                   then [low_cardinality_rule] else [])).
  split.
  - assert (H0 : (0 ≤ isna_sum series)%Z) by (unfold isna_sum; lia).
    destruct (Z.eqb_spec (isna_sum series) 0) as [->|Hne]; [done|].
    assert ((0 <? isna_sum series)%Z = true) as -> by (apply Z.ltb_lt; lia).
    done.
  - rewrite length_app. pose proof (class_rules_length series).
    destruct (nunique series =? len (dropna series))%Z; [simpl; lia|].
    destruct (Qlt_bool _ _); simpl; lia.
Qed.

(** Extra X14.  [_suggest_regex_from_sample] returns [None] exactly when
    the first [max_samples] values hold no non-missing one, so the last
    [return None] of the function is never reached; and it suggests the
    pattern of digits exactly when there is such a value and each one is
    made of digits only. *)
Theorem x14_suggest_regex `{RT : Runtime}
    (sample_values : list cell) (max_samples : nat) :
  let sample :=
    map str_of_cell
        (List.filter notna_cell (take max_samples sample_values)) in
  (_suggest_regex_from_sample sample_values max_samples = None
   ↔ sample = [])
  ∧ (_suggest_regex_from_sample sample_values max_samples = Some "^\d+$"
     ↔ sample ≠ []
       ∧ Forall (λ s, Regex.fullmatch Regex.re_digits s = true) sample).
Proof.
  intros sample. unfold _suggest_regex_from_sample. fold sample.
  clearbody sample. destruct sample as [|s0 ss].
  { split; [done|]. split; [done|]. by intros [? _]. }
  cbv beta iota zeta.
  assert (Hne : s0 :: ss ≠ []) by done. revert Hne.
  generalize (s0 :: ss). clear s0 ss. intros sample Hne.
  destruct (forallb (Regex.fullmatch Regex.re_digits) sample) eqn:Hd.
  { split; [done|]. split; [|done]. intros _. split; [done|].
    apply List.Forall_forall. by apply forallb_forall. }
  assert (Hnd : ¬ Forall (λ s, Regex.fullmatch Regex.re_digits s = true) sample).
  { intros H. rewrite List.Forall_forall in H.
    apply forallb_forall in H. congruence. }
  destruct (forallb (Regex.search Regex.re_at) _);
    [split; [done|]; split; [done|tauto]|].
  destruct (forallb (Regex.search Regex.re_date) _);
    [split; [done|]; split; [done|tauto]|].
  destruct (map String.length sample) eqn:Hl.
  { destruct sample; done. }
  split; [done|]. split; [|tauto]. intros H. discriminate H.
Qed.

(** Extra X15.  When the non-missing values among the first
    [max_samples] are all the empty string, the pattern suggested is the
    one of an e-mail address, which none of them matches: the test on
    ['@'] runs over the non-empty values only and there is none. *)
Theorem x15_empty_strings_get_the_email_pattern `{RT : Runtime}
    (sample_values : list cell) (max_samples : nat) :
  let sample :=
    map str_of_cell
        (List.filter notna_cell (take max_samples sample_values)) in
  sample ≠ [] → Forall (λ s, s = "") sample →
  _suggest_regex_from_sample sample_values max_samples
  = Some "^[\w\.-]+@[\w\.-]+\.\w{2,}$".
Proof.
  intros sample Hne Hall. unfold _suggest_regex_from_sample. fold sample.
  clearbody sample. destruct sample as [|s0 ss]; [done|].
  apply Forall_cons in Hall as [-> Hall].
  assert (List.filter (λ s, negb (String.eqb s "")) ss = []) as Hf.
  { apply filter_none. eapply Forall_impl; [exact Hall|].
    by intros s ->. }
  cbn [forallb List.filter]. rewrite Hf. reflexivity.
Qed.

Lemma x15_witness :
  _suggest_regex_from_sample (RT := Demo.runtime) [Str ""; NaN; Str ""] 100
  = Some "^[\w\.-]+@[\w\.-]+\.\w{2,}$".
Proof.
  apply (x15_empty_strings_get_the_email_pattern (RT := Demo.runtime)
           [Str ""; NaN; Str ""] 100).
  - discriminate.
  - repeat constructor.
Defined.

(** Extra X16.  The overlap fraction is computed on every pair of value
    sets and lies between 0 and 1.  It is 1 exactly when the target has a
    value and every target value occurs in the reference, and 0 exactly
    when no target value occurs in the reference. *)
Theorem x16_overlap_fraction (t_vals r_vals : gset string) :
  ∃ f,
    overlap_fraction t_vals r_vals = Ok f
    ∧ (0 <= f)%Q ∧ (f <= 1)%Q
    ∧ ((f == 1)%Q ↔ t_vals ≠ ∅ ∧ t_vals ⊆ r_vals)
    ∧ ((f == 0)%Q ↔ t_vals ## r_vals).
Proof.
  unfold overlap_fraction.
  destruct (Nat.eqb_spec (size t_vals) 0) as [Hz|Hnz].
  { apply size_empty_inv, leibniz_equiv in Hz. subst t_vals.
    exists 0%Q. split; [done|]. split; [done|]. split; [done|].
    split; [|split; [set_solver|done]].
    split; [intros H; discriminate H|]. by intros [? _]. }
  rewrite truediv_max1. eexists. split; [reflexivity|].
  set (inter := filter (λ v, v ∈ r_vals) t_vals).
  assert (Hsub : inter ⊆ t_vals).
  { intros x Hx. by apply elem_of_filter in Hx as [_ ?]. }
  pose proof (subseteq_size _ _ Hsub) as Hle.
  replace (Z.max 1 (Z.of_nat (size t_vals))) with (Z.of_nat (size t_vals))
    by lia.
  assert (Hpos : (0 < Z.of_nat (size t_vals))%Z) by lia.
  rewrite (ratio_one _ _ Hpos), (ratio_zero _ _ Hpos).
  set (a := inject_Z (Z.of_nat (size inter))).
  set (b := inject_Z (Z.of_nat (size t_vals))).
  assert (Ha : (0 <= a)%Q).
  { unfold a. change 0%Q with (inject_Z 0). rewrite <- Zle_Qle. lia. }
  assert (Hb : (0 < b)%Q).
  { unfold b. change 0%Q with (inject_Z 0). by rewrite <- Zlt_Qlt. }
  assert (Hab : (a <= b)%Q).
  { unfold a, b. rewrite <- Zle_Qle. lia. }
  split; [apply Qle_shift_div_l; Lqa.lra|].
  split; [apply Qle_shift_div_r; Lqa.lra|].
  split.
  - rewrite Nat2Z.inj_iff. split.
    + intros Hsize.
      assert (Heq : inter = t_vals).
      { apply set_subseteq_size_eq; [done|]. by rewrite Hsize. }
      split; [intros ->; by rewrite size_empty in Hnz|].
      intros x Hx. rewrite <- Heq in Hx.
      by apply elem_of_filter in Hx as [? _].
    + intros [_ Hall]. f_equal. apply leibniz_equiv.
      intros x. unfold inter. rewrite elem_of_filter.
      split; [by intros [_ ?]|]. intros Hx. split; [by apply Hall|done].
  - change 0%Z with (Z.of_nat 0). rewrite Nat2Z.inj_iff. split.
    + intros Hsize. apply size_empty_inv in Hsize.
      intros x Hx Hr.
      assert (Hin : x ∈ inter) by (by apply elem_of_filter).
      apply Hsize in Hin. by apply elem_of_empty in Hin.
    + intros Hdis. apply size_empty_iff.
      intros x. unfold inter. rewrite elem_of_filter. split.
      * intros [Hr Hx]. exfalso. by apply (Hdis x).
      * intros Hx. by apply elem_of_empty in Hx.
Qed.

(** Extra X17.  The sorted list of distinct reference values is cut at
    200 before it is counted: for a reference of 200 or more distinct
    values whose overlap reaches the threshold, the rules of the
    enumeration step are the lookup rule, always reporting 200 values, and
    the fraction rule, which prints the float of the overlap fraction
    with two decimals. *)
Theorem x17_large_reference_is_capped `{RT : Runtime}
    (t r : Series) (enum_threshold f : Q) :
  (0 < len t)%Z →
  (200 ≤ size (value_set r))%nat →
  overlap_fraction (value_set t) (value_set r) = Ok f →
  (enum_threshold <= f)%Q →
  enumeration_rules t r enum_threshold
  = Ok [lookup_rule 200; fraction_rule f].
Proof.
  intros Ht Hsize Hf Hthr. unfold enumeration_rules.
  assert (Hr : (0 <? len r)%Z = true).
  { apply Z.ltb_lt. unfold len.
    destruct (values r) as [|c l] eqn:Hv; [|simpl; lia].
    exfalso. unfold value_set, unique in Hsize. rewrite Hv in Hsize.
    change (list_to_set (map str_of_cell (distinct [])))
      with (∅ : gset string) in Hsize.
    rewrite size_empty in Hsize. lia. }
  apply Z.ltb_lt in Ht. rewrite Hr, Ht, Hf. simpl.
  apply Qle_bool_iff in Hthr. rewrite Hthr.
  assert (Hlen : length (take 200 (sorted_str (elements (value_set r))))
                 = 200%nat).
  { rewrite length_take. unfold sorted_str.
    rewrite merge_sort_Permutation.
    change (length (elements (value_set r))) with (size (value_set r)).
    lia. }
  rewrite Hlen. reflexivity.
Qed.

Lemma x17_witness :
  enumeration_rules (RT := Demo.runtime) forty_target large_reference
    (95 # 100)
  = Ok ["Reference provides a large allowed list (200 values). Use lookup mapping.";
        "Fraction of target values present in reference: 0.97"].
Proof.
  refine (x17_large_reference_is_capped (RT := Demo.runtime)
            forty_target large_reference (95 # 100) (39 # 40) _ _ _ _).
  - reflexivity.
  - vm_compute. lia.
  - vm_compute. reflexivity.
  - vm_compute. discriminate.
Defined.

(** Extra X18.  When the reference column has no value, no rule of the
    enumeration step and no count of the reference is emitted, the
    reference is still reported as free of nulls and as a key, and the
    pattern is suggested from the sample of the target. *)
Theorem x18_reference_without_values `{RT : Runtime}
    (target reference : Series) (enum_threshold : Q) (sample_size : nat)
    (g : rng) :
  values (dropna reference) = [] →
  let t := astype_str (dropna target) in
  ∃ last,
    target_uniqueness_rules t = Ok last
    ∧ derive_rules_from_reference target reference enum_threshold
        sample_size g
      = Ok (["Nulls are NOT allowed (reference has no nulls).";
             "Reference values are unique — consider as reference key."]
              ++ match _suggest_regex_from_sample
                         (sample_list t sample_size g).1 100 with
                 | Some p => [pattern_rule p]
                 | None => []
                 end
              ++ (if (0 <? len t)%Z
                  then ["Target distinct count: "
                          +:+ Text.str_of_Z (nunique t)] else [])
              ++ last,
            (sample_list t sample_size g).2).
Proof.
  intros Hr t. unfold derive_rules_from_reference. fold t.
  assert (Hr' : astype_str (dropna reference) = mkSeries object []).
  { unfold astype_str. by rewrite Hr. }
  rewrite Hr'. rewrite target_uniqueness_rules_total.
  eexists. split; [reflexivity|].
  assert (Hnull : null_rules t (mkSeries object [])
                  = ["Nulls are NOT allowed (reference has no nulls)."]).
  { unfold null_rules, t. by rewrite astype_str_isna_sum. }
  rewrite Hnull.
  change (reference_key_rules (mkSeries object []))
    with ["Reference values are unique — consider as reference key."].
  change (enumeration_rules t (mkSeries object []) enum_threshold)
    with (Ok (@nil string) : result (list string)).
  change (range_rules t (mkSeries object [])) with (@nil string).
  change (sample_list (mkSeries object []) sample_size g)
    with (@nil cell, g).
  cbn [mbind result_bind].
  destruct (sample_list t sample_size g) as [tgt_sample g2].
  cbn [fst snd]. rewrite !app_nil_r, <- !app_assoc. reflexivity.
Qed.

Lemma x18_witness :
  ∃ last,
    target_uniqueness_rules
      (astype_str (RT := Demo.runtime) (dropna abc_target)) = Ok last
    ∧ derive_rules_from_reference (RT := Demo.runtime)
        abc_target (mkSeries object [PyNone; NaN]) (95 # 100) 500 []
      = Ok (["Nulls are NOT allowed (reference has no nulls).";
             "Reference values are unique — consider as reference key."]
              ++ match _suggest_regex_from_sample (RT := Demo.runtime)
                         (sample_list (RT := Demo.runtime)
                            (astype_str (RT := Demo.runtime)
                                        (dropna abc_target)) 500 []).1 100 with
                 | Some p => [pattern_rule p]
                 | None => []
                 end
              ++ (if (0 <? len (astype_str (RT := Demo.runtime)
                                           (dropna abc_target)))%Z
                  then ["Target distinct count: "
                          +:+ Text.str_of_Z
                                (nunique (astype_str (RT := Demo.runtime)
                                                     (dropna abc_target)))]
                  else [])
              ++ last,
            (sample_list (RT := Demo.runtime)
               (astype_str (RT := Demo.runtime) (dropna abc_target))
               500 []).2).
Proof.
  apply (x18_reference_without_values (RT := Demo.runtime)
           abc_target (mkSeries object [PyNone; NaN]) (95 # 100) 500 []).
  reflexivity.
Defined.


(** Extra X20.  A column name returned by [extract_column_name] is a
    column of the dataset whose lower-case form is one of the words of the
    lower-cased question; it is not empty and made of letters, digits and
    underscores only, so a column whose name holds a space or a hyphen is
    never detected. *)
Theorem x20_extract_column_name_sound
    (question : string) (df : DataFrame) (c : string) :
  ChatAgent.extract_column_name question df = Some c →
  In c (ChatAgent.columns df)
  ∧ In (Str.lower c)
       (Str.findall_plus Str.is_word_char (Str.lower question))
  ∧ c ≠ ""
  ∧ Forall (λ x, Str.is_word_char x = true) (Regex.chars c).
Proof.
  intros H. apply extract_column_name_In in H as [Hin Hword].
  destruct (findall_plus_spec _ _ _ Hword) as [Hne Hchars].
  split; [done|]. split; [done|]. split.
  - intros ->. done.
  - by apply word_chars_lower.
Qed.

Lemma x20_witness :
  In "Age" (ChatAgent.columns
              [("Order ID", mkSeries int64 []); ("Age", mkSeries int64 [])])
  ∧ In (Str.lower "Age")
       (Str.findall_plus Str.is_word_char
          (Str.lower "What is the mean AGE per order id?"))
  ∧ "Age" ≠ ""
  ∧ Forall (λ x, Str.is_word_char x = true) (Regex.chars "Age").
Proof.
  apply (x20_extract_column_name_sound
           "What is the mean AGE per order id?"
           [("Order ID", mkSeries int64 []); ("Age", mkSeries int64 [])]).
  vm_compute. reflexivity.
Defined.

(** Extra X21.  [extract_column_name] returns [None] exactly when no word
    of the lower-cased question is the lower-case form of a column
    name. *)
Theorem x21_extract_column_name_none (question : string) (df : DataFrame) :
  ChatAgent.extract_column_name question df = None
  ↔ ∀ w c,
      In w (Str.findall_plus Str.is_word_char (Str.lower question)) →
      In c (ChatAgent.columns df) → Str.lower c ≠ w.
Proof.
  unfold ChatAgent.extract_column_name.
  rewrite first_known_None, List.Forall_forall. split.
  - intros H w c Hw Hc. specialize (H w Hw).
    rewrite lower_cols_get in H. by apply (find_rev_neq _ _ _ H).
  - intros H w Hw. rewrite lower_cols_get.
    apply find_rev_None, List.Forall_forall. intros c Hc.
    apply String.eqb_neq. by apply H.
Qed.

(** Extra X22.  The word that selects the column is the first word of the
    question that names one, and of the columns whose names differ in
    letter case only the last one is returned. *)
Theorem x22_first_word_last_column
    (question : string) (df : DataFrame) (c : string) :
  ChatAgent.extract_column_name question df = Some c →
  (∃ ws1 ws2,
      Str.findall_plus Str.is_word_char (Str.lower question)
      = ws1 ++ Str.lower c :: ws2
      ∧ ∀ w c', In w ws1 → In c' (ChatAgent.columns df) → Str.lower c' ≠ w)
  ∧ (∃ l1 l2,
      ChatAgent.columns df = l1 ++ c :: l2
      ∧ ∀ c', In c' l2 → Str.lower c' ≠ Str.lower c).
Proof.
  unfold ChatAgent.extract_column_name. intros H.
  apply first_known_Some in H as (ws1 & w & ws2 & Hwords & Hget & Hnone).
  rewrite lower_cols_get in Hget.
  apply find_rev_last in Hget as (l1 & l2 & Hcols & Hw & Hl2).
  apply String.eqb_eq in Hw. subst w. split.
  - exists ws1, ws2. split; [done|]. intros w c' Hw Hc'.
    rewrite List.Forall_forall in Hnone. specialize (Hnone w Hw).
    rewrite lower_cols_get in Hnone. by apply (find_rev_neq _ _ _ Hnone).
  - exists l1, l2. split; [done|]. intros c' Hc'.
    rewrite List.Forall_forall in Hl2. apply String.eqb_neq. by apply Hl2.
Qed.

Lemma x22_witness :
  (∃ ws1 ws2,
      Str.findall_plus Str.is_word_char (Str.lower "show the Age of age")
      = ws1 ++ Str.lower "AGE" :: ws2
      ∧ ∀ w c', In w ws1
          → In c' (ChatAgent.columns
                     [("age", mkSeries int64 []); ("of", mkSeries object []);
                      ("AGE", mkSeries int64 [])])
          → Str.lower c' ≠ w)
  ∧ (∃ l1 l2,
      ChatAgent.columns
        [("age", mkSeries int64 []); ("of", mkSeries object []);
         ("AGE", mkSeries int64 [])] = l1 ++ "AGE" :: l2
      ∧ ∀ c', In c' l2 → Str.lower c' ≠ Str.lower "AGE").
Proof.
  apply (x22_first_word_last_column "show the Age of age"
           [("age", mkSeries int64 []); ("of", mkSeries object []);
            ("AGE", mkSeries int64 [])]).
  vm_compute. reflexivity.
Defined.

(** Extra X23.  A question that is the name of a column in any letter
    case selects that column, when the name is made of letters, digits
    and underscores and no later column has the same lower-case name. *)
Theorem x23_column_name_as_question
    (question : string) (df : DataFrame) (l1 l2 : list string) (c : string) :
  ChatAgent.columns df = l1 ++ c :: l2 →
  (∀ c', In c' l2 → Str.lower c' ≠ Str.lower c) →
  c ≠ "" → Forall (λ x, Str.is_word_char x = true) (Regex.chars c) →
  Str.lower question = Str.lower c →
  ChatAgent.extract_column_name question df = Some c.
Proof.
  intros Hcols Hl2 Hne Hword Hq. unfold ChatAgent.extract_column_name.
  rewrite Hq, findall_plus_all.
  - cbn [ChatAgent.first_known]. rewrite lower_cols_get, Hcols.
    rewrite rev_app_distr. cbn [rev]. rewrite <- app_assoc. cbn [app].
    assert (Hnone : List.find (λ c0, String.eqb (Str.lower c0) (Str.lower c))
                      (rev l2) = None).
    { apply find_rev_None, List.Forall_forall. intros c' Hc'.
      apply String.eqb_neq. by apply Hl2. }
    revert Hnone. generalize (rev l2). intros l Hnone.
    induction l as [|x l IH]; cbn [app List.find] in *.
    + by rewrite String.eqb_refl.
    + destruct (String.eqb (Str.lower x) (Str.lower c)); [done|].
      by apply IH.
  - intros H. by apply lower_empty in H.
  - by apply word_chars_lower.
Qed.

Lemma x23_witness :
  ChatAgent.extract_column_name "ORDER_ID"
    [("order_id", mkSeries int64 []); ("Order_Id", mkSeries int64 []);
     ("total", mkSeries float64 [])]
  = Some "Order_Id".
Proof.
  apply (x23_column_name_as_question "ORDER_ID"
           [("order_id", mkSeries int64 []); ("Order_Id", mkSeries int64 []);
            ("total", mkSeries float64 [])]
           ["order_id"] ["total"] "Order_Id").
  - reflexivity.
  - intros c' [<-|[]]. vm_compute. discriminate.
  - discriminate.
  - vm_compute. repeat constructor.
  - vm_compute. reflexivity.
Defined.

(** Extra X24.  [get_column_stats] raises the [KeyError] exactly when the
    label is no column of the dataset; so the column detected by
    [extract_column_name] always gets its statistics. *)
Theorem x24_detected_column_has_stats `{RT : Runtime}
    (question : string) (df : DataFrame) :
  (∀ column,
      ChatAgent.get_column_stats df column = None
      ↔ ¬ In column (ChatAgent.columns df))
  ∧ (∀ c,
      ChatAgent.extract_column_name question df = Some c →
      ∃ stats, ChatAgent.get_column_stats df c = Some stats).
Proof.
  assert (Hkey : ∀ column,
      ChatAgent.get_column_stats df column = None
      ↔ ¬ In column (ChatAgent.columns df)).
  { intros column. rewrite <- getitem_None.
    unfold ChatAgent.get_column_stats.
    by destruct (ChatAgent.getitem df column). }
  split; [exact Hkey|]. intros c Hc.
  apply extract_column_name_In in Hc as [Hin _].
  destruct (ChatAgent.get_column_stats df c) as [stats|] eqn:Hs; [eauto|].
  by apply Hkey in Hs.
Qed.

(** Extra X25.  For a column of a numeric dtype, [get_column_stats]
    returns five floats with the nulls and the dtype of the column, and
    nothing is raised.  The minimum and the maximum are NaN when the
    column has no number; otherwise they are floats of the column, no
    value lies below the minimum or above the maximum, and [min <= max].
    The mean, the median and the standard deviation are the floats the
    library returns for the non-missing cells. *)
Theorem x25_column_stats_numeric `{RT : Runtime}
    (df : DataFrame) (column : string) (s : Series) :
  NoDup (map fst df) → In (column, s) df → is_numeric_dtype s = true →
  let xs := array (dropna s) in
  ∃ lo hi,
    ChatAgent.get_column_stats df column
    = Some (ChatAgent.mkStats
              (ChatAgent.NumericBody lo hi
                 (Float64.normalize (mean xs))
                 (Float64.normalize (median xs))
                 (Float64.normalize (std xs)))
              (isna_sum s) (dtype_name (dtype_of s)))
    ∧ (xs = [] → lo = Float64.Nan ∧ hi = Float64.Nan)
    ∧ (xs ≠ [] →
       In lo (floats (dropna s)) ∧ In hi (floats (dropna s))
       ∧ (∀ x, In x (floats (dropna s)) →
               Float64.leb lo x = true ∧ Float64.leb x hi = true)
       ∧ Float64.leb lo hi = true).
Proof.
  intros Hnd Hin Hnum xs. unfold ChatAgent.get_column_stats.
  rewrite (getitem_In df column s Hnd Hin). cbn [mbind option_bind].
  assert (Hnum' : is_numeric_dtype (dropna s) = true) by exact Hnum.
  rewrite Hnum'. eexists _, _. split; [reflexivity|]. fold xs. split.
  - intros ->. done.
  - intros Hne.
    assert (Hnan : Forall (λ y, y ≠ Float64.Nan) xs).
    { apply List.Forall_forall. intros x Hx. by apply (array_not_nan _ x Hx). }
    exact (extremes_spec xs Hne Hnan).
Qed.

Lemma x25_witness :
  ∃ lo hi,
    ChatAgent.get_column_stats (RT := Demo.runtime) demo_table "id"
    = Some (ChatAgent.mkStats
              (ChatAgent.NumericBody lo hi
                 (Float64.Fin 2) (Float64.Fin 2) (Float64.Fin 1))
              0 "int64")
    ∧ Float64.leb lo hi = true.
Proof.
  destruct (x25_column_stats_numeric (RT := Demo.runtime) demo_table "id"
              (mkSeries int64 [Int 1; Int 2; Int 3]))
    as (lo & hi & Hs & _ & H).
  - apply (bool_decide_unpack _). vm_compute. exact I.
  - left. reflexivity.
  - reflexivity.
  - exists lo, hi. split; [exact Hs|]. apply H. discriminate.
Defined.

(** Extra X26.  For a column of another dtype, [get_column_stats]
    returns the number of distinct non-missing values and, as sample
    values, the first ten of them in order of appearance: their number is
    the smaller of ten and the distinct count, each is the string of a
    non-missing cell, and the nulls reported and the non-missing cells
    add up to the length of the column. *)
Theorem x26_column_stats_categorical `{RT : Runtime}
    (df : DataFrame) (column : string) (s : Series) :
  NoDup (map fst df) → In (column, s) df → is_numeric_dtype s = false →
  ∃ vs,
    ChatAgent.get_column_stats df column
    = Some (ChatAgent.mkStats (ChatAgent.OtherBody (nunique s) vs)
              (isna_sum s) (dtype_name (dtype_of s)))
    ∧ length vs = Nat.min 10 (Z.to_nat (nunique s))
    ∧ (∀ v, In v vs → In v (tolist_str (dropna s)))
    ∧ (isna_sum s + len (dropna s) = len s)%Z.
Proof.
  intros Hnd Hin Hnum. unfold ChatAgent.get_column_stats.
  rewrite (getitem_In df column s Hnd Hin). cbn [mbind option_bind].
  assert (Hnum' : is_numeric_dtype (dropna s) = false) by exact Hnum.
  rewrite Hnum'. eexists. split; [|split; [|split]].
  - unfold nunique. rewrite dropna_idemp. reflexivity.
  - rewrite length_map, length_take. unfold nunique, unique.
    rewrite Nat2Z.id. done.
  - intros v Hv. apply in_map_iff in Hv as (c & <- & Hc).
    unfold tolist_str. apply in_map.
    apply distinct_In. unfold unique in Hc.
    apply list_elem_of_In. apply list_elem_of_In in Hc.
    by apply elem_of_take in Hc as (i & Hc & _); apply list_elem_of_lookup_2 in Hc.
  - exact (isna_sum_count s).
Qed.

Lemma x26_witness :
  ∃ vs,
    ChatAgent.get_column_stats (RT := Demo.runtime) demo_table "name"
    = Some (ChatAgent.mkStats
              (ChatAgent.OtherBody
                 (nunique (mkSeries object [Str "ann"; PyNone; Str "bob"])) vs)
              (isna_sum (mkSeries object [Str "ann"; PyNone; Str "bob"]))
              (dtype_name
                 (dtype_of (mkSeries object [Str "ann"; PyNone; Str "bob"]))))
    ∧ length vs
      = Nat.min 10
          (Z.to_nat (nunique (mkSeries object [Str "ann"; PyNone; Str "bob"])))
    ∧ (∀ v, In v vs
         → In v (tolist_str (RT := Demo.runtime)
                   (dropna (mkSeries object [Str "ann"; PyNone; Str "bob"]))))
    ∧ (isna_sum (mkSeries object [Str "ann"; PyNone; Str "bob"])
       + len (dropna (mkSeries object [Str "ann"; PyNone; Str "bob"]))
       = len (mkSeries object [Str "ann"; PyNone; Str "bob"]))%Z.
Proof.
  apply (x26_column_stats_categorical (RT := Demo.runtime) demo_table "name"
           (mkSeries object [Str "ann"; PyNone; Str "bob"])).
  - apply (bool_decide_unpack _). vm_compute. exact I.
  - right. left. reflexivity.
  - reflexivity.
Defined.

(** Extra X27.  A file whose name ends in a dot and one of the types the
    uploader accepts, in any letter case, is read by the branch of
    [load_dataframe] for that type, whatever comes before the dot: none is
    reported as unsupported, and ["xlsx"] and ["xls"] both reach the Excel
    reader. *)
Theorem x27_accepted_types_are_loaded (stem ext : string) :
  In (Str.lower ext) App.accepted_types →
  In (Str.lower ext, App.loader_of (stem +:+ "." +:+ ext))
     [("csv", App.Csv); ("xlsx", App.Excel); ("xls", App.Excel);
      ("json", App.Json); ("txt", App.Txt); ("pdf", App.Pdf);
      ("docx", App.Docx); ("xml", App.Xml)].
Proof.
  intros Hext. unfold App.loader_of.
  rewrite !lower_app. change (Str.lower ".") with ".".
  set (name := Str.lower stem).
  unfold App.accepted_types in Hext. cbn [In] in Hext.
  destruct Hext as [E|[E|[E|[E|[E|[E|[E|[E|[]]]]]]]]]; rewrite <- E;
    change ("." +:+ "csv") with ".csv";
    change ("." +:+ "xlsx") with ".xlsx";
    change ("." +:+ "xls") with ".xls";
    change ("." +:+ "json") with ".json";
    change ("." +:+ "txt") with ".txt";
    change ("." +:+ "pdf") with ".pdf";
    change ("." +:+ "docx") with ".docx";
    change ("." +:+ "xml") with ".xml".
  - rewrite endswith_app. cbn [In]. tauto.
  - assert (Str.endswith (name +:+ ".xlsx") ".csv" = false) as -> by no_suffix.
    rewrite (endswith_app name ".xlsx"), orb_true_r. cbn [In]. tauto.
  - assert (Str.endswith (name +:+ ".xls") ".csv" = false) as -> by no_suffix.
    rewrite (endswith_app name ".xls"). cbn [orb In]. tauto.
  - assert (Str.endswith (name +:+ ".json") ".csv" = false) as -> by no_suffix.
    assert (Str.endswith (name +:+ ".json") ".xls" = false) as -> by no_suffix.
    assert (Str.endswith (name +:+ ".json") ".xlsx" = false) as -> by no_suffix.
    rewrite (endswith_app name ".json"). cbn [orb In]. tauto.
  - assert (Str.endswith (name +:+ ".txt") ".csv" = false) as -> by no_suffix.
    assert (Str.endswith (name +:+ ".txt") ".xls" = false) as -> by no_suffix.
    assert (Str.endswith (name +:+ ".txt") ".xlsx" = false) as -> by no_suffix.
    assert (Str.endswith (name +:+ ".txt") ".json" = false) as -> by no_suffix.
    rewrite (endswith_app name ".txt"). cbn [orb In]. tauto.
  - assert (Str.endswith (name +:+ ".pdf") ".csv" = false) as -> by no_suffix.
    assert (Str.endswith (name +:+ ".pdf") ".xls" = false) as -> by no_suffix.
    assert (Str.endswith (name +:+ ".pdf") ".xlsx" = false) as -> by no_suffix.
    assert (Str.endswith (name +:+ ".pdf") ".json" = false) as -> by no_suffix.
    assert (Str.endswith (name +:+ ".pdf") ".txt" = false) as -> by no_suffix.
    rewrite (endswith_app name ".pdf"). cbn [orb In]. tauto.
  - assert (Str.endswith (name +:+ ".docx") ".csv" = false) as -> by no_suffix.
    assert (Str.endswith (name +:+ ".docx") ".xls" = false) as -> by no_suffix.
    assert (Str.endswith (name +:+ ".docx") ".xlsx" = false) as -> by no_suffix.
    assert (Str.endswith (name +:+ ".docx") ".json" = false) as -> by no_suffix.
    assert (Str.endswith (name +:+ ".docx") ".txt" = false) as -> by no_suffix.
    assert (Str.endswith (name +:+ ".docx") ".pdf" = false) as -> by no_suffix.
    rewrite (endswith_app name ".docx"). cbn [orb In]. tauto.
  - assert (Str.endswith (name +:+ ".xml") ".csv" = false) as -> by no_suffix.
    assert (Str.endswith (name +:+ ".xml") ".xls" = false) as -> by no_suffix.
    assert (Str.endswith (name +:+ ".xml") ".xlsx" = false) as -> by no_suffix.
    assert (Str.endswith (name +:+ ".xml") ".json" = false) as -> by no_suffix.
    assert (Str.endswith (name +:+ ".xml") ".txt" = false) as -> by no_suffix.
    assert (Str.endswith (name +:+ ".xml") ".pdf" = false) as -> by no_suffix.
    assert (Str.endswith (name +:+ ".xml") ".docx" = false) as -> by no_suffix.
    rewrite (endswith_app name ".xml"). cbn [orb In]. tauto.
Qed.

Lemma x27_witness :
  In (Str.lower "XLSX", App.loader_of ("Sales.2024" +:+ "." +:+ "XLSX"))
     [("csv", App.Csv); ("xlsx", App.Excel); ("xls", App.Excel);
      ("json", App.Json); ("txt", App.Txt); ("pdf", App.Pdf);
      ("docx", App.Docx); ("xml", App.Xml)].
Proof.
  apply (x27_accepted_types_are_loaded "Sales.2024" "XLSX").
  vm_compute. tauto.
Defined.




(** Extra X30.  The option selected at first for a target column is the
    reference column of the same name when there is one, and "no mapping"
    otherwise; the lookup of the position never raises.  A column named by
    the empty string gets no default, as the empty string is falsy. *)
Theorem x30_default_mapping (c : string) (ref_cols : list string) :
  ∃ i,
    App.default_index c ref_cols = Some i
    ∧ App.mapping_options ref_cols !! i
      = Some (if existsb (String.eqb c) ref_cols && negb (String.eqb c "")
              then Some c else None).
Proof.
  unfold App.default_index, App.mapping_options.
  destruct (existsb (String.eqb c) ref_cols) eqn:Hin; [|by exists 0%nat].
  destruct (String.eqb c ""); [by exists 0%nat|].
  destruct (index_of_spec c ref_cols Hin) as (i & -> & Hi).
  exists (i + 1)%nat. split; [done|].
  rewrite Nat.add_1_r.
  change ((None :: map Some ref_cols) !! S i) with (map Some ref_cols !! i).
  by rewrite map_lookup, Hi.
Qed.
